(** * bgl: the authenticated API-client layer

    A shallow embedding of the Go sources of the [bgl] command line client:
    package [config] (the credential file), package [auth] (space validation,
    the OAuth login flow, logout and token refresh) and package [backlog]
    (the API client with its refresh-and-retry path, its requests with a
    form and the Markdown of issues and comments), the earlier [Login] of
    package [auth], and the reading of the arguments in package [main].

    Go strings are byte strings and are modelled as [string] (a list of
    8-bit [ascii]); Go [error] values keep the format string and the
    arguments of the [fmt.Errorf] call that built them. *)

From Stdlib Require Import ZArith Lia Bool List Ascii String.
From stdpp Require Import base option gmap strings.

Local Open Scope string_scope.
Local Open Scope Z_scope.

(** ** Package [strings] *)

Module strings.

(** [strings.HasSuffix]:
    [len(s) >= len(suffix) && s[len(s)-len(suffix):] == suffix]. *)
Definition HasSuffix (s suffix : string) : bool :=
  (String.length suffix <=? String.length s)%nat &&
  String.eqb
    (substring (String.length s - String.length suffix)
               (String.length suffix) s)
    suffix.

(** [strings.Index(s, substr) >= 0], by trying every start position. *)
Fixpoint Contains (s substr : string) : bool :=
  String.prefix substr s ||
  match s with
  | EmptyString => false
  | String _ s' => Contains s' substr
  end.

End strings.

(** ** Go [error] values *)

Inductive errno : Type :=
  | ENOENT
  | EACCES
  | EADDRINUSE
  | ENOSPC.

Inductive error : Type :=
  | Errorf (format : string) (args : list fmt_arg)
  | PathError (op : string) (path : string) (e : errno)
  | HomeNotDefined
  | SyntaxError
  | UnmarshalTypeError (field : string)
  | EOF
  | TransportError (what : string)
  | ErrEntropy
  | ErrProgram (what : string)
with fmt_arg : Type :=
  | ArgErr (e : error)
  | ArgInt (n : Z)
  | ArgStr (s : string).

(** [os.IsNotExist]. *)
Definition IsNotExist (e : error) : bool :=
  match e with
  | PathError _ _ ENOENT => true
  | _ => false
  end.

(** ** Bytes *)

(** The numeric value of a byte and Go's [byte(x)] conversion, which keeps
    the low eight bits. *)
Definition byte_val (c : ascii) : Z := Z.of_N (N_of_ascii c).
Definition byte (x : Z) : ascii := ascii_of_N (Z.to_N (Z.land x 255)).

Definition chr (x : Z) : string := String (byte x) EmptyString.

(** The double quote, the backslash and the line feed. *)
Definition dquote : string := chr 34.
Definition backslash : string := chr 92.
Definition newline : string := chr 10.

Fixpoint drop (n : nat) (s : string) : string :=
  match n, s with
  | O, _ => s
  | S n', String _ s' => drop n' s'
  | S _, EmptyString => EmptyString
  end.

Definition take (n : nat) (s : string) : string := substring 0 n s.

(** ** Package [unicode/utf8] *)

Module utf8.

Definition RuneError : Z := 0xFFFD.
Definition MaxRune : Z := 0x10FFFF.
Definition RuneSelf : Z := 0x80.
Definition surrogateMin : Z := 0xD800.
Definition surrogateMax : Z := 0xDFFF.
Definition rune1Max : Z := 0x7F.
Definition rune2Max : Z := 0x7FF.
Definition rune3Max : Z := 0xFFFF.

Definition t2 : Z := 0xC0.
Definition t3 : Z := 0xE0.
Definition t4 : Z := 0xF0.
Definition tx : Z := 0x80.
Definition maskx : Z := 0x3F.
Definition mask2 : Z := 0x1F.
Definition mask3 : Z := 0x0F.
Definition mask4 : Z := 0x07.
Definition locb : Z := 0x80.
Definition hicb : Z := 0xBF.

(** The entries of the [first] table. *)
Definition xx : Z := 0xF1.
Definition as_ : Z := 0xF0.
Definition s1 : Z := 0x02.
Definition s2 : Z := 0x13.
Definition s3 : Z := 0x03.
Definition s4 : Z := 0x23.
Definition s5 : Z := 0x34.
Definition s6 : Z := 0x04.
Definition s7 : Z := 0x44.

(** [first[b]]: information about the first byte of an encoding. *)
Definition first (b : Z) : Z :=
  if b <? 0x80 then as_
  else if b <? 0xC2 then xx
  else if b <? 0xE0 then s1
  else if b =? 0xE0 then s2
  else if b <? 0xED then s3
  else if b =? 0xED then s4
  else if b <? 0xF0 then s3
  else if b =? 0xF0 then s5
  else if b <? 0xF4 then s6
  else if b =? 0xF4 then s7
  else xx.

(** [acceptRanges[i]] as the pair [(lo, hi)]. *)
Definition acceptRanges (i : Z) : Z * Z :=
  if i =? 0 then (locb, hicb)
  else if i =? 1 then (0xA0, hicb)
  else if i =? 2 then (locb, 0x9F)
  else if i =? 3 then (0x90, hicb)
  else if i =? 4 then (locb, 0x8F)
  else (0, 0).

(** [utf8.DecodeRuneInString]: the rune at the front of [s] and its width
    in bytes; [(RuneError, 1)] for an invalid encoding. *)
Definition DecodeRune (s : string) : Z * nat :=
  match s with
  | EmptyString => (RuneError, O)
  | String c0 r0 =>
    let n := Z.of_nat (String.length s) in
    let b0 := byte_val c0 in
    let x := first b0 in
    if as_ <=? x then ((if x =? xx then RuneError else b0), 1%nat)
    else
      let sz := Z.land x 7 in
      let accept := acceptRanges (Z.shiftr x 4) in
      if n <? sz then (RuneError, 1%nat)
      else match r0 with
      | EmptyString => (RuneError, 1%nat)
      | String c1 r1 =>
        let b1 := byte_val c1 in
        if (b1 <? fst accept) || (snd accept <? b1) then (RuneError, 1%nat)
        else if sz <=? 2 then
          (Z.lor (Z.shiftl (Z.land b0 mask2) 6) (Z.land b1 maskx), 2%nat)
        else match r1 with
        | EmptyString => (RuneError, 1%nat)
        | String c2 r2 =>
          let b2 := byte_val c2 in
          if (b2 <? locb) || (hicb <? b2) then (RuneError, 1%nat)
          else if sz <=? 3 then
            (Z.lor (Z.lor (Z.shiftl (Z.land b0 mask3) 12)
                          (Z.shiftl (Z.land b1 maskx) 6))
                   (Z.land b2 maskx), 3%nat)
          else match r2 with
          | EmptyString => (RuneError, 1%nat)
          | String c3 _ =>
            let b3 := byte_val c3 in
            if (b3 <? locb) || (hicb <? b3) then (RuneError, 1%nat)
            else
              (Z.lor (Z.lor (Z.lor (Z.shiftl (Z.land b0 mask4) 18)
                                   (Z.shiftl (Z.land b1 maskx) 12))
                            (Z.shiftl (Z.land b2 maskx) 6))
                     (Z.land b3 maskx), 4%nat)
          end
        end
      end
  end.

(** [utf8.AppendRune] on an empty buffer: the encoding of [r]; runes out
    of range and surrogates are encoded as [RuneError]. *)
Definition EncodeRune (r : Z) : string :=
  let i := r mod 2 ^ 32 in
  if i <=? rune1Max then chr r
  else if i <=? rune2Max then
    chr (Z.lor t2 (Z.shiftr r 6)) ++ chr (Z.lor tx (Z.land r maskx))
  else if (MaxRune <? i) || ((surrogateMin <=? i) && (i <=? surrogateMax)) then
    chr (Z.lor t3 (Z.shiftr RuneError 12)) ++
    chr (Z.lor tx (Z.land (Z.shiftr RuneError 6) maskx)) ++
    chr (Z.lor tx (Z.land RuneError maskx))
  else if i <=? rune3Max then
    chr (Z.lor t3 (Z.shiftr r 12)) ++
    chr (Z.lor tx (Z.land (Z.shiftr r 6) maskx)) ++
    chr (Z.lor tx (Z.land r maskx))
  else
    chr (Z.lor t4 (Z.shiftr r 18)) ++
    chr (Z.lor tx (Z.land (Z.shiftr r 12) maskx)) ++
    chr (Z.lor tx (Z.land (Z.shiftr r 6) maskx)) ++
    chr (Z.lor tx (Z.land r maskx)).

(** [utf8.ValidString]: no byte of [s] decodes to an encoding error.  The
    loop index advances by the width of each rune; [fuel] bounds the number
    of runes and [String.length s] is always enough. *)
Fixpoint ValidString_loop (fuel : nat) (s : string) : bool :=
  match fuel with
  | O => true
  | S fuel' =>
    match s with
    | EmptyString => true
    | String _ _ =>
      let '(r, size) := DecodeRune s in
      if (r =? RuneError) && (size =? 1)%nat then false
      else ValidString_loop fuel' (drop size s)
    end
  end.

Definition ValidString (s : string) : bool :=
  ValidString_loop (String.length s) s.

(** The coercion to well-formed UTF-8 that [encoding/json] applies to
    string values: [s] is read rune by rune and every rune is encoded
    again, so that each invalid byte becomes one replacement character
    U+FFFD. *)
Fixpoint ToValid_loop (fuel : nat) (s : string) : string :=
  match fuel with
  | O => EmptyString
  | S fuel' =>
    match s with
    | EmptyString => EmptyString
    | String _ _ =>
      let '(r, size) := DecodeRune s in
      EncodeRune r ++ ToValid_loop fuel' (drop size s)
    end
  end.

Definition ToValid (s : string) : string :=
  ToValid_loop (String.length s) s.

End utf8.

(** ** Package [strconv] *)

Module strconv.

Definition digit (d : Z) : ascii := byte (48 + d).

(** The decimal digits of a non-negative number, most significant first. *)
Fixpoint formatBits (fuel : nat) (u : Z) (acc : string) : string :=
  match fuel with
  | O => acc
  | S fuel' =>
    let acc' := String (digit (u mod 10)) acc in
    if u <? 10 then acc' else formatBits fuel' (u / 10) acc'
  end.

(** [strconv.FormatInt(i, 10)].  A 64-bit number has at most 20 digits. *)
Definition FormatInt (i : Z) : string :=
  if i <? 0 then String "-" (formatBits 20 (- i) EmptyString)
  else formatBits 20 i EmptyString.

Definition is_digit (c : ascii) : bool :=
  (48 <=? byte_val c) && (byte_val c <=? 57).

(** Accumulate decimal digits; [None] on any other byte. *)
Fixpoint parseDigits (s : string) (acc : Z) : option Z :=
  match s with
  | EmptyString => Some acc
  | String c s' =>
    if is_digit c then parseDigits s' (acc * 10 + (byte_val c - 48))
    else None
  end.

(** [strconv.ParseInt(s, 10, 64)]: an optional sign and at least one
    digit, the value in the range of [int64]. *)
Definition ParseInt (s : string) : option Z :=
  let '(neg, ds) :=
    match s with
    | String c s' =>
      if byte_val c =? 45 then (true, s')
      else if byte_val c =? 43 then (false, s')
      else (false, s)
    | EmptyString => (false, s)
    end in
  match ds with
  | EmptyString => None
  | String _ _ =>
    match parseDigits ds 0 with
    | None => None
    | Some u =>
      let v := if neg then - u else u in
      if (- 2 ^ 63 <=? v) && (v <? 2 ^ 63) then Some v else None
    end
  end.

End strconv.

(** ** Results *)

Inductive result (A : Type) : Type :=
  | Ok (a : A)
  | Err (e : error).
Arguments Ok {A} a.
Arguments Err {A} e.

(** ** Package [encoding/json] *)

Module json.

(** *** Encoding of strings *)

(** [htmlSafeSet[b]] for [b < utf8.RuneSelf]: every byte from the space
    on, except the double quote, [&], [<], [>] and the backslash. *)
Definition htmlSafeSet (b : Z) : bool :=
  (0x20 <=? b) &&
  negb ((b =? 34) || (b =? 38) || (b =? 60) || (b =? 62) || (b =? 92)).

(** [hex[i]] of ["0123456789abcdef"]. *)
Definition hex (i : Z) : string :=
  if i <? 10 then chr (48 + i) else chr (87 + i).

(** The escape written for a byte below [utf8.RuneSelf] that is not in
    [htmlSafeSet]. *)
Definition escape_byte (b : Z) : string :=
  if (b =? 92) || (b =? 34) then backslash ++ chr b
  else if b =? 8 then backslash ++ "b"
  else if b =? 12 then backslash ++ "f"
  else if b =? 10 then backslash ++ "n"
  else if b =? 13 then backslash ++ "r"
  else if b =? 9 then backslash ++ "t"
  else backslash ++ "u00" ++ hex (Z.shiftr b 4) ++ hex (Z.land b 0xF).

(** The loop of [appendString(dst, src, escapeHTML = true)]: what is
    appended for the bytes of [src]; each iteration handles one rune and
    [String.length src] iterations are always enough. *)
Fixpoint appendString_loop (fuel : nat) (src : string) : string :=
  match fuel with
  | O => EmptyString
  | S fuel' =>
    match src with
    | EmptyString => EmptyString
    | String c rest =>
      let b := byte_val c in
      if b <? utf8.RuneSelf then
        if htmlSafeSet b then String c (appendString_loop fuel' rest)
        else escape_byte b ++ appendString_loop fuel' rest
      else
        let '(r, size) := utf8.DecodeRune src in
        if (r =? utf8.RuneError) && (size =? 1)%nat then
          backslash ++ "ufffd" ++ appendString_loop fuel' (drop size src)
        else if (r =? 0x2028) || (r =? 0x2029) then
          backslash ++ "u202" ++ hex (Z.land r 0xF) ++
          appendString_loop fuel' (drop size src)
        else
          take size src ++ appendString_loop fuel' (drop size src)
    end
  end.

Definition appendString (src : string) : string :=
  dquote ++ appendString_loop (String.length src) src ++ dquote.

(** *** Values *)

#[local] Set Warnings "-register-all".

Inductive value : Type :=
  | Null
  | Bool (b : bool)
  | Number (literal : string)
  | Str (s : string)
  | Array (elems : list value)
  | Object (members : list (string * value)).

(** *** Scanning *)

Definition is_space (b : Z) : bool :=
  (b =? 32) || (b =? 9) || (b =? 13) || (b =? 10).

Fixpoint skip_space (s : string) : string :=
  match s with
  | String c s' => if is_space (byte_val c) then skip_space s' else s
  | EmptyString => s
  end.

(** The value of a hexadecimal digit, [-1] for any other byte. *)
Definition unhex (b : Z) : Z :=
  if (48 <=? b) && (b <=? 57) then b - 48
  else if (97 <=? b) && (b <=? 102) then b - 97 + 10
  else if (65 <=? b) && (b <=? 70) then b - 65 + 10
  else -1.

(** [getu4]: the rune of a [\uXXXX] escape at the front of [s], [-1] when
    [s] does not start with one. *)
Definition getu4 (s : string) : Z :=
  match s with
  | String c0 (String c1 (String h0 (String h1 (String h2 (String h3 _))))) =>
    if negb ((byte_val c0 =? 92) && (byte_val c1 =? 117)) then -1
    else
      let d0 := unhex (byte_val h0) in
      let d1 := unhex (byte_val h1) in
      let d2 := unhex (byte_val h2) in
      let d3 := unhex (byte_val h3) in
      if (d0 <? 0) || (d1 <? 0) || (d2 <? 0) || (d3 <? 0) then -1
      else ((d0 * 16 + d1) * 16 + d2) * 16 + d3
  | _ => -1
  end.

(** [utf16.IsSurrogate] and [utf16.DecodeRune]. *)
Definition IsSurrogate (r : Z) : bool := (0xD800 <=? r) && (r <? 0xE000).

Definition utf16_DecodeRune (r1 r2 : Z) : Z :=
  if (0xD800 <=? r1) && (r1 <? 0xDC00) && (0xDC00 <=? r2) && (r2 <? 0xE000)
  then Z.lor (Z.shiftl (r1 - 0xD800) 10) (r2 - 0xDC00) + 0x10000
  else utf8.RuneError.

(** A string literal after its opening quote: the scanner's syntax check
    together with [unquote].  Returns the unquoted bytes and the input
    after the closing quote.  Bytes from [utf8.RuneSelf] on are decoded
    and encoded again, which coerces invalid UTF-8 to U+FFFD. *)
Fixpoint scan_string (fuel : nat) (s : string) : option (string * string) :=
  match fuel with
  | O => None
  | S fuel' =>
    match s with
    | EmptyString => None
    | String c rest =>
      let b := byte_val c in
      if b =? 34 then Some (EmptyString, rest)
      else if b =? 92 then
        match rest with
        | EmptyString => None
        | String e rest' =>
          let k := byte_val e in
          let literal (x : Z) :=
            match scan_string fuel' rest' with
            | Some (t, s') => Some (String (byte x) t, s')
            | None => None
            end in
          if (k =? 34) || (k =? 92) || (k =? 47) then literal k
          else if k =? 98 then literal 8
          else if k =? 102 then literal 12
          else if k =? 110 then literal 10
          else if k =? 114 then literal 13
          else if k =? 116 then literal 9
          else if k =? 117 then
            let rr := getu4 s in
            if rr <? 0 then None
            else
              let after := drop 6 s in
              if IsSurrogate rr then
                let dec := utf16_DecodeRune rr (getu4 after) in
                if negb (dec =? utf8.RuneError) then
                  match scan_string fuel' (drop 6 after) with
                  | Some (t, s') => Some (utf8.EncodeRune dec ++ t, s')
                  | None => None
                  end
                else
                  match scan_string fuel' after with
                  | Some (t, s') => Some (utf8.EncodeRune utf8.RuneError ++ t, s')
                  | None => None
                  end
              else
                match scan_string fuel' after with
                | Some (t, s') => Some (utf8.EncodeRune rr ++ t, s')
                | None => None
                end
          else None
        end
      else if b <? 32 then None
      else if b <? utf8.RuneSelf then
        match scan_string fuel' rest with
        | Some (t, s') => Some (String c t, s')
        | None => None
        end
      else
        let '(rr, size) := utf8.DecodeRune s in
        match scan_string fuel' (drop size s) with
        | Some (t, s') => Some (utf8.EncodeRune rr ++ t, s')
        | None => None
        end
    end
  end.

(** The longest prefix of decimal digits. *)
Fixpoint span_digits (s : string) : string * string :=
  match s with
  | String c s' =>
    if strconv.is_digit c then
      let '(ds, r) := span_digits s' in (String c ds, r)
    else (EmptyString, s)
  | EmptyString => (EmptyString, s)
  end.

(** A number literal: an optional minus sign; a zero, or a digit from 1 to
    9 followed by any digits; optionally a point and one or more digits;
    optionally [e] or [E], an optional sign and one or more digits.
    Returns the literal and the input after it. *)
Definition scan_number (s : string) : option (string * string) :=
  let '(sign, s1) :=
    match s with
    | String c s' => if byte_val c =? 45 then (String c EmptyString, s')
                     else (EmptyString, s)
    | EmptyString => (EmptyString, s)
    end in
  let int_part :=
    match s1 with
    | String c s' =>
      if byte_val c =? 48 then Some (String c EmptyString, s')
      else if strconv.is_digit c then
        let '(ds, r) := span_digits s' in Some (String c ds, r)
      else None
    | EmptyString => None
    end in
  match int_part with
  | None => None
  | Some (ip, s2) =>
    let frac_part :=
      match s2 with
      | String c s' =>
        if byte_val c =? 46 then
          match span_digits s' with
          | (EmptyString, _) => None
          | (ds, r) => Some (String c ds, r)
          end
        else Some (EmptyString, s2)
      | EmptyString => Some (EmptyString, s2)
      end in
    match frac_part with
    | None => None
    | Some (fp, s3) =>
      let exp_part :=
        match s3 with
        | String c s' =>
          if (byte_val c =? 101) || (byte_val c =? 69) then
            let '(sg, s'') :=
              match s' with
              | String g t =>
                if (byte_val g =? 43) || (byte_val g =? 45)
                then (String g EmptyString, t)
                else (EmptyString, s')
              | EmptyString => (EmptyString, s')
              end in
            match span_digits s'' with
            | (EmptyString, _) => None
            | (ds, r) => Some (String c (sg ++ ds), r)
            end
          else Some (EmptyString, s3)
        | EmptyString => Some (EmptyString, s3)
        end in
      match exp_part with
      | None => None
      | Some (ep, s4) => Some (sign ++ ip ++ fp ++ ep, s4)
      end
    end
  end.

(** [s] without the prefix [p], when it starts with it. *)
Fixpoint strip_prefix (p s : string) : option string :=
  match p, s with
  | EmptyString, _ => Some s
  | String a p', String b s' =>
    if Ascii.eqb a b then strip_prefix p' s' else None
  | String _ _, EmptyString => None
  end.

(** The scanner's nesting limit. *)
Definition maxNestingDepth : Z := 10000.

(** One JSON value at the front of [s] (no leading white space), and the
    input after it.  [depth] counts the enclosing arrays and objects;
    [fuel] bounds the number of nested calls and [String.length s] is
    always enough. *)
Fixpoint scan_value (fuel : nat) (depth : Z) (s : string)
    : option (value * string) :=
  match fuel with
  | O => None
  | S fuel' =>
    match s with
    | EmptyString => None
    | String c rest =>
      let b := byte_val c in
      if b =? 123 then
        if maxNestingDepth <? depth + 1 then None
        else
          match skip_space rest with
          | String c' rest' =>
            if byte_val c' =? 125 then Some (Object [], rest')
            else
              match scan_members fuel' (depth + 1) (String c' rest') with
              | Some (ms, s') => Some (Object ms, s')
              | None => None
              end
          | EmptyString => None
          end
      else if b =? 91 then
        if maxNestingDepth <? depth + 1 then None
        else
          match skip_space rest with
          | String c' rest' =>
            if byte_val c' =? 93 then Some (Array [], rest')
            else
              match scan_elements fuel' (depth + 1) (String c' rest') with
              | Some (vs, s') => Some (Array vs, s')
              | None => None
              end
          | EmptyString => None
          end
      else if b =? 34 then
        match scan_string (String.length rest) rest with
        | Some (t, s') => Some (Str t, s')
        | None => None
        end
      else if (b =? 45) || strconv.is_digit c then
        match scan_number s with
        | Some (lit, s') => Some (Number lit, s')
        | None => None
        end
      else if b =? 116 then
        match strip_prefix "true" s with
        | Some s' => Some (Bool true, s')
        | None => None
        end
      else if b =? 102 then
        match strip_prefix "false" s with
        | Some s' => Some (Bool false, s')
        | None => None
        end
      else if b =? 110 then
        match strip_prefix "null" s with
        | Some s' => Some (Null, s')
        | None => None
        end
      else None
    end
  end

(** The members of an object from its first key on, up to and including
    the closing brace. *)
with scan_members (fuel : nat) (depth : Z) (s : string)
    : option (list (string * value) * string) :=
  match fuel with
  | O => None
  | S fuel' =>
    match s with
    | String c rest =>
      if byte_val c =? 34 then
        match scan_string (String.length rest) rest with
        | Some (key, s1) =>
          match skip_space s1 with
          | String c1 s2 =>
            if byte_val c1 =? 58 then
              match scan_value fuel' depth (skip_space s2) with
              | Some (v, s3) =>
                match skip_space s3 with
                | String c3 s4 =>
                  if byte_val c3 =? 44 then
                    match scan_members fuel' depth (skip_space s4) with
                    | Some (ms, s5) => Some ((key, v) :: ms, s5)
                    | None => None
                    end
                  else if byte_val c3 =? 125 then Some ([(key, v)], s4)
                  else None
                | EmptyString => None
                end
              | None => None
              end
            else None
          | EmptyString => None
          end
        | None => None
        end
      else None
    | EmptyString => None
    end
  end

(** The elements of an array from its first element on, up to and
    including the closing bracket. *)
with scan_elements (fuel : nat) (depth : Z) (s : string)
    : option (list value * string) :=
  match fuel with
  | O => None
  | S fuel' =>
    match scan_value fuel' depth s with
    | Some (v, s1) =>
      match skip_space s1 with
      | String c1 s2 =>
        if byte_val c1 =? 44 then
          match scan_elements fuel' depth (skip_space s2) with
          | Some (vs, s3) => Some (v :: vs, s3)
          | None => None
          end
        else if byte_val c1 =? 93 then Some ([v], s2)
        else None
      | EmptyString => None
      end
    | None => None
    end
  end.

(** [checkValid] followed by the scan of the value: [data] is exactly one
    JSON value surrounded by optional white space. *)
Definition scan_document (data : string) : option value :=
  match scan_value (String.length data) 0 (skip_space data) with
  | Some (v, rest) =>
    match skip_space rest with
    | EmptyString => Some v
    | String _ _ => None
    end
  | None => None
  end.

(** *** Matching object keys with struct fields *)

Definition to_upper (b : Z) : Z :=
  if (97 <=? b) && (b <=? 122) then b - 32 else b.

(** [bytes.EqualFold(key, name)] for a field name [name] made of ASCII
    bytes.  Apart from the ASCII letters, only two runes fold to an ASCII
    letter: U+017F (long s) to [S] and U+212A (Kelvin sign) to [K]. *)
Fixpoint EqualFold (fuel : nat) (key name : string) : bool :=
  match fuel with
  | O => false
  | S fuel' =>
    match key, name with
    | EmptyString, EmptyString => true
    | String _ _, String d name' =>
      let '(r, size) := utf8.DecodeRune key in
      let folded :=
        if r =? 0x17F then 83 else if r =? 0x212A then 75 else to_upper r in
      (folded =? to_upper (byte_val d)) &&
      EqualFold fuel' (drop size key) name'
    | _, _ => false
    end
  end.

(** The index of the struct field that receives [key]: an exact match of
    the name first, a case-insensitive one otherwise. *)
Fixpoint find_exact (names : list string) (key : string) : option nat :=
  match names with
  | [] => None
  | n :: names' =>
    if String.eqb n key then Some O
    else option_map S (find_exact names' key)
  end.

Fixpoint find_folded (names : list string) (key : string) : option nat :=
  match names with
  | [] => None
  | n :: names' =>
    if EqualFold (S (String.length key)) key n then Some O
    else option_map S (find_folded names' key)
  end.

Definition find_field (names : list string) (key : string) : option nat :=
  match find_exact names key with
  | Some i => Some i
  | None => find_folded names key
  end.

(** Decoding the members of an object into a struct of type [T].  [set i v t]
    stores [v] in field [i] and is [None] when [v] does not fit the type of the
    field; the first such error is kept and decoding goes on. *)
Fixpoint decode_members {T : Type} (names : list string)
    (set : nat -> value -> T -> option T)
    (ms : list (string * value)) (t : T) : T * option error :=
  match ms with
  | [] => (t, None)
  | (key, v) :: ms' =>
    match find_field names key with
    | None => decode_members names set ms' t
    | Some i =>
      match set i v t with
      | Some t' => decode_members names set ms' t'
      | None =>
        let '(t'', _) := decode_members names set ms' t in
        (t'', Some (UnmarshalTypeError (nth i names EmptyString)))
      end
    end
  end.

(** A value for a field of type [string]: [null] leaves the field as it is. *)
Definition as_string (v : value) (old : string) : option string :=
  match v with
  | Str s => Some s
  | Null => Some old
  | _ => None
  end.

(** A value for a field of type [int64] (or [int]). *)
Definition as_int (v : value) (old : Z) : option Z :=
  match v with
  | Number lit => strconv.ParseInt lit
  | Null => Some old
  | _ => None
  end.

(** Decoding a scanned value into a struct that starts as [zero]. *)
Definition decode_struct {T : Type} (names : list string)
    (set : nat -> value -> T -> option T) (zero : T) (v : value) : result T :=
  match v with
  | Object ms =>
    match decode_members names set ms zero with
    | (t, None) => Ok t
    | (_, Some e) => Err e
    end
  | Null => Ok zero
  | _ => Err (UnmarshalTypeError EmptyString)
  end.

(** [json.Unmarshal(data, &t)]. *)
Definition Unmarshal {T : Type} (names : list string)
    (set : nat -> value -> T -> option T) (zero : T) (data : string) : result T :=
  match scan_document data with
  | None => Err SyntaxError
  | Some v => decode_struct names set zero v
  end.

(** [json.NewDecoder(r).Decode(&t)] on a reader that holds [data]: the
    first value of the stream is decoded and what follows it is left
    unread; a stream without any value is [io.EOF]. *)
Definition Decode {T : Type} (names : list string)
    (set : nat -> value -> T -> option T) (zero : T) (data : string) : result T :=
  match skip_space data with
  | EmptyString => Err EOF
  | String _ _ as s =>
    match scan_value (String.length s) 0 s with
    | None => Err SyntaxError
    | Some (v, _) => decode_struct names set zero v
    end
  end.

End json.

(** ** The world outside the program *)

(** An outgoing API request, as far as the server can tell requests apart. *)
Record Request : Type := {
  Method : string;
  URL : string;
  Authorization : string
}.

(** An HTTP response: the status code, the value of the [WWW-Authenticate]
    header (empty when absent, as [Header.Get] returns it) and the body, or
    the error met while reading it. *)
Record Response : Type := {
  StatusCode : Z;
  WWW_Authenticate : string;
  Body : result string
}.

(** What the program cannot change: the environment variables, the
    credentials set at build time, the permissions of the file system and
    the room it has for a file, the clock, and the remote servers.  A file
    named in [write_limit] can be opened for writing, but the file system
    takes no more than the given number of bytes for it.  The [n]-th call to
    a server (counted from zero) is answered by the server applied to [n]. *)
Record Env : Type := {
  XDG_CONFIG_HOME : string;
  HOME : string;
  ClientID : string;
  ClientSecret : string;
  deny_read : gset string;
  deny_write : gset string;
  write_limit : gmap string nat;
  now : Z;
  api_server : nat -> Request -> result Response;
  token_server : nat -> string -> list (string * string) -> result Response;
  new_request_error : string -> string -> option error
}.

(** A response written to the browser by the callback handler. *)
Record BrowserResponse : Type := {
  status : Z;
  content_type : string;
  content : string
}.

(** What the program changes: the regular files, the callback port, the
    context that releases the shutdown goroutine, and what was sent to the
    browser.  The counters record the calls made so far; the program never
    reads them except to number its calls to the servers. *)
Record State : Type := {
  files : gmap string string;
  port_bound : bool;
  shutdown_signalled : bool;
  browser : list BrowserResponse;
  api_calls : nat;
  token_posts : nat;
  refresh_calls : nat;
  config_writes : nat
}.

Definition set_files (f : gmap string string) (st : State) : State :=
  {| files := f; port_bound := port_bound st;
     shutdown_signalled := shutdown_signalled st; browser := browser st;
     api_calls := api_calls st; token_posts := token_posts st;
     refresh_calls := refresh_calls st;
     config_writes := S (config_writes st) |}.

Definition set_port_bound (b : bool) (st : State) : State :=
  {| files := files st; port_bound := b;
     shutdown_signalled := shutdown_signalled st; browser := browser st;
     api_calls := api_calls st; token_posts := token_posts st;
     refresh_calls := refresh_calls st; config_writes := config_writes st |}.

Definition set_shutdown_signalled (b : bool) (st : State) : State :=
  {| files := files st; port_bound := port_bound st;
     shutdown_signalled := b; browser := browser st;
     api_calls := api_calls st; token_posts := token_posts st;
     refresh_calls := refresh_calls st; config_writes := config_writes st |}.

Definition add_browser (r : BrowserResponse) (st : State) : State :=
  {| files := files st; port_bound := port_bound st;
     shutdown_signalled := shutdown_signalled st; browser := r :: browser st;
     api_calls := api_calls st; token_posts := token_posts st;
     refresh_calls := refresh_calls st; config_writes := config_writes st |}.

Definition count_api_call (st : State) : State :=
  {| files := files st; port_bound := port_bound st;
     shutdown_signalled := shutdown_signalled st; browser := browser st;
     api_calls := S (api_calls st); token_posts := token_posts st;
     refresh_calls := refresh_calls st; config_writes := config_writes st |}.

Definition count_token_post (st : State) : State :=
  {| files := files st; port_bound := port_bound st;
     shutdown_signalled := shutdown_signalled st; browser := browser st;
     api_calls := api_calls st; token_posts := S (token_posts st);
     refresh_calls := refresh_calls st; config_writes := config_writes st |}.

Definition count_refresh_call (st : State) : State :=
  {| files := files st; port_bound := port_bound st;
     shutdown_signalled := shutdown_signalled st; browser := browser st;
     api_calls := api_calls st; token_posts := token_posts st;
     refresh_calls := S (refresh_calls st); config_writes := config_writes st |}.

(** ** Packages [os], [path/filepath] and [net/http] *)

Module os.

(** [os.UserHomeDir] on Unix: [$HOME], an error when it is empty. *)
Definition UserHomeDir (E : Env) : result string :=
  if String.eqb (HOME E) EmptyString then Err HomeNotDefined else Ok (HOME E).

(** [os.ReadFile]. *)
Definition ReadFile (E : Env) (st : State) (name : string) : result string :=
  if decide (name ∈ deny_read E) then Err (PathError "open" name EACCES)
  else match files st !! name with
       | Some data => Ok data
       | None => Err (PathError "open" name ENOENT)
       end.

(** [os.MkdirAll]; directories are not recorded in the state. *)
Definition MkdirAll (E : Env) (path : string) : option error :=
  if decide (path ∈ deny_write E) then Some (PathError "mkdir" path EACCES)
  else None.

(** [os.WriteFile]: the file is opened for writing, which creates it or
    truncates it, then [data] is written and the file is closed.  An open
    that is refused changes nothing.  A write that the file system cuts
    short is an error, returned after the open has emptied the file: the
    file is left with the bytes that were written. *)
Definition WriteFile (E : Env) (name data : string) (st : State)
    : option error * State :=
  if decide (name ∈ deny_write E) then (Some (PathError "open" name EACCES), st)
  else
    match write_limit E !! name with
    | Some n =>
      if (n <? String.length data)%nat then
        (Some (PathError "write" name ENOSPC),
         set_files (<[name := take n data]> (files st)) st)
      else (None, set_files (<[name := data]> (files st)) st)
    | None => (None, set_files (<[name := data]> (files st)) st)
    end.

End os.

Module filepath.

(** [filepath.Join]: the non-empty elements separated by a slash.  The
    final [Clean] of the result is not modelled; the program uses the
    result only as the name of the file. *)
Fixpoint Join (elem : list string) : string :=
  match elem with
  | [] => EmptyString
  | e :: rest =>
    if String.eqb e EmptyString then Join rest
    else match Join rest with
         | EmptyString => e
         | r => e ++ "/" ++ r
         end
  end.

End filepath.

Module http.

Definition StatusOK : Z := 200.
Definition StatusCreated : Z := 201.
Definition StatusBadRequest : Z := 400.
Definition StatusUnauthorized : Z := 401.

(** [http.Error(w, msg, code)]. *)
Definition Error (msg : string) (code : Z) : BrowserResponse :=
  {| status := code; content_type := "text/plain; charset=utf-8";
     content := msg ++ newline |}.

(** [url.Values.Get]: the first value of the key, empty when absent. *)
Fixpoint Get (query : list (string * string)) (key : string) : string :=
  match query with
  | [] => EmptyString
  | (k, v) :: rest => if String.eqb k key then v else Get rest key
  end.

(** [http.PostForm] to the token endpoint. *)
Definition PostForm (E : Env) (url : string) (data : list (string * string))
    (st : State) : result Response * State :=
  (token_server E (token_posts st) url data, count_token_post st).

(** [httpClient.Do] of an API request. *)
Definition Do (E : Env) (req : Request) (st : State) : result Response * State :=
  (api_server E (api_calls st) req, count_api_call st).

End http.

(** ** Package [config] *)

Module config.

Record Config : Type := {
  Space : string;
  AccessToken : string;
  RefreshToken : string;
  ExpiresAt : Z
}.

(** The zero value [Config{}]. *)
Definition zero : Config :=
  {| Space := EmptyString; AccessToken := EmptyString;
     RefreshToken := EmptyString; ExpiresAt := 0 |}.

Definition configFileName : string := "config.json".

(** The names given by the [json] tags, in the order of the fields. *)
Definition json_names : list string :=
  ["space"; "access_token"; "refresh_token"; "expires_at"].

Definition json_set (i : nat) (v : json.value) (c : Config) : option Config :=
  match i with
  | 0%nat =>
    match json.as_string v (Space c) with
    | Some s => Some {| Space := s; AccessToken := AccessToken c;
                       RefreshToken := RefreshToken c; ExpiresAt := ExpiresAt c |}
    | None => None
    end
  | 1%nat =>
    match json.as_string v (AccessToken c) with
    | Some s => Some {| Space := Space c; AccessToken := s;
                       RefreshToken := RefreshToken c; ExpiresAt := ExpiresAt c |}
    | None => None
    end
  | 2%nat =>
    match json.as_string v (RefreshToken c) with
    | Some s => Some {| Space := Space c; AccessToken := AccessToken c;
                       RefreshToken := s; ExpiresAt := ExpiresAt c |}
    | None => None
    end
  | 3%nat =>
    match json.as_int v (ExpiresAt c) with
    | Some n => Some {| Space := Space c; AccessToken := AccessToken c;
                       RefreshToken := RefreshToken c; ExpiresAt := n |}
    | None => None
    end
  | _ => Some c
  end.

(** [json.Unmarshal(data, &cfg)] for a [cfg] that starts as the zero value. *)
Definition Unmarshal (data : string) : result Config :=
  json.Unmarshal json_names json_set zero data.

(** One line of an indented object: two spaces, the quoted name, a colon
    and a space, then the encoded value. *)
Definition member (name encoded : string) : string :=
  "  " ++ dquote ++ name ++ dquote ++ ": " ++ encoded.

(** [json.MarshalIndent(c, "", "  ")].  It cannot fail for this type. *)
Definition MarshalIndent (c : Config) : string :=
  "{" ++ newline ++
  member "space" (json.appendString (Space c)) ++ "," ++ newline ++
  member "access_token" (json.appendString (AccessToken c)) ++ "," ++ newline ++
  member "refresh_token" (json.appendString (RefreshToken c)) ++ "," ++ newline ++
  member "expires_at" (strconv.FormatInt (ExpiresAt c)) ++ newline ++
  "}".

(** [GetConfigDir]. *)
Definition GetConfigDir (E : Env) : result string :=
  if negb (String.eqb (XDG_CONFIG_HOME E) EmptyString) then
    Ok (filepath.Join [XDG_CONFIG_HOME E; "bgl"])
  else
    match os.UserHomeDir E with
    | Err e => Err e
    | Ok homeDir => Ok (filepath.Join [homeDir; ".config"; "bgl"])
    end.

(** [GetConfigPath]. *)
Definition GetConfigPath (E : Env) : result string :=
  match GetConfigDir E with
  | Err e => Err e
  | Ok configDir => Ok (filepath.Join [configDir; configFileName])
  end.

(** [Load]. *)
Definition Load (E : Env) (st : State) : result Config :=
  match GetConfigPath E with
  | Err e => Err e
  | Ok configPath =>
    match os.ReadFile E st configPath with
    | Err e => if IsNotExist e then Ok zero else Err e
    | Ok data =>
      match Unmarshal data with
      | Err e => Err e
      | Ok cfg => Ok cfg
      end
    end
  end.

(** The method [Save] of a [Config]. *)
Definition Save (E : Env) (c : Config) (st : State) : option error * State :=
  match GetConfigDir E with
  | Err e => (Some e, st)
  | Ok configDir =>
    match os.MkdirAll E configDir with
    | Some e => (Some e, st)
    | None =>
      match GetConfigPath E with
      | Err e => (Some e, st)
      | Ok configPath =>
        let data := MarshalIndent c in
        os.WriteFile E configPath data st
      end
    end
  end.

End config.

(** ** Package [auth] *)

Module TokenResponse.

(** [TokenResponse], the OAuth token response. *)
Record t : Type := {
  AccessToken : string;
  TokenType : string;
  ExpiresIn : Z;
  RefreshToken : string
}.

Definition zero : t :=
  {| AccessToken := EmptyString; TokenType := EmptyString; ExpiresIn := 0;
     RefreshToken := EmptyString |}.

Definition json_names : list string :=
  ["access_token"; "token_type"; "expires_in"; "refresh_token"].

Definition json_set (i : nat) (v : json.value) (r : t) : option t :=
  match i with
  | 0%nat =>
    match json.as_string v (AccessToken r) with
    | Some s => Some {| AccessToken := s; TokenType := TokenType r;
                       ExpiresIn := ExpiresIn r; RefreshToken := RefreshToken r |}
    | None => None
    end
  | 1%nat =>
    match json.as_string v (TokenType r) with
    | Some s => Some {| AccessToken := AccessToken r; TokenType := s;
                       ExpiresIn := ExpiresIn r; RefreshToken := RefreshToken r |}
    | None => None
    end
  | 2%nat =>
    match json.as_int v (ExpiresIn r) with
    | Some n => Some {| AccessToken := AccessToken r; TokenType := TokenType r;
                       ExpiresIn := n; RefreshToken := RefreshToken r |}
    | None => None
    end
  | 3%nat =>
    match json.as_string v (RefreshToken r) with
    | Some s => Some {| AccessToken := AccessToken r; TokenType := TokenType r;
                       ExpiresIn := ExpiresIn r; RefreshToken := s |}
    | None => None
    end
  | _ => Some r
  end.

(** [json.NewDecoder(resp.Body).Decode(&token)]. *)
Definition Decode (body : result string) : result t :=
  match body with
  | Err e => Err e
  | Ok data => json.Decode json_names json_set zero data
  end.

End TokenResponse.

Module auth.

Definition callbackPort : Z := 18765.

(** [ValidateSpace]; [None] is Go's [nil] error. *)
Definition ValidateSpace (space : string) : option error :=
  if negb (strings.HasSuffix space ".backlog.com") &&
     negb (strings.HasSuffix space ".backlog.jp")
  then Some (Errorf "invalid space format: must be <your-space-key>.backlog.com or <your-space-key>.backlog.jp" [])
  else None.

(** [getBacklogBaseURL]. *)
Definition getBacklogBaseURL (space : string) : string :=
  "https://" ++ space.

(** [hex.EncodeToString]. *)
Fixpoint EncodeToString (b : string) : string :=
  match b with
  | EmptyString => EmptyString
  | String c b' =>
    json.hex (Z.shiftr (byte_val c) 4) ++ json.hex (Z.land (byte_val c) 0xF) ++
    EncodeToString b'
  end.

(** [generateState]; [random] is what [rand.Read] put in the 16 bytes, or
    its error. *)
Definition generateState (random : result string) : result string :=
  match random with
  | Err e => Err e
  | Ok b => Ok (EncodeToString b)
  end.

(** *** The terminal programs *)

(** [authResult]. *)
Record authResult : Type := {
  code : string;
  err : option error
}.

(** The messages of the terminal programs.  [QuitMsg] is the message that
    the command [tea.Quit] produces, and the one that the program sends to
    itself when the process is told to terminate. *)
Inductive Msg : Type :=
  | KeyMsg (key : string)
  | TickMsg
  | resultMsg (r : authResult)
  | QuitMsg.

(** [inputModel]; [value] is [textInput.Value()]. *)
Record inputModel : Type := {
  value : string;
  input_err : option error;
  done : bool;
  cancelled : bool
}.

(** [newInputModel]. *)
Definition newInputModel : inputModel :=
  {| value := EmptyString; input_err := None; done := false;
     cancelled := false |}.

(** [inputModel.Update]; the boolean tells whether the command is
    [tea.Quit].  [textinput_Update] is the field's own update, which gives
    the value after the message. *)
Definition inputModel_Update (textinput_Update : string -> Msg -> string)
    (msg : Msg) (m : inputModel) : inputModel * bool :=
  let other :=
    ({| value := textinput_Update (value m) msg; input_err := None;
        done := done m; cancelled := cancelled m |}, false) in
  match msg with
  | KeyMsg key =>
    if String.eqb key "enter" then
      match ValidateSpace (value m) with
      | Some e =>
        ({| value := value m; input_err := Some e; done := done m;
            cancelled := cancelled m |}, false)
      | None =>
        ({| value := value m; input_err := input_err m; done := true;
            cancelled := cancelled m |}, true)
      end
    else if String.eqb key "ctrl+c" || String.eqb key "esc" then
      ({| value := value m; input_err := input_err m; done := done m;
          cancelled := true |}, true)
    else other
  | _ => other
  end.

(** The event loop of [tea.Program.Run], over the messages in the order
    in which the loop receives them.  A [QuitMsg] ends the loop with the
    model as it is and no error; [Update] is not called for it.  Every
    other message goes to [Update].  The command that [Update] returns runs
    in a goroutine of its own, so the [QuitMsg] of a [tea.Quit] is received
    after whatever reaches the loop before it: [quitting] tells that such a
    message is on its way, and it is the next one when the list is
    exhausted.  A list exhausted with no [QuitMsg] on its way is a program
    stopped from outside, which is an error. *)
Fixpoint eventLoop {M : Type} (update : Msg -> M -> M * bool) (msgs : list Msg)
    (quitting : bool) (m : M) : result M :=
  match msgs with
  | [] => if quitting then Ok m else Err (ErrProgram "program was killed")
  | QuitMsg :: _ => Ok m
  | msg :: rest =>
    let '(m', quit) := update msg m in
    eventLoop update rest (quitting || quit) m'
  end.

(** [tea.Program.Run]. *)
Definition Run {M : Type} (update : Msg -> M -> M * bool) (msgs : list Msg)
    (m : M) : result M :=
  eventLoop update msgs false m.

(** [spinnerModel] without its animation. *)
Record spinnerModel : Type := {
  sp_done : bool;
  sp_code : string;
  sp_err : option error
}.

(** [newSpinnerModel]. *)
Definition newSpinnerModel : spinnerModel :=
  {| sp_done := false; sp_code := EmptyString; sp_err := None |}.

(** [spinnerModel.Update]. *)
Definition spinnerModel_Update (msg : Msg) (m : spinnerModel)
    : spinnerModel * bool :=
  match msg with
  | KeyMsg key =>
    if String.eqb key "ctrl+c" || String.eqb key "q" then
      ({| sp_done := sp_done m; sp_code := sp_code m;
          sp_err := Some (Errorf "cancelled by user" []) |}, true)
    else (m, false)
  | resultMsg r =>
    ({| sp_done := true; sp_code := code r; sp_err := err r |}, true)
  | TickMsg => (m, false)
  | QuitMsg => (m, false)
  end.

(** *** The callback handler *)

(** The handler registered on the root path: what it sends on
    [resultChan] and what it answers to the browser, for a request with the
    given query parameters.  [state] is the nonce of this login. *)
Definition callback_handler (state : string) (query : list (string * string))
    : authResult * BrowserResponse :=
  let receivedState := http.Get query "state" in
  if negb (String.eqb receivedState state) then
    ({| code := EmptyString;
        err := Some (Errorf "state mismatch: expected %s, got %s"
                            [ArgStr state; ArgStr receivedState]) |},
     http.Error "State mismatch" http.StatusBadRequest)
  else
    let code := http.Get query "code" in
    if String.eqb code EmptyString then
      ({| code := EmptyString;
          err := Some (Errorf "no authorization code received" []) |},
       http.Error "No authorization code" http.StatusBadRequest)
    else
      ({| code := code; err := None |},
       {| status := http.StatusOK;
          content_type := "text/html; charset=utf-8";
          content := "<html><body><h1>Login successful!</h1><p>You can close this window.</p></body></html>" |}).

(** What happens while [Login] waits, in the order in which the spinner
    program handles it.  [WQuit] is a [QuitMsg] that reaches the program
    from outside, when the process is told to terminate. *)
Inductive wait_event : Type :=
  | WKey (key : string)
  | WTick
  | WCallback (query : list (string * string))
  | WServeError (e : error)
  | WTimeout
  | WProgramError (e : error)
  | WQuit.

(** The wait for the result: the spinner program runs until it quits.
    The goroutine of [waitForResult] is receiving on [resultChan] from the
    start, so the first result sent (by the handler, by the goroutine of
    [server.Serve] or by the timer) reaches the program as a [resultMsg].
    The events are those that the program handles up to its end: the
    [QuitMsg] of its own [tea.Quit] is the next message it receives.  A
    [QuitMsg] from outside ends the program with the model as it is and no
    error.  The timer always fires in the end, which is the empty list. *)
Fixpoint wait (state : string) (events : list wait_event) (m : spinnerModel)
    (st : State) : result spinnerModel * State :=
  let deliver (r : authResult) (st' : State) :=
    (Ok (fst (spinnerModel_Update (resultMsg r) m)), st') in
  let timeout :=
    {| code := EmptyString;
       err := Some (Errorf "authentication timeout" []) |} in
  match events with
  | [] => deliver timeout st
  | WTimeout :: _ => deliver timeout st
  | WServeError e :: _ => deliver {| code := EmptyString; err := Some e |} st
  | WCallback query :: _ =>
    let '(r, answer) := callback_handler state query in
    deliver r (add_browser answer st)
  | WProgramError e :: _ => (Err e, st)
  | WQuit :: _ => (Ok m, st)
  | WKey key :: rest =>
    let '(m', quit) := spinnerModel_Update (KeyMsg key) m in
    if quit then (Ok m', st) else wait state rest m' st
  | WTick :: rest =>
    let '(m', quit) := spinnerModel_Update TickMsg m in
    if quit then (Ok m', st) else wait state rest m' st
  end.

(** *** Token exchange *)

(** [exchangeCode]. *)
Definition exchangeCode (E : Env) (baseURL code redirectURI : string)
    (st : State) : result TokenResponse.t * State :=
  let tokenURL := baseURL ++ "/api/v2/oauth2/token" in
  let data :=
    [("grant_type", "authorization_code"); ("code", code);
     ("redirect_uri", redirectURI); ("client_id", ClientID E);
     ("client_secret", ClientSecret E)] in
  match http.PostForm E tokenURL data st with
  | (Err e, st1) => (Err e, st1)
  | (Ok resp, st1) =>
    if negb (StatusCode resp =? http.StatusOK) then
      (Err (Errorf "token request failed with status: %d"
                   [ArgInt (StatusCode resp)]), st1)
    else
      match TokenResponse.Decode (Body resp) with
      | Err e => (Err e, st1)
      | Ok token => (Ok token, st1)
      end
  end.

(** *** Login *)

(** What reaches one run of [Login] from outside: the messages of the
    input program and the update function of its text field, the bytes read
    from [rand.Read], the events of the wait, and whether the shutdown
    goroutine runs before [Login] returns.  The authorization URL is only
    printed and handed to the browser, and a failure to open the browser
    is only printed; neither is part of the model. *)
Record Scenario : Type := {
  textinput_Update : string -> Msg -> string;
  input_msgs : list Msg;
  random : result string;
  wait_events : list wait_event;
  shutdown_before_return : bool
}.

(** The goroutine started before the wait: it blocks until the shutdown
    context is done and then calls [server.Shutdown], which closes the
    listener. *)
Definition shutdown_goroutine (st : State) : State :=
  if shutdown_signalled st then set_port_bound false st else st.

(** The deferred [shutdownCancel()], and the return of [Login].  The
    goroutine is released by the cancellation; [Login] does not wait for
    it, so it runs before or after [Login] has returned. *)
Definition deferred_shutdownCancel (sc : Scenario) (st : State) : State :=
  let st1 := set_shutdown_signalled true st in
  if shutdown_before_return sc then shutdown_goroutine st1 else st1.

(** [Login] from the start of the spinner program to the [return]. *)
Definition Login_wait_and_store (E : Env) (sc : Scenario)
    (space baseURL redirectURI state : string) (st : State)
    : option error * State :=
  match wait state (wait_events sc) newSpinnerModel st with
  | (Err e, st1) => (Some (Errorf "spinner error: %w" [ArgErr e]), st1)
  | (Ok sm, st1) =>
    match sp_err sm with
    | Some e => (Some e, st1)
    | None =>
      match exchangeCode E baseURL (sp_code sm) redirectURI st1 with
      | (Err e, st2) =>
        (Some (Errorf "failed to exchange code: %w" [ArgErr e]), st2)
      | (Ok token, st2) =>
        match config.Load E st2 with
        | Err e => (Some (Errorf "failed to load config: %w" [ArgErr e]), st2)
        | Ok cfg =>
          let cfg' :=
            {| config.Space := space;
               config.AccessToken := TokenResponse.AccessToken token;
               config.RefreshToken := TokenResponse.RefreshToken token;
               config.ExpiresAt := config.ExpiresAt cfg |} in
          match config.Save E cfg' st2 with
          | (Some e, st3) =>
            (Some (Errorf "failed to save config: %w" [ArgErr e]), st3)
          | (None, st3) => (None, st3)
          end
        end
      end
    end
  end.

(** [Login]. *)
Definition Login (E : Env) (sc : Scenario) (st : State)
    : option error * State :=
  match Run (inputModel_Update (textinput_Update sc)) (input_msgs sc)
            newInputModel with
  | Err e => (Some (Errorf "input error: %w" [ArgErr e]), st)
  | Ok m =>
    if cancelled m then (Some (Errorf "cancelled by user" []), st)
    else
      let space := value m in
      if String.eqb (ClientID E) EmptyString ||
         String.eqb (ClientSecret E) EmptyString then
        (Some (Errorf "OAuth client credentials are not configured. Please build with the required configuration flags" []), st)
      else
        let baseURL := getBacklogBaseURL space in
        let redirectURI := "http://localhost:" ++ strconv.FormatInt callbackPort in
        match generateState (random sc) with
        | Err e => (Some (Errorf "failed to generate state: %w" [ArgErr e]), st)
        | Ok state =>
          (* net.Listen *)
          if port_bound st then
            (Some (Errorf "failed to start callback server: %w"
                          [ArgErr (PathError "listen" "tcp" EADDRINUSE)]), st)
          else
            let st1 := set_port_bound true st in
            let '(r, st2) :=
              Login_wait_and_store E sc space baseURL redirectURI state st1 in
            (r, deferred_shutdownCancel sc st2)
        end
  end.

(** *** Logout and refresh *)

(** [Logout]. *)
Definition Logout (E : Env) (st : State) : option error * State :=
  match config.Load E st with
  | Err e => (Some (Errorf "failed to load config: %w" [ArgErr e]), st)
  | Ok cfg =>
    if String.eqb (config.AccessToken cfg) EmptyString &&
       String.eqb (config.RefreshToken cfg) EmptyString then
      (Some (Errorf "not logged in" []), st)
    else
      let cfg' :=
        {| config.Space := config.Space cfg;
           config.AccessToken := EmptyString;
           config.RefreshToken := EmptyString;
           config.ExpiresAt := config.ExpiresAt cfg |} in
      match config.Save E cfg' st with
      | (Some e, st1) =>
        (Some (Errorf "failed to save config: %w" [ArgErr e]), st1)
      | (None, st1) => (None, st1)
      end
  end.

(** [RefreshToken]. *)
Definition RefreshToken (E : Env) (st0 : State) : option error * State :=
  let st := count_refresh_call st0 in
  match config.Load E st with
  | Err e => (Some (Errorf "failed to load config: %w" [ArgErr e]), st)
  | Ok cfg =>
    if String.eqb (config.RefreshToken cfg) EmptyString then
      (Some (Errorf "no refresh token found. Please run 'bgl auth login' first" []), st)
    else
      let baseURL := getBacklogBaseURL (config.Space cfg) in
      let tokenURL := baseURL ++ "/api/v2/oauth2/token" in
      let data :=
        [("grant_type", "refresh_token"); ("client_id", ClientID E);
         ("client_secret", ClientSecret E);
         ("refresh_token", config.RefreshToken cfg)] in
      match http.PostForm E tokenURL data st with
      | (Err e, st1) => (Some e, st1)
      | (Ok resp, st1) =>
        if negb (StatusCode resp =? http.StatusOK) then
          (Some (Errorf "token refresh failed with status: %d"
                        [ArgInt (StatusCode resp)]), st1)
        else
          match TokenResponse.Decode (Body resp) with
          | Err e => (Some e, st1)
          | Ok token =>
            let cfg' :=
              {| config.Space := config.Space cfg;
                 config.AccessToken := TokenResponse.AccessToken token;
                 config.RefreshToken := TokenResponse.RefreshToken token;
                 config.ExpiresAt := config.ExpiresAt cfg |} in
            match config.Save E cfg' st1 with
            | (Some e, st2) =>
              (Some (Errorf "failed to save config: %w" [ArgErr e]), st2)
            | (None, st2) => (None, st2)
            end
          end
      end
  end.

End auth.

(** ** Package [backlog] *)

Module backlog.

(** [Client]; its [httpClient] is the constant client with the timeout of
    thirty seconds. *)
Record Client : Type := {
  cfg : config.Config
}.

(** [NewClient]. *)
Definition NewClient (E : Env) (st : State) : result Client * State :=
  match config.Load E st with
  | Err e => (Err (Errorf "failed to load config: %w" [ArgErr e]), st)
  | Ok cfg0 =>
    if String.eqb (config.AccessToken cfg0) EmptyString then
      (Err (Errorf "not logged in. Please run 'bgl auth login' first" []), st)
    else if (config.ExpiresAt cfg0 >? 0) && (now E >=? config.ExpiresAt cfg0) then
      match auth.RefreshToken E st with
      | (Some e, st1) =>
        (Err (Errorf "failed to refresh token: %w" [ArgErr e]), st1)
      | (None, st1) =>
        match config.Load E st1 with
        | Err e => (Err (Errorf "failed to reload config: %w" [ArgErr e]), st1)
        | Ok cfg1 => (Ok {| cfg := cfg1 |}, st1)
        end
      end
    else (Ok {| cfg := cfg0 |}, st)
  end.

(** The result of a call that may go on forever: [Running] is a call that
    has not returned within the number of nested calls allowed. *)
Inductive outcome (A : Type) : Type :=
  | Returned (a : A)
  | Running.
Arguments Returned {A} a.
Arguments Running {A}.

(** [(c *Client) doRequest].  The method calls itself after a refresh;
    [fuel] bounds the depth of these calls.  [c] is a pointer, so the
    client as the call leaves it is returned too. *)
Fixpoint doRequest (fuel : nat) (E : Env) (c : Client) (method path : string)
    (st : State) : outcome (result string) * Client * State :=
  match fuel with
  | O => (Running, c, st)
  | S fuel' =>
    let url := "https://" ++ config.Space (cfg c) ++ path in
    match new_request_error E method url with
    | Some e => (Returned (Err e), c, st)
    | None =>
      let req :=
        {| Method := method; URL := url;
           Authorization := "Bearer " ++ config.AccessToken (cfg c) |} in
      match http.Do E req st with
      | (Err e, st1) => (Returned (Err e), c, st1)
      | (Ok resp, st1) =>
        match Body resp with
        | Err e => (Returned (Err e), c, st1)
        | Ok body =>
          if StatusCode resp =? http.StatusUnauthorized then
            let wwwAuth := WWW_Authenticate resp in
            if strings.Contains wwwAuth "The access token expired" then
              match auth.RefreshToken E st1 with
              | (Some e, st2) =>
                (Returned (Err (Errorf "access token expired and refresh failed: %w. Please run 'bgl auth login'" [ArgErr e])), c, st2)
              | (None, st2) =>
                match config.Load E st2 with
                | Err e =>
                  (Returned (Err (Errorf "failed to reload config: %w" [ArgErr e])), c, st2)
                | Ok cfg' =>
                  doRequest fuel' E {| cfg := cfg' |} method path st2
                end
              end
            else if strings.Contains wwwAuth "The access token is invalid" then
              (Returned (Err (Errorf "access token is invalid. Please run 'bgl auth login'" [])), c, st1)
            else
              (Returned (Err (Errorf "authentication failed (status %d). Please run 'bgl auth login'" [ArgInt (StatusCode resp)])), c, st1)
          else if negb (StatusCode resp =? http.StatusOK) then
            (Returned (Err (Errorf "API request failed with status %d: %s"
                                   [ArgInt (StatusCode resp); ArgStr body])), c, st1)
          else (Returned (Ok body), c, st1)
        end
      end
    end
  end.

(** [GetIssue]. *)
Definition GetIssue (fuel : nat) (E : Env) (c : Client) (issueKeyOrID : string)
    (st : State) : outcome (result string) * Client * State :=
  doRequest fuel E c "GET" ("/api/v2/issues/" ++ issueKeyOrID) st.

End backlog.

(** ** Package [net/url] *)

Module url.

(** [upperhex[i]] of ["0123456789ABCDEF"]. *)
Definition upperhex (i : Z) : string :=
  if i <? 10 then chr (48 + i) else chr (55 + i).

(** [shouldEscape(c, encodeQueryComponent)]: the letters, the digits and
    the marks [-], [_], [.] and [~] are kept; the reserved characters
    and every other byte are escaped. *)
Definition shouldEscape (c : Z) : bool :=
  if ((97 <=? c) && (c <=? 122)) || ((65 <=? c) && (c <=? 90)) ||
     ((48 <=? c) && (c <=? 57)) then false
  else if (c =? 45) || (c =? 95) || (c =? 46) || (c =? 126) then false
  else true.

(** [url.QueryEscape]: a space becomes [+], a byte to escape becomes [%]
    and its two hexadecimal digits, any other byte is copied. *)
Fixpoint QueryEscape (s : string) : string :=
  match s with
  | EmptyString => EmptyString
  | String c s' =>
    let b := byte_val c in
    (if b =? 32 then "+"
     else if shouldEscape b then
       "%" ++ upperhex (Z.shiftr b 4) ++ upperhex (Z.land b 15)
     else String c EmptyString) ++ QueryEscape s'
  end.

(** [url.Values], a map from a key to its values. *)
Definition Values : Type := gmap string (list string).

(** [Values.Set]. *)
Definition Set_ (v : Values) (key value : string) : Values :=
  <[key := [value]]> v.

(** The keys in increasing order, as [slices.Sort] leaves them. *)
Fixpoint insert_sorted (k : string) (ks : list string) : list string :=
  match ks with
  | [] => [k]
  | k' :: rest =>
    if String.leb k k' then k :: ks else k' :: insert_sorted k rest
  end.

Definition sorted_keys (v : Values) : list string :=
  fold_right insert_sorted [] (map fst (map_to_list v)).

(** The inner loop of [Values.Encode]: the values of one key are appended
    to the buffer, with [&] before each pair but the very first. *)
Fixpoint Encode_values (keyEscaped : string) (vs : list string) (buf : string)
    : string :=
  match vs with
  | [] => buf
  | v :: vs' =>
    let buf1 := if (0 <? String.length buf)%nat then buf ++ "&" else buf in
    Encode_values keyEscaped vs' (buf1 ++ keyEscaped ++ "=" ++ QueryEscape v)
  end.

Fixpoint Encode_keys (v : Values) (keys : list string) (buf : string) : string :=
  match keys with
  | [] => buf
  | k :: keys' =>
    Encode_keys v keys'
      (Encode_values (QueryEscape k) (default [] (v !! k)) buf)
  end.

(** [Values.Encode]. *)
Definition Encode (v : Values) : string :=
  Encode_keys v (sorted_keys v) EmptyString.

End url.

(** ** Package [backlog]: the other methods of the client *)

(** A request that carries a form. *)
Record FormRequest : Type := {
  request : Request;
  ContentType : string;
  FormBody : string
}.

Module api.

(** [GetComments]. *)
Definition GetComments (fuel : nat) (E : Env) (c : backlog.Client)
    (issueKeyOrID : string) (st : State)
    : backlog.outcome (result string) * backlog.Client * State :=
  backlog.doRequest fuel E c "GET"
    ("/api/v2/issues/" ++ issueKeyOrID ++ "/comments") st.

(** [GetComment]. *)
Definition GetComment (fuel : nat) (E : Env) (c : backlog.Client)
    (issueKeyOrID commentID : string) (st : State)
    : backlog.outcome (result string) * backlog.Client * State :=
  backlog.doRequest fuel E c "GET"
    ("/api/v2/issues/" ++ issueKeyOrID ++ "/comments/" ++ commentID) st.

(** [GetProjectStatuses]. *)
Definition GetProjectStatuses (fuel : nat) (E : Env) (c : backlog.Client)
    (projectIDOrKey : string) (st : State)
    : backlog.outcome (result string) * backlog.Client * State :=
  backlog.doRequest fuel E c "GET"
    ("/api/v2/projects/" ++ projectIDOrKey ++ "/statuses") st.

(** [GetSpace]. *)
Definition GetSpace (c : backlog.Client) : string :=
  config.Space (backlog.cfg c).

Section forms.

(** The answers of the API server to the requests that carry a form: the
    [n]-th call of the HTTP client is answered by the server applied to
    [n]. *)
Variable form_server : nat -> FormRequest -> result Response.

(** [httpClient.Do] of a request with a form. *)
Definition Do (req : FormRequest) (st : State) : result Response * State :=
  (form_server (api_calls st) req, count_api_call st).

(** [(c *Client) doPostRequest].  The method calls itself after a refresh;
    [fuel] bounds the depth of these calls. *)
Fixpoint doPostRequest (fuel : nat) (E : Env) (c : backlog.Client)
    (path : string) (data : url.Values) (st : State)
    : backlog.outcome (result string) * backlog.Client * State :=
  match fuel with
  | O => (backlog.Running, c, st)
  | S fuel' =>
    let apiURL := "https://" ++ config.Space (backlog.cfg c) ++ path in
    match new_request_error E "POST" apiURL with
    | Some e => (backlog.Returned (Err e), c, st)
    | None =>
      let req :=
        {| request :=
             {| Method := "POST"; URL := apiURL;
                Authorization :=
                  "Bearer " ++ config.AccessToken (backlog.cfg c) |};
           ContentType := "application/x-www-form-urlencoded";
           FormBody := url.Encode data |} in
      match Do req st with
      | (Err e, st1) => (backlog.Returned (Err e), c, st1)
      | (Ok resp, st1) =>
        match Body resp with
        | Err e => (backlog.Returned (Err e), c, st1)
        | Ok body =>
          if StatusCode resp =? http.StatusUnauthorized then
            let wwwAuth := WWW_Authenticate resp in
            if strings.Contains wwwAuth "The access token expired" then
              match auth.RefreshToken E st1 with
              | (Some e, st2) =>
                (backlog.Returned (Err (Errorf "access token expired and refresh failed: %w. Please run 'bgl auth login'" [ArgErr e])), c, st2)
              | (None, st2) =>
                match config.Load E st2 with
                | Err e =>
                  (backlog.Returned (Err (Errorf "failed to reload config: %w" [ArgErr e])), c, st2)
                | Ok cfg' =>
                  doPostRequest fuel' E {| backlog.cfg := cfg' |} path data st2
                end
              end
            else if strings.Contains wwwAuth "The access token is invalid" then
              (backlog.Returned (Err (Errorf "access token is invalid. Please run 'bgl auth login'" [])), c, st1)
            else
              (backlog.Returned (Err (Errorf "authentication failed (status %d). Please run 'bgl auth login'" [ArgInt (StatusCode resp)])), c, st1)
          else if negb (StatusCode resp =? http.StatusCreated) &&
                  negb (StatusCode resp =? http.StatusOK) then
            (backlog.Returned (Err (Errorf "API request failed with status %d: %s"
                                           [ArgInt (StatusCode resp); ArgStr body])), c, st1)
          else (backlog.Returned (Ok body), c, st1)
        end
      end
    end
  end.

(** [AddComment]. *)
Definition AddComment (fuel : nat) (E : Env) (c : backlog.Client)
    (issueKeyOrID content : string) (st : State)
    : backlog.outcome (result string) * backlog.Client * State :=
  let data := url.Set_ ∅ "content" content in
  doPostRequest fuel E c ("/api/v2/issues/" ++ issueKeyOrID ++ "/comments")
    data st.

(** [(c *Client) doPatchRequest]. *)
Fixpoint doPatchRequest (fuel : nat) (E : Env) (c : backlog.Client)
    (path : string) (data : url.Values) (st : State)
    : backlog.outcome (result string) * backlog.Client * State :=
  match fuel with
  | O => (backlog.Running, c, st)
  | S fuel' =>
    let apiURL := "https://" ++ config.Space (backlog.cfg c) ++ path in
    match new_request_error E "PATCH" apiURL with
    | Some e => (backlog.Returned (Err e), c, st)
    | None =>
      let req :=
        {| request :=
             {| Method := "PATCH"; URL := apiURL;
                Authorization :=
                  "Bearer " ++ config.AccessToken (backlog.cfg c) |};
           ContentType := "application/x-www-form-urlencoded";
           FormBody := url.Encode data |} in
      match Do req st with
      | (Err e, st1) => (backlog.Returned (Err e), c, st1)
      | (Ok resp, st1) =>
        match Body resp with
        | Err e => (backlog.Returned (Err e), c, st1)
        | Ok body =>
          if StatusCode resp =? http.StatusUnauthorized then
            let wwwAuth := WWW_Authenticate resp in
            if strings.Contains wwwAuth "The access token expired" then
              match auth.RefreshToken E st1 with
              | (Some e, st2) =>
                (backlog.Returned (Err (Errorf "access token expired and refresh failed: %w. Please run 'bgl auth login'" [ArgErr e])), c, st2)
              | (None, st2) =>
                match config.Load E st2 with
                | Err e =>
                  (backlog.Returned (Err (Errorf "failed to reload config: %w" [ArgErr e])), c, st2)
                | Ok cfg' =>
                  doPatchRequest fuel' E {| backlog.cfg := cfg' |} path data st2
                end
              end
            else if strings.Contains wwwAuth "The access token is invalid" then
              (backlog.Returned (Err (Errorf "access token is invalid. Please run 'bgl auth login'" [])), c, st1)
            else
              (backlog.Returned (Err (Errorf "authentication failed (status %d). Please run 'bgl auth login'" [ArgInt (StatusCode resp)])), c, st1)
          else if negb (StatusCode resp =? http.StatusOK) then
            (backlog.Returned (Err (Errorf "API request failed with status %d: %s"
                                           [ArgInt (StatusCode resp); ArgStr body])), c, st1)
          else (backlog.Returned (Ok body), c, st1)
        end
      end
    end
  end.

(** [UpdateIssue]. *)
Definition UpdateIssue (fuel : nat) (E : Env) (c : backlog.Client)
    (issueKeyOrID : string) (data : url.Values) (st : State)
    : backlog.outcome (result string) * backlog.Client * State :=
  doPatchRequest fuel E c ("/api/v2/issues/" ++ issueKeyOrID) data st.

End forms.

End api.

(** ** Package [backlog]: issues and comments as Markdown *)

Module Assignee.

(** [Assignee]. *)
Record t : Type := {
  Name : string;
  MailAddress : string
}.

End Assignee.

Module Status.

(** [Status]. *)
Record t : Type := {
  Name : string
}.

End Status.

Module Issue.

(** [Issue]; a [nil] pointer is [None]. *)
Record t : Type := {
  ProjectId : Z;
  Summary : string;
  Description : string;
  Assignee : option Assignee.t;
  Status : option Status.t
}.

End Issue.

Module CommentUser.

(** [CommentUser]. *)
Record t : Type := {
  Name : string;
  MailAddress : string
}.

End CommentUser.

Module Comment.

(** [Comment]. *)
Record t : Type := {
  ID : Z;
  Content : string;
  CreatedUser : option CommentUser.t;
  Created : string
}.

End Comment.

Module ProjectStatus.

(** [ProjectStatus]. *)
Record t : Type := {
  ID : Z;
  ProjectID : Z;
  Name : string;
  Color : string;
  DisplayOrder : Z
}.

End ProjectStatus.

Module format.

(** [FormatIssueMarkdown]; the verb [%d] writes a number as
    [strconv.FormatInt] does and [%s] copies the string. *)
Definition FormatIssueMarkdown (issue : Issue.t) : string :=
  "## Metadata" ++ newline ++
  "- Project ID: " ++ strconv.FormatInt (Issue.ProjectId issue) ++ newline ++
  match Issue.Status issue with
  | Some status => "- Status: " ++ Status.Name status ++ newline
  | None => "- Status: (unknown)" ++ newline
  end ++
  match Issue.Assignee issue with
  | Some assignee =>
    "- Assignee: " ++ Assignee.Name assignee ++ "`<" ++
    Assignee.MailAddress assignee ++ ">`" ++ newline
  | None => "- Assignee: (unassigned)" ++ newline
  end ++
  newline ++
  "## Summary" ++ newline ++ newline ++ Issue.Summary issue ++ newline ++
  newline ++
  "## Description" ++ newline ++ newline ++
  (if negb (String.eqb (Issue.Description issue) EmptyString)
   then Issue.Description issue
   else "(no description)") ++
  newline.

(** [FormatCommentMarkdown]. *)
Definition FormatCommentMarkdown (comment : Comment.t) : string :=
  "**Comment Id:** " ++ strconv.FormatInt (Comment.ID comment) ++ newline ++
  newline ++
  "**User:** " ++
  match Comment.CreatedUser comment with
  | Some user =>
    CommentUser.Name user ++ "`<" ++ CommentUser.MailAddress user ++ ">`" ++
    newline ++ newline
  | None => "(unknown)" ++ newline ++ newline
  end ++
  "**Datetime:** " ++ Comment.Created comment ++ newline ++ newline ++
  "**Content:**" ++ newline ++
  (if negb (String.eqb (Comment.Content comment) EmptyString)
   then Comment.Content comment
   else "(no content)") ++
  newline.

(** The loop of [FormatCommentsMarkdown] from the index [i] on, over the
    comments that are left; [n] is [len(comments)]. *)
Fixpoint FormatCommentsMarkdown_loop (n i : Z) (comments : list Comment.t)
    : string :=
  match comments with
  | [] => EmptyString
  | comment :: rest =>
    FormatCommentMarkdown comment ++
    (if i <? n - 1 then newline ++ "---" ++ newline ++ newline
     else EmptyString) ++
    FormatCommentsMarkdown_loop n (i + 1) rest
  end.

(** [FormatCommentsMarkdown]. *)
Definition FormatCommentsMarkdown (comments : list Comment.t) : string :=
  FormatCommentsMarkdown_loop (Z.of_nat (List.length comments)) 0 comments.

(** [FormatProjectStatusesMarkdown]. *)
Definition FormatProjectStatusesMarkdown (statuses : list ProjectStatus.t)
    : string :=
  "## Status" ++ newline ++
  fold_right
    (fun status rest =>
       "- " ++ ProjectStatus.Name status ++ " (id: " ++
       strconv.FormatInt (ProjectStatus.ID status) ++ ")" ++ newline ++ rest)
    EmptyString statuses.

End format.

(** ** Package [main]: the arguments of the commands *)

Module issue.

Module ViewOptions.

(** [issue.ViewOptions]. *)
Record t : Type := {
  Raw : bool
}.

End ViewOptions.

End issue.

Module comment.

Module ViewOptions.

(** [comment.ViewOptions]. *)
Record t : Type := {
  Raw : bool
}.

End ViewOptions.

Module AddOptions.

(** [comment.AddOptions]. *)
Record t : Type := {
  Raw : bool;
  Yes : bool
}.

End AddOptions.

End comment.

Module main.

(** How a handler ends once it has read its arguments: it calls the
    command, or it prints the usage and returns, or it writes a message to
    the standard error, prints the usage and exits with status 1. *)
Inductive handled (A : Type) : Type :=
  | Invoke (call : A)
  | ShowUsage
  | Refuse (message : string).
Arguments Invoke {A} call.
Arguments ShowUsage {A}.
Arguments Refuse {A} message.

(** The loop of [handleIssueView] over the arguments that are left, and
    the check that follows it. *)
Fixpoint handleIssueView_loop (args : list string) (opts : issue.ViewOptions.t)
    (issueKey : string) : handled (string * issue.ViewOptions.t) :=
  match args with
  | [] =>
    if String.eqb issueKey EmptyString then
      Refuse ("Error: issue key is required" ++ newline)
    else Invoke (issueKey, opts)
  | arg :: rest =>
    if String.eqb arg "--raw" then
      handleIssueView_loop rest {| issue.ViewOptions.Raw := true |} issueKey
    else if String.eqb arg "-h" || String.eqb arg "--help" then ShowUsage
    else if String.eqb issueKey EmptyString then
      handleIssueView_loop rest opts arg
    else Refuse ("Error: unexpected argument: " ++ arg ++ newline)
  end.

(** [handleIssueView] up to the call of [issue.View]; [args] is
    [os.Args[3:]]. *)
Definition handleIssueView (args : list string)
    : handled (string * issue.ViewOptions.t) :=
  match args with
  | [] => Refuse ("Error: issue key is required" ++ newline)
  | _ :: _ =>
    handleIssueView_loop args {| issue.ViewOptions.Raw := false |} EmptyString
  end.

(** The two commands that [handleCommentView] calls. *)
Inductive comment_view : Type :=
  | View (issueKey commentID : string) (opts : comment.ViewOptions.t)
  | ViewList (issueKey : string) (opts : comment.ViewOptions.t).

(** The loop of [handleCommentView], the check that follows it and the
    choice of the command. *)
Fixpoint handleCommentView_loop (args : list string)
    (opts : comment.ViewOptions.t) (issueKey commentID : string)
    : handled comment_view :=
  match args with
  | [] =>
    if String.eqb issueKey EmptyString then
      Refuse ("Error: issue key is required" ++ newline)
    else if negb (String.eqb commentID EmptyString) then
      Invoke (View issueKey commentID opts)
    else Invoke (ViewList issueKey opts)
  | arg :: rest =>
    if String.eqb arg "--raw" then
      handleCommentView_loop rest {| comment.ViewOptions.Raw := true |}
        issueKey commentID
    else if String.eqb arg "-h" || String.eqb arg "--help" then ShowUsage
    else if String.eqb issueKey EmptyString then
      handleCommentView_loop rest opts arg commentID
    else if String.eqb commentID EmptyString then
      handleCommentView_loop rest opts issueKey arg
    else Refuse ("Error: unexpected argument: " ++ arg ++ newline)
  end.

(** [handleCommentView] up to the call of the command. *)
Definition handleCommentView (args : list string) : handled comment_view :=
  match args with
  | [] => Refuse ("Error: issue key is required" ++ newline)
  | _ :: _ =>
    handleCommentView_loop args {| comment.ViewOptions.Raw := false |}
      EmptyString EmptyString
  end.

(** The loop of [handleCommentAdd] and the check that follows it. *)
Fixpoint handleCommentAdd_loop (args : list string)
    (opts : comment.AddOptions.t) (issueKey message : string)
    : handled (string * string * comment.AddOptions.t) :=
  match args with
  | [] =>
    if String.eqb issueKey EmptyString then
      Refuse ("Error: issue key is required" ++ newline)
    else Invoke (issueKey, message, opts)
  | arg :: rest =>
    if String.eqb arg "--raw" then
      handleCommentAdd_loop rest
        {| comment.AddOptions.Raw := true;
           comment.AddOptions.Yes := comment.AddOptions.Yes opts |}
        issueKey message
    else if String.eqb arg "--yes" || String.eqb arg "-y" then
      handleCommentAdd_loop rest
        {| comment.AddOptions.Raw := comment.AddOptions.Raw opts;
           comment.AddOptions.Yes := true |}
        issueKey message
    else if String.eqb arg "-h" || String.eqb arg "--help" then ShowUsage
    else if String.eqb issueKey EmptyString then
      handleCommentAdd_loop rest opts arg message
    else if String.eqb message EmptyString then
      handleCommentAdd_loop rest opts issueKey arg
    else Refuse ("Error: unexpected argument: " ++ arg ++ newline)
  end.

(** [handleCommentAdd] up to the call of [comment.Add]. *)
Definition handleCommentAdd (args : list string)
    : handled (string * string * comment.AddOptions.t) :=
  match args with
  | [] => Refuse ("Error: issue key is required" ++ newline)
  | _ :: _ =>
    handleCommentAdd_loop args
      {| comment.AddOptions.Raw := false; comment.AddOptions.Yes := false |}
      EmptyString EmptyString
  end.

End main.

(** ** Package [auth] as it was before the terminal programs *)

Module legacy.

(** What happens while [Login] waits in its [select]: a request reaches
    the callback handler, or [server.Serve] returns an error.  The timer
    fires in the end, which is the empty list. *)
Inductive event : Type :=
  | Callback (query : list (string * string))
  | ServeError (e : error).

(** The [select] of [Login]: the first value sent on [codeChan] or on
    [errChan], or the timeout.  The handler is the one of the current
    code, with the two channels in place of [resultChan]. *)
Definition wait (state : string) (events : list event) (st : State)
    : auth.authResult * State :=
  match events with
  | [] =>
    ({| auth.code := EmptyString;
        auth.err := Some (Errorf "authentication timeout" []) |}, st)
  | ServeError e :: _ =>
    ({| auth.code := EmptyString; auth.err := Some e |}, st)
  | Callback query :: _ =>
    let '(r, answer) := auth.callback_handler state query in
    (r, add_browser answer st)
  end.

(** [Login(space)].  [random] is what [rand.Read] gives.  Each branch of
    the [select] and the code after it call [server.Shutdown], which
    closes the listener before it returns. *)
Definition Login (E : Env) (space : string) (random : result string)
    (events : list event) (st : State) : option error * State :=
  match auth.ValidateSpace space with
  | Some e => (Some e, st)
  | None =>
    if String.eqb (ClientID E) EmptyString ||
       String.eqb (ClientSecret E) EmptyString then
      (Some (Errorf "ClientID and ClientSecret are not set. Please build with proper ldflags" []), st)
    else
      let baseURL := auth.getBacklogBaseURL space in
      let redirectURI :=
        "http://localhost:" ++ strconv.FormatInt auth.callbackPort in
      match auth.generateState random with
      | Err e => (Some (Errorf "failed to generate state: %w" [ArgErr e]), st)
      | Ok state =>
        (* net.Listen *)
        if port_bound st then
          (Some (Errorf "failed to start callback server: %w"
                        [ArgErr (PathError "listen" "tcp" EADDRINUSE)]), st)
        else
          let st1 := set_port_bound true st in
          let '(r, st2) := wait state events st1 in
          (* server.Shutdown *)
          let st3 := set_port_bound false st2 in
          match auth.err r with
          | Some e => (Some e, st3)
          | None =>
            match auth.exchangeCode E baseURL (auth.code r) redirectURI st3 with
            | (Err e, st4) =>
              (Some (Errorf "failed to exchange code: %w" [ArgErr e]), st4)
            | (Ok token, st4) =>
              match config.Load E st4 with
              | Err e =>
                (Some (Errorf "failed to load config: %w" [ArgErr e]), st4)
              | Ok cfg =>
                let cfg' :=
                  {| config.Space := space;
                     config.AccessToken := TokenResponse.AccessToken token;
                     config.RefreshToken := TokenResponse.RefreshToken token;
                     config.ExpiresAt := config.ExpiresAt cfg |} in
                match config.Save E cfg' st4 with
                | (Some e, st5) =>
                  (Some (Errorf "failed to save config: %w" [ArgErr e]), st5)
                | (None, st5) => (None, st5)
                end
              end
            end
          end
      end
  end.

End legacy.

(** ** Concrete worlds

    The environments, states and scenarios at which the properties below
    are instantiated. *)

Definition quoted (s : string) : string := dquote ++ s ++ dquote.

(** A token response as the token endpoint writes it. *)
Definition token_body (access refresh : string) (expires_in : Z) : string :=
  "{" ++ quoted "access_token" ++ ":" ++ quoted access ++ "," ++
  quoted "token_type" ++ ":" ++ quoted "Bearer" ++ "," ++
  quoted "expires_in" ++ ":" ++ strconv.FormatInt expires_in ++ "," ++
  quoted "refresh_token" ++ ":" ++ quoted refresh ++ "}".

Definition response (code : Z) (challenge body : string) : Response :=
  {| StatusCode := code; WWW_Authenticate := challenge; Body := Ok body |}.

(** The answer of the API to a request with an expired access token. *)
Definition expired_response : Response :=
  response 401
    ("Bearer error=" ++ quoted "invalid_token" ++ ", error_description=" ++
     quoted "The access token expired")
    EmptyString.

Definition always_expired (_ : nat) (_ : Request) : result Response :=
  Ok expired_response.

(** A token endpoint that always grants the same pair of tokens. *)
Definition granting (expires_in : Z) (_ : nat) (_ : string)
    (_ : list (string * string)) : result Response :=
  Ok (response 200 EmptyString (token_body "access-2" "refresh-2" expires_in)).

(** A token endpoint that always answers with the status [code]. *)
Definition rejecting (code : Z) (_ : nat) (_ : string)
    (_ : list (string * string)) : result Response :=
  Ok (response code EmptyString EmptyString).

Definition env_with (api : nat -> Request -> result Response)
    (token : nat -> string -> list (string * string) -> result Response) : Env :=
  {| XDG_CONFIG_HOME := EmptyString; HOME := "/home/user";
     ClientID := "client"; ClientSecret := "secret";
     deny_read := ∅; deny_write := ∅; write_limit := ∅;
     now := 1700000000000;
     api_server := api; token_server := token;
     new_request_error := fun _ _ => None |}.

Definition demo_path : string := "/home/user/.config/bgl/config.json".

Definition state_with (f : gmap string string) : State :=
  {| files := f; port_bound := false; shutdown_signalled := false;
     browser := []; api_calls := 0; token_posts := 0; refresh_calls := 0;
     config_writes := 0 |}.

(** No file at all. *)
Definition empty_state : State := state_with ∅.

Definition credential (access refresh : string) (expires_at : Z)
    : config.Config :=
  {| config.Space := "demo.backlog.com"; config.AccessToken := access;
     config.RefreshToken := refresh; config.ExpiresAt := expires_at |}.

(** A state whose config file holds the credential [c]. *)
Definition stored (c : config.Config) : State :=
  state_with {[ demo_path := config.MarshalIndent c ]}.

(** A login in which the user types the space and confirms, and the
    events [events] happen during the wait. *)
Definition scenario (events : list auth.wait_event) (before_return : bool)
    : auth.Scenario :=
  {| auth.textinput_Update :=
       fun v msg => match msg with auth.KeyMsg k => v ++ k | _ => v end;
     auth.input_msgs := [auth.KeyMsg "demo.backlog.com"; auth.KeyMsg "enter"];
     auth.random := Ok "0123456789abcdef";
     auth.wait_events := events;
     auth.shutdown_before_return := before_return |}.

(** The keys of a user who confirms too early, completes the space and
    confirms again, and the model that the input program ends with. *)
Definition demo_keys : list auth.Msg :=
  [auth.KeyMsg "demo"; auth.KeyMsg "enter"; auth.KeyMsg ".backlog.com";
   auth.KeyMsg "enter"].

Definition demo_model : auth.inputModel :=
  {| auth.value := "demo.backlog.com"; auth.input_err := None;
     auth.done := true; auth.cancelled := false |}.

(** The nonce of these scenarios. *)
Definition demo_nonce : string := "30313233343536373839616263646566".

(** ** Notions of the specification *)

(** [s] ends in [suffix]. *)
Definition ends_in (s suffix : string) : Prop :=
  exists p : string, s = p ++ suffix.


(** The model of a terminal program after the messages [msgs], when the
    program is still running after them: none of them is a [QuitMsg] and no
    [Update] returned [tea.Quit]. *)
Fixpoint running_after {M : Type} (update : auth.Msg -> M -> M * bool)
    (msgs : list auth.Msg) (m : M) : option M :=
  match msgs with
  | [] => Some m
  | auth.QuitMsg :: _ => None
  | msg :: rest =>
    let '(m', quit) := update msg m in
    if quit then None else running_after update rest m'
  end.

(** [Login] gets as far as binding the listener: the user confirmed the
    space [space], the client credentials are set, the nonce [state] was
    generated and the callback port is free. *)
Definition binds_listener (E : Env) (sc : auth.Scenario) (st : State)
    (space state : string) : Prop :=
  (exists m,
     auth.Run (auth.inputModel_Update (auth.textinput_Update sc))
              (auth.input_msgs sc) auth.newInputModel = Ok m /\
     auth.cancelled m = false /\ auth.value m = space) /\
  ClientID E <> EmptyString /\
  ClientSecret E <> EmptyString /\
  auth.generateState (auth.random sc) = Ok state /\
  port_bound st = false.

(** The next [n] refreshes made by [doRequest] from the state [st]
    succeed: each time, after the API call, [RefreshToken] returns no error
    and the credential can be loaded again. *)
Inductive refreshes_succeed (E : Env) : nat -> State -> Prop :=
  | refreshes_none (st : State) : refreshes_succeed E O st
  | refreshes_next (n : nat) (st st' : State) (c : config.Config) :
      auth.RefreshToken E (count_api_call st) = (None, st') ->
      config.Load E st' = Ok c ->
      refreshes_succeed E n st' ->
      refreshes_succeed E (S n) st.

(** The server answers every API call with status 401 and a challenge
    that says the access token expired. *)
Definition always_answers_expired (E : Env) : Prop :=
  forall n req, exists resp body,
    api_server E n req = Ok resp /\
    StatusCode resp = 401 /\
    strings.Contains (WWW_Authenticate resp) "The access token expired" = true /\
    Body resp = Ok body.

(** ** Auxiliary definitions *)

(** The value of the byte of [s] at index [i], and [-1] past the end. *)
Definition byte_at (s : string) (i : nat) : Z :=
  match drop i s with
  | String c _ => byte_val c
  | EmptyString => -1
  end.

(** [DecodeRune] as a function of the values of the first four bytes, a
    missing byte being [-1], which no range accepts. *)
Definition decode4 (b0 b1 b2 b3 : Z) : Z * nat :=
  let x := utf8.first b0 in
  if utf8.as_ <=? x then ((if x =? utf8.xx then utf8.RuneError else b0), 1%nat)
  else
    let sz := Z.land x 7 in
    let accept := utf8.acceptRanges (Z.shiftr x 4) in
    if (b1 <? fst accept) || (snd accept <? b1) then (utf8.RuneError, 1%nat)
    else if sz <=? 2 then
      (Z.lor (Z.shiftl (Z.land b0 utf8.mask2) 6) (Z.land b1 utf8.maskx), 2%nat)
    else if (b2 <? utf8.locb) || (utf8.hicb <? b2) then (utf8.RuneError, 1%nat)
    else if sz <=? 3 then
      (Z.lor (Z.lor (Z.shiftl (Z.land b0 utf8.mask3) 12)
                    (Z.shiftl (Z.land b1 utf8.maskx) 6))
             (Z.land b2 utf8.maskx), 3%nat)
    else if (b3 <? utf8.locb) || (utf8.hicb <? b3) then (utf8.RuneError, 1%nat)
    else
      (Z.lor (Z.lor (Z.lor (Z.shiftl (Z.land b0 utf8.mask4) 18)
                           (Z.shiftl (Z.land b1 utf8.maskx) 12))
                    (Z.shiftl (Z.land b2 utf8.maskx) 6))
             (Z.land b3 utf8.maskx), 4%nat).

(** The bounds of the second byte after the first byte [b0] of an
    encoding of three or of four bytes. *)
Definition second_lo (b0 : Z) : Z :=
  if b0 =? 0xE0 then 0xA0 else if b0 =? 0xF0 then 0x90 else 0x80.

Definition second_hi (b0 : Z) : Z :=
  if b0 =? 0xED then 0x9F else if b0 =? 0xF4 then 0x8F else 0xBF.

(** A rune that [EncodeRune] encodes as itself: a Unicode scalar value. *)
Definition scalar (r : Z) : Prop :=
  0 <= r <= utf8.MaxRune /\ ~ (utf8.surrogateMin <= r <= utf8.surrogateMax).

(** A string that the coercion to well-formed UTF-8 leaves as it is. *)
Definition well_formed (s : string) : Prop := utf8.ToValid s = s.

(** A two-byte escape: the backslash and the byte [e] stand for the byte
    [x]. *)
Definition short_escape (e x : Z) : Prop :=
  (e = 34 /\ x = 34) \/ (e = 92 /\ x = 92) \/ (e = 47 /\ x = 47) \/
  (e = 98 /\ x = 8) \/ (e = 102 /\ x = 12) \/ (e = 110 /\ x = 10) \/
  (e = 114 /\ x = 13) \/ (e = 116 /\ x = 9).

(** Every byte of [s] is a decimal digit. *)
Fixpoint all_digits (s : string) : bool :=
  match s with
  | EmptyString => true
  | String c s' => strconv.is_digit c && all_digits s'
  end.

(** The first byte of [s] is a digit from 1 to 9. *)
Definition leading_nonzero (s : string) : Prop :=
  match s with
  | String c _ => 49 <= byte_val c <= 57
  | EmptyString => False
  end.

(** [rest] cannot continue a number literal. *)
Definition ends_number (rest : string) : Prop :=
  match rest with
  | EmptyString => True
  | String x _ =>
    strconv.is_digit x = false /\ byte_val x <> 46 /\ byte_val x <> 101 /\
    byte_val x <> 69
  end.

(** A value of type [int64]. *)
Definition int64 (z : Z) : Prop := - 2 ^ 63 <= z < 2 ^ 63.

(** What [encoding/json] makes of a credential when it writes it: the
    strings coerced to well-formed UTF-8. *)
Definition coerce (c : config.Config) : config.Config :=
  {| config.Space := utf8.ToValid (config.Space c);
     config.AccessToken := utf8.ToValid (config.AccessToken c);
     config.RefreshToken := utf8.ToValid (config.RefreshToken c);
     config.ExpiresAt := config.ExpiresAt c |}.

(** A valid credential: its strings are valid UTF-8, as [utf8.ValidString]
    tells, and its expiry is a value of type [int64]. *)
Definition valid_credential (c : config.Config) : Prop :=
  utf8.ValidString (config.Space c) = true /\
  utf8.ValidString (config.AccessToken c) = true /\
  utf8.ValidString (config.RefreshToken c) = true /\
  int64 (config.ExpiresAt c).

(** [V] does not start with white space, whatever follows it. *)
Definition skip_space_id (V : string) : Prop :=
  forall rest, json.skip_space (V ++ rest) = V ++ rest.

(** A scanned value whose string, if it is one, is well-formed UTF-8. *)
Definition good_value (v : json.value) : Prop :=
  match v with
  | json.Str t => well_formed t
  | _ => True
  end.

(** A credential that a [Save] followed by a [Load] gives back as it is. *)
Definition stable (c : config.Config) : Prop :=
  well_formed (config.Space c) /\
  well_formed (config.AccessToken c) /\
  well_formed (config.RefreshToken c) /\
  int64 (config.ExpiresAt c).

(** The config directory can be created and the config file written, in
    full. *)
Definition writable (E : Env) : Prop :=
  exists configDir configPath,
    config.GetConfigDir E = Ok configDir /\ (configDir ∉ deny_write E) /\
    config.GetConfigPath E = Ok configPath /\ (configPath ∉ deny_write E) /\
    write_limit E !! configPath = None.

(** The credential that [Login] and [RefreshToken] store: the space
    [space], the two tokens of the token response, and the expiry of the
    credential [old] that was stored before. *)
Definition granted (space : string) (token : TokenResponse.t)
    (old : config.Config) : config.Config :=
  {| config.Space := space;
     config.AccessToken := TokenResponse.AccessToken token;
     config.RefreshToken := TokenResponse.RefreshToken token;
     config.ExpiresAt := config.ExpiresAt old |}.

(** A byte that [url.QueryEscape] may write: a letter, a digit, one of
    the marks [-], [_], [.] and [~], the [+] that stands for a space, or
    the [%] that starts an escape. *)
Definition query_byte (c : ascii) : bool :=
  negb (url.shouldEscape (byte_val c)) ||
  (byte_val c =? 43) || (byte_val c =? 37).

(** Every byte of [s] satisfies [p]. *)
Fixpoint all_bytes (p : ascii -> bool) (s : string) : bool :=
  match s with
  | EmptyString => true
  | String c s' => p c && all_bytes p s'
  end.

(** A digit or a letter from [a] to [f]. *)
Definition lower_hex (c : ascii) : bool :=
  ((48 <=? byte_val c) && (byte_val c <=? 57)) ||
  ((97 <=? byte_val c) && (byte_val c <=? 102)).

(** The arguments other than [--raw], in their order. *)
Definition positional (args : list string) : list string :=
  List.filter (fun arg => negb (String.eqb arg "--raw")) args.

(** No argument asks for the help. *)
Definition no_help (args : list string) : Prop :=
  ~ In "-h" args /\ ~ In "--help" args.

(** An argument that asks to skip the confirmation. *)
Definition is_yes (arg : string) : bool :=
  String.eqb arg "--yes" || String.eqb arg "-y".

(** The arguments other than [--raw], [--yes] and [-y], in their order. *)
Definition operands (args : list string) : list string :=
  List.filter (fun arg => negb (String.eqb arg "--raw" || is_yes arg)) args.

(** The list that holds [s] when it is not empty, and nothing otherwise. *)
Definition optional (s : string) : list string :=
  if String.eqb s EmptyString then [] else [s].

(** * Properties *)

#[local] Arguments String.append !_ _ : simpl nomatch.

(** ** Strings *)

Lemma substring_0_length (s : string) : substring 0 (String.length s) s = s.
Proof. induction s as [|c s IH]; simpl; [reflexivity | now rewrite IH]. Qed.

Lemma substring_app_length (p t : string) (n : nat) :
  substring (String.length p) n (p ++ t) = substring 0 n t.
Proof. induction p as [|c p IH]; simpl; [reflexivity | exact IH]. Qed.

Lemma length_app (p t : string) :
  String.length (p ++ t) = (String.length p + String.length t)%nat.
Proof. induction p as [|c p IH]; simpl; [reflexivity | now rewrite IH]. Qed.

Lemma substring_split (s : string) (k : nat) :
  (k <= String.length s)%nat ->
  s = substring 0 k s ++ substring k (String.length s - k) s.
Proof.
  revert k. induction s as [|c s IH]; intros k Hk; simpl in *.
  - destruct k; [reflexivity | lia].
  - destruct k as [|k]; simpl.
    + now rewrite substring_0_length.
    + f_equal. apply IH. lia.
Qed.

Lemma HasSuffix_ends_in (s suffix : string) :
  strings.HasSuffix s suffix = true <-> ends_in s suffix.
Proof.
  unfold strings.HasSuffix, ends_in. split.
  - intros H. apply andb_true_iff in H as [Hlen Heq].
    apply Nat.leb_le in Hlen. apply String.eqb_eq in Heq.
    exists (substring 0 (String.length s - String.length suffix) s).
    pose proof (substring_split s (String.length s - String.length suffix)) as Hs.
    replace (String.length s - (String.length s - String.length suffix))%nat
      with (String.length suffix) in Hs by lia.
    rewrite Heq in Hs. apply Hs. lia.
  - intros [p ->]. rewrite length_app. apply andb_true_iff. split.
    + apply Nat.leb_le. lia.
    + replace (String.length p + String.length suffix - String.length suffix)%nat
        with (String.length p) by lia.
      rewrite substring_app_length, substring_0_length.
      apply String.eqb_refl.
Qed.

(** C7. [ValidateSpace] succeeds on every string that ends in
    [.backlog.com] or in [.backlog.jp], and fails with the invalid space
    format error on every other string. *)
Theorem ValidateSpace_suffixes (space : string) :
  (ends_in space ".backlog.com" \/ ends_in space ".backlog.jp" ->
   auth.ValidateSpace space = None) /\
  (~ (ends_in space ".backlog.com" \/ ends_in space ".backlog.jp") ->
   auth.ValidateSpace space =
   Some (Errorf "invalid space format: must be <your-space-key>.backlog.com or <your-space-key>.backlog.jp" [])).
Proof.
  unfold auth.ValidateSpace.
  destruct (strings.HasSuffix space ".backlog.com") eqn:Hcom;
    destruct (strings.HasSuffix space ".backlog.jp") eqn:Hjp; simpl;
    split; intros H; try reflexivity.
  - exfalso. apply H. left. now apply HasSuffix_ends_in.
  - exfalso. apply H. left. now apply HasSuffix_ends_in.
  - exfalso. apply H. right. now apply HasSuffix_ends_in.
  - exfalso. destruct H as [H | H]; apply HasSuffix_ends_in in H; congruence.
Qed.

(** ** The credential file *)

Lemma Load_files (E : Env) (st st' : State) :
  files st' = files st -> config.Load E st' = config.Load E st.
Proof.
  intros H. unfold config.Load, os.ReadFile. now rewrite H.
Qed.

(** C9. When the config path is known and no file exists at it, [Load]
    returns the zero [Config] and no error. *)
Theorem Load_no_file (E : Env) (st : State) (configPath : string) :
  config.GetConfigPath E = Ok configPath ->
  configPath ∉ deny_read E ->
  files st !! configPath = None ->
  config.Load E st = Ok config.zero.
Proof.
  intros Hpath Hread Hnone. unfold config.Load, os.ReadFile.
  rewrite Hpath. destruct (decide (configPath ∈ deny_read E)) as [Hin|_].
  - contradiction.
  - now rewrite Hnone.
Qed.

Lemma Load_no_file_witness :
  config.Load (env_with always_expired (granting 3600)) empty_state
  = Ok config.zero.
Proof.
  apply (Load_no_file _ _ demo_path).
  - reflexivity.
  - vm_compute. set_solver.
  - reflexivity.
Defined.

(** ** Effects of the operations on the state *)

(** What [Save] leaves alone, and that a [Save] that fails before the
    write changes nothing. *)
Lemma Save_frame (E : Env) (c : config.Config) (st st' : State) (r : option error) :
  config.Save E c st = (r, st') ->
  port_bound st' = port_bound st /\
  shutdown_signalled st' = shutdown_signalled st /\
  browser st' = browser st /\
  api_calls st' = api_calls st /\
  token_posts st' = token_posts st /\
  refresh_calls st' = refresh_calls st /\
  (forall e, r = Some e ->
             (forall name no, e <> PathError "write" name no) -> st' = st).
Proof.
  unfold config.Save, os.WriteFile. intros H.
  destruct (config.GetConfigDir E) as [dir|e1]; [|inversion H; subst; tauto].
  destruct (os.MkdirAll E dir) as [e2|]; [inversion H; subst; tauto|].
  destruct (config.GetConfigPath E) as [path|e3]; [|inversion H; subst; tauto].
  destruct (decide (path ∈ deny_write E)); [inversion H; subst; tauto|].
  destruct (write_limit E !! path) as [k|];
    [destruct (k <? String.length (config.MarshalIndent c))%nat|];
    inversion H; subst; simpl; repeat split; intros e He; try discriminate He.
  injection He as <-. intros Hne. now elim (Hne path ENOSPC).
Qed.

(** A successful [Save] writes the encoding of the credential at the
    config path, once. *)
Lemma Save_ok (E : Env) (c : config.Config) (st st' : State) :
  config.Save E c st = (None, st') ->
  exists configPath,
    config.GetConfigPath E = Ok configPath /\
    files st' = <[configPath := config.MarshalIndent c]> (files st) /\
    config_writes st' = S (config_writes st).
Proof.
  unfold config.Save, os.WriteFile. intros H.
  destruct (config.GetConfigDir E) as [dir|e1]; [|discriminate H].
  destruct (os.MkdirAll E dir) as [e2|]; [discriminate H|].
  destruct (config.GetConfigPath E) as [path|e3]; [|discriminate H].
  destruct (decide (path ∈ deny_write E)); [discriminate H|].
  destruct (write_limit E !! path) as [k|];
    [destruct (k <? String.length (config.MarshalIndent c))%nat|];
    inversion H; subst; simpl; exists path; auto.
Qed.


(** Every call of [RefreshToken] is counted, whatever its result. *)
Lemma RefreshToken_counted (E : Env) (st : State) :
  refresh_calls (snd (auth.RefreshToken E st)) = S (refresh_calls st).
Proof.
  unfold auth.RefreshToken, http.PostForm.
  destruct (config.Load E (count_refresh_call st)) as [c|e]; [|reflexivity].
  destruct (String.eqb (config.RefreshToken c) EmptyString); [reflexivity|].
  destruct (token_server E _ _ _) as [resp|e]; [|reflexivity].
  destruct (negb (StatusCode resp =? http.StatusOK)); [reflexivity|].
  destruct (TokenResponse.Decode (Body resp)) as [tok|e]; [|reflexivity].
  match goal with |- context [config.Save E ?c ?s] =>
    destruct (config.Save E c s) as [r st'] eqn:Hs end.
  apply Save_frame in Hs as (_ & _ & _ & _ & _ & Hr & _).
  destruct r; simpl; rewrite Hr; reflexivity.
Qed.

(** ** Construction of the client *)

(** C5. For a loaded credential: with an empty access token [NewClient]
    fails with the not-logged-in error and touches nothing; with a non-empty
    access token and an expiry that is set and not after the current time
    it calls [RefreshToken], and fails with the refresh error wrapped when
    that call fails; with an expiry of zero it makes no refresh and returns
    the client with the loaded credential. *)
Theorem NewClient_construction (E : Env) (st : State) (c : config.Config) :
  config.Load E st = Ok c ->
  (config.AccessToken c = EmptyString ->
   backlog.NewClient E st =
   (Err (Errorf "not logged in. Please run 'bgl auth login' first" []), st)) /\
  (config.AccessToken c <> EmptyString ->
   0 < config.ExpiresAt c <= now E ->
   refresh_calls (snd (backlog.NewClient E st)) = S (refresh_calls st) /\
   forall e st1,
     auth.RefreshToken E st = (Some e, st1) ->
     backlog.NewClient E st =
     (Err (Errorf "failed to refresh token: %w" [ArgErr e]), st1)) /\
  (config.AccessToken c <> EmptyString ->
   config.ExpiresAt c = 0 ->
   backlog.NewClient E st = (Ok {| backlog.cfg := c |}, st)).
Proof.
  intros HL. unfold backlog.NewClient. rewrite HL.
  split; [|split].
  - intros ->. reflexivity.
  - intros Hne [Hpos Hle].
    apply String.eqb_neq in Hne. rewrite Hne.
    replace (config.ExpiresAt c >? 0) with true by (symmetry; apply Z.gtb_lt; lia).
    replace (now E >=? config.ExpiresAt c) with true by (symmetry; apply Z.geb_le; lia).
    simpl. split.
    + pose proof (RefreshToken_counted E st) as Hc.
      destruct (auth.RefreshToken E st) as [[e|] st1]; simpl in *.
      * exact Hc.
      * destruct (config.Load E st1); exact Hc.
    + intros e st1 ->. reflexivity.
  - intros Hne Hz. apply String.eqb_neq in Hne. rewrite Hne, Hz. reflexivity.
Qed.

Lemma NewClient_construction_witness :
  backlog.NewClient (env_with always_expired (rejecting 500))
                    (stored (credential "access-1" "refresh-1" 1))
  = (Err (Errorf "failed to refresh token: %w"
                 [ArgErr (Errorf "token refresh failed with status: %d" [ArgInt 500])]),
     count_token_post
       (count_refresh_call (stored (credential "access-1" "refresh-1" 1)))).
Proof.
  destruct (NewClient_construction
              (env_with always_expired (rejecting 500))
              (stored (credential "access-1" "refresh-1" 1))
              (credential "access-1" "refresh-1" 1))
    as (_ & H & _).
  - vm_compute. reflexivity.
  - apply H.
    + discriminate.
    + simpl. lia.
    + vm_compute. reflexivity.
Defined.

(** ** Token refresh *)

(** The form that [RefreshToken] posts for the credential [c]. *)
Lemma RefreshToken_unfold (E : Env) (st : State) (c : config.Config) :
  config.Load E st = Ok c ->
  config.RefreshToken c <> EmptyString ->
  auth.RefreshToken E st =
  match token_server E (token_posts st)
          (auth.getBacklogBaseURL (config.Space c) ++ "/api/v2/oauth2/token")
          [("grant_type", "refresh_token"); ("client_id", ClientID E);
           ("client_secret", ClientSecret E);
           ("refresh_token", config.RefreshToken c)] with
  | Err e => (Some e, count_token_post (count_refresh_call st))
  | Ok resp =>
    if negb (StatusCode resp =? http.StatusOK) then
      (Some (Errorf "token refresh failed with status: %d"
                    [ArgInt (StatusCode resp)]),
       count_token_post (count_refresh_call st))
    else
      match TokenResponse.Decode (Body resp) with
      | Err e => (Some e, count_token_post (count_refresh_call st))
      | Ok token =>
        match config.Save E
                {| config.Space := config.Space c;
                   config.AccessToken := TokenResponse.AccessToken token;
                   config.RefreshToken := TokenResponse.RefreshToken token;
                   config.ExpiresAt := config.ExpiresAt c |}
                (count_token_post (count_refresh_call st)) with
        | (Some e, st2) =>
          (Some (Errorf "failed to save config: %w" [ArgErr e]), st2)
        | (None, st2) => (None, st2)
        end
      end
  end.
Proof.
  intros HL Hne. unfold auth.RefreshToken, http.PostForm.
  rewrite (Load_files E st (count_refresh_call st)) by reflexivity.
  rewrite HL. apply String.eqb_neq in Hne. rewrite Hne. simpl.
  destruct (token_server E _ _ _) as [resp|e]; reflexivity.
Qed.

(** C6. For a stored credential with a non-empty refresh token, when the
    token endpoint answers the POST with a status other than 200,
    [RefreshToken] returns the rejection error that carries this status and
    writes nothing: the files are as before, no config write is counted,
    and [Load] still returns the same credential. *)
Theorem RefreshToken_rejected (E : Env) (st : State) (c : config.Config)
    (resp : Response) :
  config.Load E st = Ok c ->
  config.RefreshToken c <> EmptyString ->
  token_server E (token_posts st)
    (auth.getBacklogBaseURL (config.Space c) ++ "/api/v2/oauth2/token")
    [("grant_type", "refresh_token"); ("client_id", ClientID E);
     ("client_secret", ClientSecret E);
     ("refresh_token", config.RefreshToken c)] = Ok resp ->
  StatusCode resp <> 200 ->
  fst (auth.RefreshToken E st) =
    Some (Errorf "token refresh failed with status: %d" [ArgInt (StatusCode resp)]) /\
  files (snd (auth.RefreshToken E st)) = files st /\
  config_writes (snd (auth.RefreshToken E st)) = config_writes st /\
  token_posts (snd (auth.RefreshToken E st)) = S (token_posts st) /\
  config.Load E (snd (auth.RefreshToken E st)) = Ok c.
Proof.
  intros HL Hne Hresp Hstatus.
  rewrite (RefreshToken_unfold E st c HL Hne), Hresp.
  replace (StatusCode resp =? http.StatusOK) with false
    by (symmetry; apply Z.eqb_neq; exact Hstatus).
  simpl. repeat split. rewrite <- HL. now apply Load_files.
Qed.

Lemma RefreshToken_rejected_witness :
  fst (auth.RefreshToken (env_with always_expired (rejecting 500))
                         (stored (credential "access-1" "refresh-1" 0))) =
    Some (Errorf "token refresh failed with status: %d" [ArgInt 500]) /\
  config.Load (env_with always_expired (rejecting 500))
    (snd (auth.RefreshToken (env_with always_expired (rejecting 500))
                            (stored (credential "access-1" "refresh-1" 0))))
  = Ok (credential "access-1" "refresh-1" 0).
Proof.
  destruct (RefreshToken_rejected
              (env_with always_expired (rejecting 500))
              (stored (credential "access-1" "refresh-1" 0))
              (credential "access-1" "refresh-1" 0)
              (response 500 EmptyString EmptyString))
    as (H1 & _ & _ & _ & H5).
  - vm_compute. reflexivity.
  - discriminate.
  - reflexivity.
  - simpl. lia.
  - split; [exact H1 | exact H5].
Defined.

(** ** Login *)

(** [Login] once the listener is bound. *)
Lemma Login_bound (E : Env) (sc : auth.Scenario) (st : State)
    (space state : string) :
  binds_listener E sc st space state ->
  auth.Login E sc st =
  (fst (auth.Login_wait_and_store E sc space (auth.getBacklogBaseURL space)
          ("http://localhost:" ++ strconv.FormatInt auth.callbackPort) state
          (set_port_bound true st)),
   auth.deferred_shutdownCancel sc
     (snd (auth.Login_wait_and_store E sc space (auth.getBacklogBaseURL space)
             ("http://localhost:" ++ strconv.FormatInt auth.callbackPort) state
             (set_port_bound true st)))).
Proof.
  intros ((m & Hrun & Hc & Hv) & Hid & Hsec & Hst & Hport).
  unfold auth.Login. rewrite Hrun, Hc, Hv, Hst, Hport.
  apply String.eqb_neq in Hid, Hsec. rewrite Hid, Hsec. simpl.
  match goal with |- context [auth.Login_wait_and_store ?a ?b ?c ?d ?e ?f ?g] =>
    destruct (auth.Login_wait_and_store a b c d e f g) end.
  reflexivity.
Qed.




(** The wait, the token exchange and the config write leave the listener
    and the shutdown context as they are. *)
Lemma wait_frame (state : string) (events : list auth.wait_event)
    (m : auth.spinnerModel) (st : State) :
  port_bound (snd (auth.wait state events m st)) = port_bound st /\
  shutdown_signalled (snd (auth.wait state events m st)) = shutdown_signalled st.
Proof.
  revert m. induction events as [|ev events IH]; intros m; [split; reflexivity|].
  destruct ev; cbn [auth.wait]; try (split; reflexivity).
  - destruct (auth.spinnerModel_Update (auth.KeyMsg key) m) as [m' quit].
    destruct quit; [split; reflexivity | apply IH].
  - destruct (auth.spinnerModel_Update auth.TickMsg m) as [m' quit].
    destruct quit; [split; reflexivity | apply IH].
  - destruct (auth.callback_handler state query). split; reflexivity.
Qed.

Lemma exchangeCode_frame (E : Env) (baseURL code redirectURI : string)
    (st : State) :
  port_bound (snd (auth.exchangeCode E baseURL code redirectURI st)) = port_bound st /\
  shutdown_signalled (snd (auth.exchangeCode E baseURL code redirectURI st))
  = shutdown_signalled st.
Proof.
  unfold auth.exchangeCode, http.PostForm.
  destruct (token_server E _ _ _) as [resp|e]; [|split; reflexivity].
  destruct (negb (StatusCode resp =? http.StatusOK)); [split; reflexivity|].
  destruct (TokenResponse.Decode (Body resp)); split; reflexivity.
Qed.

Lemma Login_wait_and_store_frame (E : Env) (sc : auth.Scenario)
    (space baseURL redirectURI state : string) (st : State) :
  port_bound (snd (auth.Login_wait_and_store E sc space baseURL redirectURI state st))
  = port_bound st /\
  shutdown_signalled
    (snd (auth.Login_wait_and_store E sc space baseURL redirectURI state st))
  = shutdown_signalled st.
Proof.
  unfold auth.Login_wait_and_store.
  pose proof (wait_frame state (auth.wait_events sc) auth.newSpinnerModel st) as Hw.
  destruct (auth.wait state (auth.wait_events sc) auth.newSpinnerModel st)
    as [[sm|e] st1]; simpl in Hw; [|exact Hw].
  destruct (auth.sp_err sm); [exact Hw|].
  pose proof (exchangeCode_frame E baseURL (auth.sp_code sm) redirectURI st1) as Hx.
  destruct (auth.exchangeCode E baseURL (auth.sp_code sm) redirectURI st1)
    as [[token|e] st2]; simpl in Hx;
    [|destruct Hx, Hw; split; simpl; congruence].
  destruct (config.Load E st2) as [c|e];
    [|destruct Hx, Hw; split; simpl; congruence].
  match goal with |- context [config.Save E ?c ?s] =>
    destruct (config.Save E c s) as [r st3] eqn:Hs end.
  apply Save_frame in Hs as (Hp & Hsig & _).
  destruct Hx, Hw. destruct r; split; simpl; congruence.
Qed.

(** What the code does towards closing the listener.  On every exit
    path of [Login] after the listener is bound, whatever the result, the
    shutdown context is cancelled when [Login] returns, which releases the
    goroutine that calls [server.Shutdown]; the port is free once that
    goroutine has run.  [Login] does not wait for it: the port is free at
    the return exactly when the goroutine ran before it. *)
Theorem Login_signals_shutdown (E : Env) (sc : auth.Scenario) (st : State)
    (space state : string) :
  binds_listener E sc st space state ->
  shutdown_signalled (snd (auth.Login E sc st)) = true /\
  port_bound (auth.shutdown_goroutine (snd (auth.Login E sc st))) = false /\
  port_bound (snd (auth.Login E sc st)) = negb (auth.shutdown_before_return sc).
Proof.
  intros Hb. rewrite (Login_bound E sc st space state Hb). simpl.
  match goal with |- context [auth.Login_wait_and_store ?a ?b ?c ?d ?e ?f ?g] =>
    pose proof (Login_wait_and_store_frame a b c d e f g) as [Hp Hs];
    destruct (auth.Login_wait_and_store a b c d e f g) as [r st2] end.
  simpl in *.
  unfold auth.deferred_shutdownCancel, auth.shutdown_goroutine.
  destruct (auth.shutdown_before_return sc); simpl; rewrite ?Hp; auto.
Qed.

Lemma Login_signals_shutdown_witness :
  shutdown_signalled
    (snd (auth.Login (env_with always_expired (granting 3600))
            (scenario [auth.WKey "ctrl+c"] true) empty_state)) = true /\
  port_bound
    (snd (auth.Login (env_with always_expired (granting 3600))
            (scenario [auth.WKey "ctrl+c"] true) empty_state)) = false.
Proof.
  destruct (Login_signals_shutdown
              (env_with always_expired (granting 3600))
              (scenario [auth.WKey "ctrl+c"] true) empty_state
              "demo.backlog.com" demo_nonce) as (H1 & _ & H3).
  - repeat split; try discriminate.
    exists {| auth.value := "demo.backlog.com"; auth.input_err := None;
              auth.done := true; auth.cancelled := false |}.
    repeat split.
  - split; [exact H1 | exact H3].
Defined.

(** C3.  The listener is to be closed, and the callback port free again,
    before [Login] returns, on every exit path after the listener is bound;
    the comment above the deferred cancellation says so, and the earlier
    [Login] calls [server.Shutdown] itself before it goes on.  This
    [Login] misses it: it only releases a goroutine that nothing waits
    for.  The user confirms the space and then cancels the wait; [Login]
    returns the cancellation error with the shutdown context cancelled,
    and the listener is still bound at that moment, because the goroutine
    has not run yet. *)
Lemma Login_returns_with_listener_bound :
  fst (auth.Login (env_with always_expired (granting 3600))
         (scenario [auth.WKey "ctrl+c"] false) empty_state)
  = Some (Errorf "cancelled by user" []) /\
  shutdown_signalled
    (snd (auth.Login (env_with always_expired (granting 3600))
            (scenario [auth.WKey "ctrl+c"] false) empty_state)) = true /\
  port_bound
    (snd (auth.Login (env_with always_expired (granting 3600))
            (scenario [auth.WKey "ctrl+c"] false) empty_state)) = true.
Proof. repeat split; reflexivity. Qed.

(** ** Requests *)

(** [RefreshToken] makes no API call. *)
Lemma RefreshToken_api_calls (E : Env) (st : State) :
  api_calls (snd (auth.RefreshToken E st)) = api_calls st.
Proof.
  unfold auth.RefreshToken, http.PostForm.
  destruct (config.Load E (count_refresh_call st)) as [c|e]; [|reflexivity].
  destruct (String.eqb (config.RefreshToken c) EmptyString); [reflexivity|].
  destruct (token_server E _ _ _) as [resp|e]; [|reflexivity].
  destruct (negb (StatusCode resp =? http.StatusOK)); [reflexivity|].
  destruct (TokenResponse.Decode (Body resp)) as [tok|e]; [|reflexivity].
  match goal with |- context [config.Save E ?c ?s] =>
    destruct (config.Save E c s) as [r st'] eqn:Hs end.
  apply Save_frame in Hs as (_ & _ & _ & Ha & _).
  destruct r; simpl; rewrite Ha; reflexivity.
Qed.

(** C1, as the code has it.  [doRequest] has no cap on its retries.
    Against a server that answers every attempt with 401 and the expired
    challenge, and as long as the refreshes succeed, each attempt is
    followed by a refresh and by a further attempt: a call that has gone [n]
    attempts deep has made [n] HTTP calls and [n] refreshes and has not
    returned. *)
Theorem doRequest_retries_unbounded (E : Env) (method path : string) (n : nat) :
  always_answers_expired E ->
  (forall m u, new_request_error E m u = None) ->
  forall (c : backlog.Client) (st : State),
    refreshes_succeed E n st ->
    exists c' st',
      backlog.doRequest n E c method path st = (backlog.Running, c', st') /\
      api_calls st' = (api_calls st + n)%nat /\
      refresh_calls st' = (refresh_calls st + n)%nat.
Proof.
  intros Hexp Hnew. induction n as [|n IH]; intros c st Hrs.
  - exists c, st. simpl. repeat split; lia.
  - inversion Hrs as [|n' st0 st2 c2 Href Hload Hrest]; subst.
    cbn [backlog.doRequest]. rewrite Hnew. unfold http.Do.
    destruct (Hexp (api_calls st)
                {| Method := method;
                   URL := "https://" ++ config.Space (backlog.cfg c) ++ path;
                   Authorization := "Bearer " ++ config.AccessToken (backlog.cfg c) |})
      as (resp & body & Hresp & Hcode & Hch & Hbody).
    rewrite Hresp, Hbody, Hcode. cbn. rewrite Hch, Href, Hload.
    destruct (IH {| backlog.cfg := c2 |} st2 Hrest) as (c' & st' & Hrun & Ha & Hr).
    exists c', st'. split; [exact Hrun|].
    pose proof (RefreshToken_api_calls E (count_api_call st)) as Hac.
    pose proof (RefreshToken_counted E (count_api_call st)) as Hrc.
    rewrite Href in Hac, Hrc. simpl in Hac, Hrc. lia.
Qed.

Lemma doRequest_retries_unbounded_witness :
  exists c' st',
    backlog.doRequest 3 (env_with always_expired (granting 3600))
      {| backlog.cfg := credential "access-1" "refresh-1" 0 |}
      "GET" "/api/v2/issues/DEMO-1"
      (stored (credential "access-1" "refresh-1" 0))
    = (backlog.Running, c', st') /\
    api_calls st' = 3%nat /\ refresh_calls st' = 3%nat.
Proof.
  apply (doRequest_retries_unbounded
           (env_with always_expired (granting 3600))
           "GET" "/api/v2/issues/DEMO-1" 3).
  - intros n req. exists expired_response, EmptyString.
    repeat split; reflexivity.
  - reflexivity.
  - eapply refreshes_next; [vm_compute; reflexivity | vm_compute; reflexivity |].
    eapply refreshes_next; [vm_compute; reflexivity | vm_compute; reflexivity |].
    eapply refreshes_next; [vm_compute; reflexivity | vm_compute; reflexivity |].
    apply refreshes_none.
Defined.

(** C1, as stated, fails: the server always answers 401 with the expired
    challenge and every refresh succeeds; after three HTTP calls and three
    refreshes [doRequest] has still not returned. *)
Lemma doRequest_third_attempt :
  fst (fst (backlog.doRequest 3 (env_with always_expired (granting 3600))
              {| backlog.cfg := credential "access-1" "refresh-1" 0 |}
              "GET" "/api/v2/issues/DEMO-1"
              (stored (credential "access-1" "refresh-1" 0))))
  = backlog.Running /\
  api_calls
    (snd (backlog.doRequest 3 (env_with always_expired (granting 3600))
            {| backlog.cfg := credential "access-1" "refresh-1" 0 |}
            "GET" "/api/v2/issues/DEMO-1"
            (stored (credential "access-1" "refresh-1" 0)))) = 3%nat /\
  refresh_calls
    (snd (backlog.doRequest 3 (env_with always_expired (granting 3600))
            {| backlog.cfg := credential "access-1" "refresh-1" 0 |}
            "GET" "/api/v2/issues/DEMO-1"
            (stored (credential "access-1" "refresh-1" 0)))) = 3%nat.
Proof. vm_compute. repeat split. Qed.

(** ** Bytes and bits *)

Lemma byte_val_range (c : ascii) : 0 <= byte_val c < 256.
Proof.
  unfold byte_val. pose proof (N_ascii_bounded c). lia.
Qed.

Lemma byte_byte_val (c : ascii) : byte (byte_val c) = c.
Proof.
  unfold byte. pose proof (byte_val_range c) as H.
  change 255 with (Z.ones 8). rewrite Z.land_ones by lia.
  rewrite Z.mod_small by lia. unfold byte_val.
  rewrite N2Z.id. apply ascii_N_embedding.
Qed.

Lemma byte_val_byte (x : Z) : 0 <= x < 256 -> byte_val (byte x) = x.
Proof.
  intros H. unfold byte, byte_val.
  change 255 with (Z.ones 8). rewrite Z.land_ones by lia.
  rewrite Z.mod_small by lia.
  rewrite N_ascii_embedding by lia. lia.
Qed.

Lemma byte_val_inj (c d : ascii) : byte_val c = byte_val d -> c = d.
Proof.
  intros H. rewrite <- (byte_byte_val c), <- (byte_byte_val d). now rewrite H.
Qed.

(** The bits of [lo] lie below those of [hi]. *)
Lemma lor_add (n hi lo : Z) :
  0 <= n -> 0 <= lo < 2 ^ n -> hi mod 2 ^ n = 0 -> Z.lor hi lo = hi + lo.
Proof.
  intros Hn Hlo Hhi.
  assert (Hland : Z.land hi lo = 0).
  { apply Z.bits_inj'. intros i Hi. rewrite Z.land_spec, Z.bits_0.
    destruct (Z.lt_ge_cases i n) as [Hlt|Hge].
    - replace hi with (hi / 2 ^ n * 2 ^ n)
        by (pose proof (Z.div_mod hi (2 ^ n)); lia).
      rewrite Z.mul_pow2_bits_low by lia. reflexivity.
    - destruct (Z.eq_dec lo 0) as [->|Hnz].
      + rewrite Z.bits_0. apply andb_false_r.
      + rewrite (Z.bits_above_log2 lo i); [apply andb_false_r | lia |].
        apply Z.log2_lt_pow2; [lia|].
        pose proof (Z.pow_le_mono_r 2 n i). lia. }
  rewrite <- Z.lxor_lor by exact Hland.
  symmetry. apply Z.add_nocarry_lxor. exact Hland.
Qed.

Lemma land_mask (n x : Z) : 0 <= n -> Z.land x (2 ^ n - 1) = x mod 2 ^ n.
Proof.
  intros Hn. rewrite <- Z.land_ones by lia. f_equal.
  rewrite Z.ones_equiv. lia.
Qed.

Lemma land_63 (x : Z) : Z.land x 63 = x mod 64.
Proof. exact (land_mask 6 x ltac:(lia)). Qed.
Lemma land_31 (x : Z) : Z.land x 31 = x mod 32.
Proof. exact (land_mask 5 x ltac:(lia)). Qed.
Lemma land_15 (x : Z) : Z.land x 15 = x mod 16.
Proof. exact (land_mask 4 x ltac:(lia)). Qed.
Lemma land_7 (x : Z) : Z.land x 7 = x mod 8.
Proof. exact (land_mask 3 x ltac:(lia)). Qed.

Lemma shiftl_6 (x : Z) : Z.shiftl x 6 = x * 64.
Proof. now rewrite Z.shiftl_mul_pow2 by lia. Qed.
Lemma shiftl_10 (x : Z) : Z.shiftl x 10 = x * 1024.
Proof. now rewrite Z.shiftl_mul_pow2 by lia. Qed.
Lemma shiftl_12 (x : Z) : Z.shiftl x 12 = x * 4096.
Proof. now rewrite Z.shiftl_mul_pow2 by lia. Qed.
Lemma shiftl_18 (x : Z) : Z.shiftl x 18 = x * 262144.
Proof. now rewrite Z.shiftl_mul_pow2 by lia. Qed.
Lemma shiftr_4 (x : Z) : Z.shiftr x 4 = x / 16.
Proof. now rewrite Z.shiftr_div_pow2 by lia. Qed.
Lemma shiftr_6 (x : Z) : Z.shiftr x 6 = x / 64.
Proof. now rewrite Z.shiftr_div_pow2 by lia. Qed.
Lemma shiftr_12 (x : Z) : Z.shiftr x 12 = x / 4096.
Proof. now rewrite Z.shiftr_div_pow2 by lia. Qed.
Lemma shiftr_18 (x : Z) : Z.shiftr x 18 = x / 262144.
Proof. now rewrite Z.shiftr_div_pow2 by lia. Qed.

Lemma lor_add_4 (hi lo : Z) : 0 <= lo < 16 -> hi mod 16 = 0 -> Z.lor hi lo = hi + lo.
Proof. intros. now apply (lor_add 4). Qed.
Lemma lor_add_5 (hi lo : Z) : 0 <= lo < 32 -> hi mod 32 = 0 -> Z.lor hi lo = hi + lo.
Proof. intros. now apply (lor_add 5). Qed.
Lemma lor_add_6 (hi lo : Z) : 0 <= lo < 64 -> hi mod 64 = 0 -> Z.lor hi lo = hi + lo.
Proof. intros. now apply (lor_add 6). Qed.
Lemma lor_add_7 (hi lo : Z) : 0 <= lo < 128 -> hi mod 128 = 0 -> Z.lor hi lo = hi + lo.
Proof. intros. now apply (lor_add 7). Qed.
Lemma lor_add_10 (hi lo : Z) : 0 <= lo < 1024 -> hi mod 1024 = 0 -> Z.lor hi lo = hi + lo.
Proof. intros. now apply (lor_add 10). Qed.
Lemma lor_add_12 (hi lo : Z) : 0 <= lo < 4096 -> hi mod 4096 = 0 -> Z.lor hi lo = hi + lo.
Proof. intros. now apply (lor_add 12). Qed.
Lemma lor_add_18 (hi lo : Z) :
  0 <= lo < 262144 -> hi mod 262144 = 0 -> Z.lor hi lo = hi + lo.
Proof. intros. now apply (lor_add 18). Qed.

(** ** Decoding of runes *)

Ltac split_on b :=
  repeat match goal with
  | |- context [b <? ?k] => destruct (Z.ltb_spec b k); try lia
  | |- context [b =? ?k] => destruct (Z.eqb_spec b k); try lia
  end.

Lemma decode4_ascii (b0 b1 b2 b3 : Z) :
  0 <= b0 < 0x80 -> decode4 b0 b1 b2 b3 = (b0, 1%nat).
Proof. intros H. unfold decode4, utf8.first. split_on b0. reflexivity. Qed.

Lemma decode4_bad (b0 b1 b2 b3 : Z) :
  0x80 <= b0 < 0xC2 \/ 0xF5 <= b0 ->
  decode4 b0 b1 b2 b3 = (utf8.RuneError, 1%nat).
Proof. intros H. unfold decode4, utf8.first. split_on b0; reflexivity. Qed.

Lemma decode4_two (b0 b1 b2 b3 : Z) :
  0xC2 <= b0 < 0xE0 ->
  decode4 b0 b1 b2 b3 =
  if (b1 <? 0x80) || (0xBF <? b1) then (utf8.RuneError, 1%nat)
  else (Z.lor (Z.shiftl (Z.land b0 31) 6) (Z.land b1 63), 2%nat).
Proof. intros H. unfold decode4, utf8.first. split_on b0. reflexivity. Qed.

Lemma decode4_three (b0 b1 b2 b3 : Z) :
  0xE0 <= b0 < 0xF0 ->
  decode4 b0 b1 b2 b3 =
  if (b1 <? second_lo b0) || (second_hi b0 <? b1) then (utf8.RuneError, 1%nat)
  else if (b2 <? 0x80) || (0xBF <? b2) then (utf8.RuneError, 1%nat)
  else (Z.lor (Z.lor (Z.shiftl (Z.land b0 15) 12) (Z.shiftl (Z.land b1 63) 6))
              (Z.land b2 63), 3%nat).
Proof.
  intros H. unfold decode4, utf8.first, second_lo, second_hi.
  split_on b0; reflexivity.
Qed.

Lemma decode4_four (b0 b1 b2 b3 : Z) :
  0xF0 <= b0 < 0xF5 ->
  decode4 b0 b1 b2 b3 =
  if (b1 <? second_lo b0) || (second_hi b0 <? b1) then (utf8.RuneError, 1%nat)
  else if (b2 <? 0x80) || (0xBF <? b2) then (utf8.RuneError, 1%nat)
  else if (b3 <? 0x80) || (0xBF <? b3) then (utf8.RuneError, 1%nat)
  else (Z.lor (Z.lor (Z.lor (Z.shiftl (Z.land b0 7) 18)
                            (Z.shiftl (Z.land b1 63) 12))
                     (Z.shiftl (Z.land b2 63) 6))
              (Z.land b3 63), 4%nat).
Proof.
  intros H. unfold decode4, utf8.first, second_lo, second_hi.
  split_on b0; reflexivity.
Qed.

Ltac split_ranges :=
  repeat match goal with
  | |- context [if (?x <? ?lo) || (?hi <? ?x) then _ else _] =>
    is_var x; destruct ((x <? lo) || (hi <? x))
  end.

Lemma DecodeRune_decode4 (c : ascii) (t : string) :
  utf8.DecodeRune (String c t) =
  decode4 (byte_val c) (byte_at t 0) (byte_at t 1) (byte_at t 2).
Proof.
  pose proof (byte_val_range c) as Hc.
  unfold utf8.DecodeRune, decode4, byte_at.
  destruct t as [|c1 [|c2 [|c3 t3]]]; cbn [drop String.length];
    generalize dependent (byte_val c); intros b0 Hb0;
    try (generalize (byte_val c1); intros b1);
    try (generalize (byte_val c2); intros b2);
    try (generalize (byte_val c3); intros b3);
    unfold utf8.first; split_on b0;
    cbv beta zeta iota delta [utf8.as_ utf8.xx utf8.s1 utf8.s2 utf8.s3 utf8.s4 utf8.s5 utf8.s6 utf8.s7 utf8.acceptRanges utf8.locb utf8.hicb];
    try reflexivity.
  all: repeat match goal with
       | |- context [Z.land ?a 7] =>
         let v := eval vm_compute in (Z.land a 7) in change (Z.land a 7) with v
       end.
  all: repeat match goal with
       | |- context [Z.of_nat ?n <? ?k] =>
         destruct (Z.ltb_spec (Z.of_nat n) k); try lia
       end.
  all: try reflexivity.
  all: cbn [fst snd]; split_ranges; reflexivity.
Qed.

Ltac arith := Z.to_euclidean_division_equations; lia.

Ltac second_bounds b :=
  unfold second_lo, second_hi in *;
  repeat match goal with
  | H : context [b =? ?k] |- _ => destruct (Z.eqb_spec b k)
  end; lia.

Ltac range_hyps H :=
  apply orb_false_iff in H as [?Hlo ?Hhi];
  apply Z.ltb_ge in Hlo, Hhi.

(** What [decode4] returns, by the width of the encoding. *)
Lemma decode4_inv (b0 b1 b2 b3 r : Z) (n : nat) :
  0 <= b0 < 256 ->
  decode4 b0 b1 b2 b3 = (r, n) ->
  (n = 1%nat /\ ((b0 < 0x80 /\ r = b0) \/ (0x80 <= b0 /\ r = utf8.RuneError))) \/
  (n = 2%nat /\ 0xC2 <= b0 < 0xE0 /\ 0x80 <= b1 <= 0xBF /\
   r = (b0 - 0xC0) * 64 + (b1 - 0x80)) \/
  (n = 3%nat /\ 0xE0 <= b0 < 0xF0 /\ second_lo b0 <= b1 <= second_hi b0 /\
   0x80 <= b2 <= 0xBF /\
   r = (b0 - 0xE0) * 4096 + (b1 - 0x80) * 64 + (b2 - 0x80)) \/
  (n = 4%nat /\ 0xF0 <= b0 < 0xF5 /\ second_lo b0 <= b1 <= second_hi b0 /\
   0x80 <= b2 <= 0xBF /\ 0x80 <= b3 <= 0xBF /\
   r = (b0 - 0xF0) * 262144 + (b1 - 0x80) * 4096 + (b2 - 0x80) * 64 + (b3 - 0x80)).
Proof.
  intros Hb0 H.
  destruct (Z.lt_ge_cases b0 0x80) as [Ha|Ha].
  { rewrite decode4_ascii in H by lia. inversion H; subst. left. auto. }
  destruct (Z.lt_ge_cases b0 0xC2) as [Hb|Hb].
  { rewrite decode4_bad in H by lia. inversion H; subst. left. auto. }
  destruct (Z.lt_ge_cases b0 0xE0) as [Hc|Hc].
  { rewrite decode4_two in H by lia.
    destruct ((b1 <? 128) || (191 <? b1)) eqn:Hr.
    - inversion H; subst. left. auto.
    - range_hyps Hr. inversion H; subst. right; left.
      repeat split; try lia.
      rewrite land_31, land_63, shiftl_6, lor_add_6; arith. }
  destruct (Z.lt_ge_cases b0 0xF0) as [Hd|Hd].
  { rewrite decode4_three in H by lia.
    destruct ((b1 <? second_lo b0) || (second_hi b0 <? b1)) eqn:Hr1.
    { inversion H; subst. left. auto. }
    destruct ((b2 <? 128) || (191 <? b2)) eqn:Hr2.
    { inversion H; subst. left. auto. }
    range_hyps Hr1. range_hyps Hr2. inversion H; subst. right; right; left.
    assert (0x80 <= b1 <= 0xBF)
      by second_bounds b0.
    repeat split; try lia.
    rewrite land_15, !land_63, shiftl_6, shiftl_12.
    rewrite (lor_add_12 _ (b1 mod 64 * 64)) by arith.
    rewrite lor_add_6; arith. }
  destruct (Z.lt_ge_cases b0 0xF5) as [He|He].
  { rewrite decode4_four in H by lia.
    destruct ((b1 <? second_lo b0) || (second_hi b0 <? b1)) eqn:Hr1.
    { inversion H; subst. left. auto. }
    destruct ((b2 <? 128) || (191 <? b2)) eqn:Hr2.
    { inversion H; subst. left. auto. }
    destruct ((b3 <? 128) || (191 <? b3)) eqn:Hr3.
    { inversion H; subst. left. auto. }
    range_hyps Hr1. range_hyps Hr2. range_hyps Hr3.
    inversion H; subst. right; right; right.
    assert (0x80 <= b1 <= 0xBF)
      by second_bounds b0.
    repeat split; try lia.
    rewrite land_7, !land_63, shiftl_6, shiftl_12, shiftl_18.
    rewrite (lor_add_18 _ (b1 mod 64 * 4096)) by arith.
    rewrite (lor_add_12 _ (b2 mod 64 * 64)) by arith.
    rewrite lor_add_6; arith. }
  rewrite decode4_bad in H by lia. inversion H; subst. left. auto.
Qed.


(** ** Strings, continued *)

Lemma length_drop (n : nat) (s : string) :
  String.length (drop n s) = (String.length s - n)%nat.
Proof.
  revert s. induction n as [|n IH]; intros [|c s]; simpl; try reflexivity.
  apply IH.
Qed.

Lemma take_drop (n : nat) (s : string) : take n s ++ drop n s = s.
Proof.
  unfold take. revert s. induction n as [|n IH]; intros [|c s]; simpl;
    try reflexivity.
  now rewrite IH.
Qed.

Lemma length_take (n : nat) (s : string) :
  (n <= String.length s)%nat -> String.length (take n s) = n.
Proof.
  unfold take. revert s. induction n as [|n IH]; intros [|c s] H; simpl in *;
    try reflexivity; try lia.
  rewrite IH by lia. reflexivity.
Qed.

Lemma drop_app_length (p t : string) : drop (String.length p) (p ++ t) = t.
Proof. induction p as [|c p IH]; simpl; [reflexivity | exact IH]. Qed.

Lemma app_assoc_string (a b c : string) : (a ++ b) ++ c = a ++ (b ++ c).
Proof. induction a as [|x a IH]; simpl; [reflexivity | now rewrite IH]. Qed.

Lemma app_empty_r (a : string) : a ++ EmptyString = a.
Proof. induction a as [|x a IH]; simpl; [reflexivity | now rewrite IH]. Qed.

Lemma byte_at_range (s : string) (i : nat) : -1 <= byte_at s i < 256.
Proof.
  unfold byte_at. destruct (drop i s) as [|c r]; [lia|].
  pose proof (byte_val_range c). lia.
Qed.

Lemma byte_at_present (s : string) (i : nat) :
  0 <= byte_at s i -> (i < String.length s)%nat.
Proof.
  unfold byte_at. intros H.
  destruct (drop i s) as [|c r] eqn:Hd; [lia|].
  pose proof (length_drop i s) as Hl. rewrite Hd in Hl. simpl in Hl. lia.
Qed.

Lemma byte_at_app (s u : string) (i : nat) :
  (i < String.length s)%nat -> byte_at (s ++ u) i = byte_at s i.
Proof.
  unfold byte_at. revert s. induction i as [|i IH]; intros [|c s] H;
    simpl in *; try lia; try reflexivity.
  apply IH. lia.
Qed.

Lemma byte_at_take (s : string) (k i : nat) :
  (i < k)%nat -> byte_at (take k s) i = byte_at s i.
Proof.
  unfold byte_at, take. revert s k. induction i as [|i IH]; intros [|c s] [|k] H;
    simpl in *; try lia; try reflexivity.
  apply IH. lia.
Qed.

Lemma byte_at_S (c : ascii) (s : string) (i : nat) :
  byte_at (String c s) (S i) = byte_at s i.
Proof. reflexivity. Qed.

Lemma byte_at_0 (c : ascii) (s : string) : byte_at (String c s) 0 = byte_val c.
Proof. reflexivity. Qed.

(** ** Decoding of runes, continued *)

Lemma in_range_false (x lo hi : Z) :
  lo <= x <= hi -> (x <? lo) || (hi <? x) = false.
Proof.
  intros H. apply orb_false_iff. split; apply Z.ltb_ge; lia.
Qed.

(** A well-formed encoding is decided by its own bytes. *)
Lemma decode4_prefix (b0 b1 b2 b3 b1' b2' b3' r : Z) (n : nat) :
  0 <= b0 < 256 ->
  decode4 b0 b1 b2 b3 = (r, n) ->
  ~ (0x80 <= b0 /\ n = 1%nat) ->
  ((2 <= n)%nat -> b1' = b1) ->
  ((3 <= n)%nat -> b2' = b2) ->
  ((4 <= n)%nat -> b3' = b3) ->
  decode4 b0 b1' b2' b3' = (r, n).
Proof.
  intros Hb0 H Hv H1 H2 H3.
  destruct (Z.lt_ge_cases b0 0x80) as [Ha|Ha].
  { rewrite decode4_ascii in * by lia. exact H. }
  destruct (Z.lt_ge_cases b0 0xC2) as [Hb|Hb].
  { rewrite decode4_bad in H by lia. inversion H; subst. exfalso. apply Hv. lia. }
  destruct (Z.lt_ge_cases b0 0xE0) as [Hc|Hc].
  { rewrite decode4_two in * by lia.
    destruct ((b1 <? 128) || (191 <? b1)) eqn:Hr.
    - inversion H; subst. exfalso. apply Hv. lia.
    - inversion H; subst. rewrite H1 by lia. rewrite Hr. reflexivity. }
  destruct (Z.lt_ge_cases b0 0xF0) as [Hd|Hd].
  { rewrite decode4_three in * by lia.
    destruct ((b1 <? second_lo b0) || (second_hi b0 <? b1)) eqn:Hr1.
    { inversion H; subst. exfalso. apply Hv. lia. }
    destruct ((b2 <? 128) || (191 <? b2)) eqn:Hr2.
    { inversion H; subst. exfalso. apply Hv. lia. }
    inversion H; subst. rewrite H1, H2 by lia. rewrite Hr1, Hr2. reflexivity. }
  destruct (Z.lt_ge_cases b0 0xF5) as [He|He].
  { rewrite decode4_four in * by lia.
    destruct ((b1 <? second_lo b0) || (second_hi b0 <? b1)) eqn:Hr1.
    { inversion H; subst. exfalso. apply Hv. lia. }
    destruct ((b2 <? 128) || (191 <? b2)) eqn:Hr2.
    { inversion H; subst. exfalso. apply Hv. lia. }
    destruct ((b3 <? 128) || (191 <? b3)) eqn:Hr3.
    { inversion H; subst. exfalso. apply Hv. lia. }
    inversion H; subst. rewrite H1, H2, H3 by lia.
    rewrite Hr1, Hr2, Hr3. reflexivity. }
  rewrite decode4_bad in H by lia. inversion H; subst. exfalso. apply Hv. lia.
Qed.

(** The width of a rune is at least one and at most what is left. *)
Lemma DecodeRune_size (c : ascii) (t : string) (r : Z) (n : nat) :
  utf8.DecodeRune (String c t) = (r, n) ->
  (1 <= n <= String.length (String c t))%nat.
Proof.
  rewrite DecodeRune_decode4. intros H.
  apply decode4_inv in H; [|apply byte_val_range].
  simpl.
  destruct H as [(-> & _) | [(-> & _ & H1 & _) | [(-> & _ & H1 & H2 & _) |
                 (-> & _ & H1 & H2 & H3 & _)]]].
  - lia.
  - pose proof (byte_at_present t 0). lia.
  - pose proof (byte_at_present t 1). lia.
  - pose proof (byte_at_present t 2). lia.
Qed.

(** A rune that is not an encoding error is decoded the same way whatever
    follows its bytes. *)
Lemma DecodeRune_prefix (c : ascii) (t u : string) (r : Z) (n : nat) :
  utf8.DecodeRune (String c t) = (r, n) ->
  ~ (0x80 <= byte_val c /\ n = 1%nat) ->
  utf8.DecodeRune (take n (String c t) ++ u) = (r, n).
Proof.
  intros H Hv. pose proof (DecodeRune_size c t r n H) as Hn.
  destruct n as [|n]; [lia|].
  unfold take. cbn [substring String.append]. fold (take n t).
  rewrite DecodeRune_decode4 in *.
  pose proof (decode4_inv _ _ _ _ _ _ (byte_val_range c) H) as Hi.
  apply (decode4_prefix _ _ _ _ _ _ _ _ _ (byte_val_range c) H Hv).
  - intros Hk. simpl in Hn.
    rewrite byte_at_app by (rewrite length_take; lia).
    apply byte_at_take. lia.
  - intros Hk. simpl in Hn.
    rewrite byte_at_app by (rewrite length_take; lia).
    apply byte_at_take. lia.
  - intros Hk. simpl in Hn.
    rewrite byte_at_app by (rewrite length_take; lia).
    apply byte_at_take. lia.
Qed.

(** ** Encoding of runes *)

Lemma EncodeRune_1 (r : Z) : 0 <= r <= 0x7F -> utf8.EncodeRune r = chr r.
Proof.
  intros H. unfold utf8.EncodeRune. rewrite Z.mod_small by lia.
  unfold utf8.rune1Max. destruct (Z.leb_spec r 127); [reflexivity | lia].
Qed.

Lemma EncodeRune_2 (r : Z) :
  0x7F < r <= 0x7FF ->
  utf8.EncodeRune r = chr (0xC0 + r / 64) ++ chr (0x80 + r mod 64).
Proof.
  intros H. unfold utf8.EncodeRune. rewrite Z.mod_small by lia.
  unfold utf8.rune1Max, utf8.rune2Max, utf8.t2, utf8.tx, utf8.maskx.
  destruct (Z.leb_spec r 127); [lia|].
  destruct (Z.leb_spec r 2047); [|lia].
  rewrite shiftr_6, land_63, lor_add_6, lor_add_7 by arith. reflexivity.
Qed.

Lemma EncodeRune_error (r : Z) :
  0 <= r < 2 ^ 32 ->
  utf8.MaxRune < r \/ utf8.surrogateMin <= r <= utf8.surrogateMax ->
  utf8.EncodeRune r = chr 0xEF ++ chr 0xBF ++ chr 0xBD.
Proof.
  intros H Hs. unfold utf8.EncodeRune. rewrite Z.mod_small by lia.
  unfold utf8.rune1Max, utf8.rune2Max, utf8.MaxRune, utf8.surrogateMin,
    utf8.surrogateMax in *.
  destruct (Z.leb_spec r 127); [lia|].
  destruct (Z.leb_spec r 2047); [lia|].
  destruct (Z.ltb_spec 1114111 r); [reflexivity|].
  destruct (Z.leb_spec 55296 r); [|lia].
  destruct (Z.leb_spec r 57343); [reflexivity | lia].
Qed.

Lemma EncodeRune_3 (r : Z) :
  0x7FF < r <= 0xFFFF -> ~ (utf8.surrogateMin <= r <= utf8.surrogateMax) ->
  utf8.EncodeRune r =
  chr (0xE0 + r / 4096) ++ chr (0x80 + (r / 64) mod 64) ++ chr (0x80 + r mod 64).
Proof.
  intros H Hs. unfold utf8.EncodeRune. rewrite Z.mod_small by lia.
  unfold utf8.rune1Max, utf8.rune2Max, utf8.rune3Max, utf8.MaxRune,
    utf8.surrogateMin, utf8.surrogateMax, utf8.t3, utf8.tx, utf8.maskx in *.
  destruct (Z.leb_spec r 127); [lia|].
  destruct (Z.leb_spec r 2047); [lia|].
  destruct (Z.ltb_spec 1114111 r); [lia|].
  assert (Hn : (55296 <=? r) && (r <=? 57343) = false).
  { destruct (Z.leb_spec 55296 r); destruct (Z.leb_spec r 57343);
      try reflexivity. lia. }
  rewrite Hn. cbn [orb].
  destruct (Z.leb_spec r 65535); [|lia].
  rewrite shiftr_12, shiftr_6, !land_63, lor_add_5, !lor_add_7 by arith.
  reflexivity.
Qed.

Lemma EncodeRune_4 (r : Z) :
  0xFFFF < r <= utf8.MaxRune ->
  utf8.EncodeRune r =
  chr (0xF0 + r / 262144) ++ chr (0x80 + (r / 4096) mod 64) ++
  chr (0x80 + (r / 64) mod 64) ++ chr (0x80 + r mod 64).
Proof.
  intros H. unfold utf8.EncodeRune.
  unfold utf8.rune1Max, utf8.rune2Max, utf8.rune3Max, utf8.MaxRune,
    utf8.surrogateMin, utf8.surrogateMax, utf8.t4, utf8.tx, utf8.maskx in *.
  rewrite Z.mod_small by lia.
  destruct (Z.leb_spec r 127); [lia|].
  destruct (Z.leb_spec r 2047); [lia|].
  destruct (Z.ltb_spec 1114111 r); [lia|].
  assert (Hn : (55296 <=? r) && (r <=? 57343) = false).
  { destruct (Z.leb_spec 55296 r); destruct (Z.leb_spec r 57343);
      try reflexivity. lia. }
  rewrite Hn. cbn [orb].
  destruct (Z.leb_spec r 65535); [lia|].
  rewrite shiftr_18, shiftr_12, shiftr_6, !land_63, lor_add_4, !lor_add_7 by arith.
  reflexivity.
Qed.

(** Decoding what [EncodeRune] wrote gives the rune back (the error rune
    for what is no scalar value), and its width is the length written. *)
Lemma DecodeRune_EncodeRune (r : Z) (u : string) :
  0 <= r < 2 ^ 32 ->
  exists r',
    utf8.DecodeRune (utf8.EncodeRune r ++ u) =
      (r', String.length (utf8.EncodeRune r)) /\
    utf8.EncodeRune r' = utf8.EncodeRune r /\
    (0 < String.length (utf8.EncodeRune r))%nat.
Proof.
  intros Hr.
  destruct (Z.le_gt_cases r 0x7F) as [H1|H1].
  { exists r. rewrite EncodeRune_1 by lia. cbn [chr String.append String.length].
    rewrite DecodeRune_decode4, byte_val_byte, decode4_ascii by lia.
    repeat split. lia. }
  destruct (Z.le_gt_cases r 0x7FF) as [H2|H2].
  { exists r. rewrite EncodeRune_2 by lia.
    cbn [chr String.append String.length].
    rewrite DecodeRune_decode4, byte_at_0, !byte_val_byte by arith.
    rewrite decode4_two by arith. rewrite in_range_false by arith.
    repeat split; [|lia]. f_equal.
    rewrite land_31, land_63, shiftl_6, lor_add_6; arith. }
  destruct (Z.lt_ge_cases utf8.MaxRune r) as [H3|H3].
  { exists utf8.RuneError. rewrite (EncodeRune_error r) by auto.
    cbn [chr String.append String.length].
    rewrite DecodeRune_decode4, byte_at_0, byte_at_S, byte_at_0.
    repeat split. lia. }
  unfold utf8.MaxRune in *.
  destruct (Z.lt_ge_cases r utf8.surrogateMin) as [H4|H4];
    [|destruct (Z.le_gt_cases r utf8.surrogateMax) as [H5|H5]];
    unfold utf8.surrogateMin, utf8.surrogateMax in *.
  - exists r. rewrite EncodeRune_3
      by (unfold utf8.surrogateMin, utf8.surrogateMax; lia).
    cbn [chr String.append String.length].
    rewrite DecodeRune_decode4, byte_at_0, byte_at_S, byte_at_0,
      !byte_val_byte by arith.
    rewrite decode4_three by arith.
    rewrite in_range_false
      by (unfold second_lo, second_hi;
          destruct (Z.eqb_spec (224 + r / 4096) 224);
          destruct (Z.eqb_spec (224 + r / 4096) 240);
          destruct (Z.eqb_spec (224 + r / 4096) 237);
          destruct (Z.eqb_spec (224 + r / 4096) 244); arith).
    rewrite in_range_false by arith.
    repeat split; [|lia]. f_equal.
    rewrite land_15, !land_63, shiftl_6, shiftl_12.
    rewrite (lor_add_12 _ (_ * 64)) by arith.
    rewrite lor_add_6; arith.
  - exists utf8.RuneError.
    rewrite (EncodeRune_error r)
      by (unfold utf8.surrogateMin, utf8.surrogateMax; lia).
    cbn [chr String.append String.length].
    rewrite DecodeRune_decode4, byte_at_0, byte_at_S, byte_at_0.
    repeat split. lia.
  - destruct (Z.le_gt_cases r 0xFFFF) as [H6|H6].
    + exists r. rewrite EncodeRune_3
        by (unfold utf8.surrogateMin, utf8.surrogateMax; lia).
      cbn [chr String.append String.length].
      rewrite DecodeRune_decode4, byte_at_0, byte_at_S, byte_at_0,
        !byte_val_byte by arith.
      rewrite decode4_three by arith.
      rewrite in_range_false
        by (unfold second_lo, second_hi;
            destruct (Z.eqb_spec (224 + r / 4096) 224);
            destruct (Z.eqb_spec (224 + r / 4096) 240);
            destruct (Z.eqb_spec (224 + r / 4096) 237);
            destruct (Z.eqb_spec (224 + r / 4096) 244); arith).
      rewrite in_range_false by arith.
      repeat split; [|lia]. f_equal.
      rewrite land_15, !land_63, shiftl_6, shiftl_12.
      rewrite (lor_add_12 _ (_ * 64)) by arith.
      rewrite lor_add_6; arith.
    + exists r. rewrite EncodeRune_4 by (unfold utf8.MaxRune; lia).
      cbn [chr String.append String.length].
      rewrite DecodeRune_decode4, byte_at_0, !byte_at_S, !byte_at_0,
        !byte_val_byte by arith.
      rewrite decode4_four by arith.
      rewrite in_range_false
        by (unfold second_lo, second_hi;
            destruct (Z.eqb_spec (240 + r / 262144) 224);
            destruct (Z.eqb_spec (240 + r / 262144) 240);
            destruct (Z.eqb_spec (240 + r / 262144) 237);
            destruct (Z.eqb_spec (240 + r / 262144) 244); arith).
      rewrite !in_range_false by arith.
      repeat split; [|lia]. f_equal.
      rewrite land_7, !land_63, shiftl_6, shiftl_12, shiftl_18.
      rewrite (lor_add_18 _ (_ * 4096)) by arith.
      rewrite (lor_add_12 _ (_ * 64)) by arith.
      rewrite lor_add_6; arith.
Qed.


(** ** The coercion to well-formed UTF-8 *)

Lemma ToValid_loop_fuel (f g : nat) (s : string) :
  (String.length s <= f)%nat -> (String.length s <= g)%nat ->
  utf8.ToValid_loop f s = utf8.ToValid_loop g s.
Proof.
  revert g s. induction f as [|f IH]; intros g s Hf Hg.
  - destruct s; [|simpl in Hf; lia]. destruct g; reflexivity.
  - destruct g as [|g].
    + destruct s; [reflexivity | simpl in Hg; lia].
    + destruct s as [|c t]; [reflexivity|].
      cbn [utf8.ToValid_loop].
      destruct (utf8.DecodeRune (String c t)) as [r n] eqn:Hd.
      pose proof (DecodeRune_size c t r n Hd) as Hn.
      f_equal. apply IH; rewrite length_drop; simpl in *; lia.
Qed.

Lemma ToValid_cons (c : ascii) (t : string) (r : Z) (n : nat) :
  utf8.DecodeRune (String c t) = (r, n) ->
  utf8.ToValid (String c t) = utf8.EncodeRune r ++ utf8.ToValid (drop n (String c t)).
Proof.
  intros Hd. unfold utf8.ToValid at 1. cbn [String.length utf8.ToValid_loop].
  rewrite Hd. f_equal. unfold utf8.ToValid.
  pose proof (DecodeRune_size c t r n Hd) as Hn.
  apply ToValid_loop_fuel; rewrite ?length_drop; simpl in *; lia.
Qed.

Lemma ToValid_loop_ToValid (f : nat) (s : string) :
  (String.length s <= f)%nat -> utf8.ToValid_loop f s = utf8.ToValid s.
Proof. intros H. apply ToValid_loop_fuel; [exact H | lia]. Qed.

(** The coercion leaves an encoded rune as it is. *)
Lemma ToValid_app_rune (r : Z) (t : string) :
  0 <= r < 2 ^ 32 ->
  utf8.ToValid (utf8.EncodeRune r ++ t) = utf8.EncodeRune r ++ utf8.ToValid t.
Proof.
  intros Hr. destruct (DecodeRune_EncodeRune r t Hr) as (r' & Hd & He & Hl).
  destruct (utf8.EncodeRune r) as [|c e] eqn:Henc; [simpl in Hl; lia|].
  cbn [String.append] in *.
  rewrite (ToValid_cons _ _ _ _ Hd), He.
  change (String c (e ++ t)) with (String c e ++ t).
  now rewrite drop_app_length.
Qed.

Lemma ToValid_ascii (c : ascii) (t : string) :
  byte_val c < 0x80 ->
  utf8.ToValid (String c t) = String c (utf8.ToValid t).
Proof.
  intros Hc. pose proof (byte_val_range c) as Hb.
  rewrite <- (byte_byte_val c) at 1.
  change (String (byte (byte_val c)) t) with (chr (byte_val c) ++ t).
  rewrite <- EncodeRune_1 by lia. rewrite ToValid_app_rune by lia.
  rewrite EncodeRune_1 by lia. cbn. now rewrite byte_byte_val.
Qed.

Lemma well_formed_empty : well_formed EmptyString.
Proof. reflexivity. Qed.

Lemma well_formed_rune (r : Z) (t : string) :
  0 <= r < 2 ^ 32 -> well_formed t -> well_formed (utf8.EncodeRune r ++ t).
Proof.
  unfold well_formed. intros Hr Ht. now rewrite ToValid_app_rune, Ht.
Qed.

Lemma well_formed_ascii (x : Z) (t : string) :
  0 <= x < 0x80 -> well_formed t -> well_formed (String (byte x) t).
Proof.
  unfold well_formed. intros Hx Ht.
  rewrite ToValid_ascii by (rewrite byte_val_byte; lia). now rewrite Ht.
Qed.

Lemma second_bounds_range (b : Z) : 0x80 <= second_lo b /\ second_hi b <= 0xBF.
Proof.
  unfold second_lo, second_hi.
  destruct (b =? 224); destruct (b =? 240); destruct (b =? 237);
    destruct (b =? 244); lia.
Qed.

(** Every decoded rune fits 32 bits. *)
Lemma DecodeRune_range (c : ascii) (t : string) (r : Z) (n : nat) :
  utf8.DecodeRune (String c t) = (r, n) -> 0 <= r < 2 ^ 32.
Proof.
  rewrite DecodeRune_decode4. intros Hd.
  apply decode4_inv in Hd; [|apply byte_val_range].
  pose proof (byte_val_range c).
  pose proof (second_bounds_range (byte_val c)).
  unfold utf8.RuneError in Hd. change (2 ^ 32) with 4294967296. lia.
Qed.

(** The coercion is idempotent: its result is well formed. *)
Lemma well_formed_ToValid (s : string) : well_formed (utf8.ToValid s).
Proof.
  remember (String.length s) as k eqn:Hk.
  assert (Hle : (String.length s <= k)%nat) by lia. clear Hk.
  revert s Hle. induction k as [|k IH]; intros s Hle.
  - destruct s; [reflexivity | simpl in Hle; lia].
  - destruct s as [|c t]; [reflexivity|].
    destruct (utf8.DecodeRune (String c t)) as [r n] eqn:Hd.
    rewrite (ToValid_cons _ _ _ _ Hd).
    pose proof (DecodeRune_size c t r n Hd) as Hn.
    apply well_formed_rune.
    + exact (DecodeRune_range c t r n Hd).
    + apply IH. rewrite length_drop. simpl in *. lia.
Qed.

(** ** String literals *)

(** The steps of [scan_string]. *)
Lemma scan_string_quote (f : nat) (rest : string) :
  json.scan_string (S f) (dquote ++ rest) = Some (EmptyString, rest).
Proof. reflexivity. Qed.

Lemma scan_string_plain (f : nat) (c : ascii) (X : string) :
  32 <= byte_val c < 0x80 -> byte_val c <> 34 -> byte_val c <> 92 ->
  json.scan_string (S f) (String c X) =
  match json.scan_string f X with
  | Some (t, s') => Some (String c t, s')
  | None => None
  end.
Proof.
  intros Hr H34 H92. cbn [json.scan_string].
  destruct (Z.eqb_spec (byte_val c) 34); [lia|].
  destruct (Z.eqb_spec (byte_val c) 92); [lia|].
  destruct (Z.ltb_spec (byte_val c) 32); [lia|].
  unfold utf8.RuneSelf.
  destruct (Z.ltb_spec (byte_val c) 128); [reflexivity | lia].
Qed.

Lemma scan_string_raw (f : nat) (c : ascii) (X : string) :
  0x80 <= byte_val c ->
  json.scan_string (S f) (String c X) =
  let '(rr, size) := utf8.DecodeRune (String c X) in
  match json.scan_string f (drop size (String c X)) with
  | Some (t, s') => Some (utf8.EncodeRune rr ++ t, s')
  | None => None
  end.
Proof.
  intros Hr. cbn [json.scan_string].
  destruct (Z.eqb_spec (byte_val c) 34); [lia|].
  destruct (Z.eqb_spec (byte_val c) 92); [lia|].
  destruct (Z.ltb_spec (byte_val c) 32); [lia|].
  unfold utf8.RuneSelf.
  destruct (Z.ltb_spec (byte_val c) 128); [lia | reflexivity].
Qed.

Lemma scan_string_short (f : nat) (e x : Z) (X : string) :
  short_escape e x ->
  json.scan_string (S f) (backslash ++ chr e ++ X) =
  match json.scan_string f X with
  | Some (t, s') => Some (String (byte x) t, s')
  | None => None
  end.
Proof.
  intros H.
  destruct H as [[-> ->]|[[-> ->]|[[-> ->]|[[-> ->]|[[-> ->]|[[-> ->]|
                 [[-> ->]|[-> ->]]]]]]]]; reflexivity.
Qed.

Lemma unhex_hex (i : Z) :
  0 <= i < 16 ->
  exists h, json.hex i = String h EmptyString /\ json.unhex (byte_val h) = i.
Proof.
  intros H. unfold json.hex.
  destruct (Z.ltb_spec i 10).
  - exists (byte (48 + i)). split; [reflexivity|].
    rewrite byte_val_byte by lia. unfold json.unhex.
    destruct (Z.leb_spec 48 (48 + i)); [|lia].
    destruct (Z.leb_spec (48 + i) 57); [cbn; lia | lia].
  - exists (byte (87 + i)). split; [reflexivity|].
    rewrite byte_val_byte by lia. unfold json.unhex.
    destruct (Z.leb_spec 48 (87 + i)); [|lia].
    destruct (Z.leb_spec (87 + i) 57); [lia|].
    destruct (Z.leb_spec 97 (87 + i)); [|lia].
    destruct (Z.leb_spec (87 + i) 102); [cbn; lia | lia].
Qed.

(** A [\uXXXX] escape of a rune that is no surrogate. *)
Lemma scan_string_u (f : nat) (d0 d1 d2 d3 : Z) (X : string) :
  0 <= d0 < 16 -> 0 <= d1 < 16 -> 0 <= d2 < 16 -> 0 <= d3 < 16 ->
  json.IsSurrogate (((d0 * 16 + d1) * 16 + d2) * 16 + d3) = false ->
  json.scan_string (S f)
    (backslash ++ "u" ++ json.hex d0 ++ json.hex d1 ++ json.hex d2 ++
     json.hex d3 ++ X) =
  match json.scan_string f X with
  | Some (t, s') =>
    Some (utf8.EncodeRune (((d0 * 16 + d1) * 16 + d2) * 16 + d3) ++ t, s')
  | None => None
  end.
Proof.
  intros H0 H1 H2 H3 Hs.
  destruct (unhex_hex d0 H0) as (h0 & -> & E0).
  destruct (unhex_hex d1 H1) as (h1 & -> & E1).
  destruct (unhex_hex d2 H2) as (h2 & -> & E2).
  destruct (unhex_hex d3 H3) as (h3 & -> & E3).
  cbn [String.append backslash chr].
  cbn [json.scan_string].
  change (byte_val (byte 92) =? 34) with false.
  change (byte_val (byte 92) =? 92) with true.
  change (byte_val "u") with 117.
  cbn [Z.eqb Pos.eqb orb].
  unfold json.getu4.
  change (byte_val (byte 92) =? 92) with true.
  change (byte_val "u" =? 117) with true.
  cbn [andb negb]. rewrite E0, E1, E2, E3.
  replace ((d0 <? 0) || (d1 <? 0) || (d2 <? 0) || (d3 <? 0)) with false.
  2:{ symmetry. repeat (apply orb_false_iff; split); apply Z.ltb_ge; lia. }
  replace (((d0 * 16 + d1) * 16 + d2) * 16 + d3 <? 0) with false
    by (symmetry; apply Z.ltb_ge; lia).
  rewrite Hs. reflexivity.
Qed.

(** What [appendString] writes for one byte below [utf8.RuneSelf] is read
    back as that byte. *)
Lemma scan_string_ascii_piece (f : nat) (c : ascii) (X : string) :
  byte_val c < 0x80 ->
  json.scan_string (S f)
    ((if json.htmlSafeSet (byte_val c) then String c EmptyString
      else json.escape_byte (byte_val c)) ++ X) =
  match json.scan_string f X with
  | Some (t, s') => Some (String c t, s')
  | None => None
  end.
Proof.
  intros Hc. pose proof (byte_val_range c) as Hb.
  destruct (json.htmlSafeSet (byte_val c)) eqn:Hsafe.
  - unfold json.htmlSafeSet in Hsafe.
    apply andb_true_iff in Hsafe as [Hlo Hex].
    apply Z.leb_le in Hlo. apply negb_true_iff in Hex.
    repeat (apply orb_false_iff in Hex as [Hex ?]).
    cbn [String.append]. apply scan_string_plain; [lia | |];
      intros Heq; rewrite Heq in *; discriminate.
  - unfold json.escape_byte.
    assert (Hbyte : forall x, byte_val c = x -> byte x = c)
      by (intros x <-; apply byte_byte_val).
    destruct (Z.eqb_spec (byte_val c) 92) as [E|E].
    { cbn [orb]. rewrite app_assoc_string, E.
      rewrite (scan_string_short f 92 92) by (unfold short_escape; tauto).
      now rewrite (Hbyte 92 E). }
    destruct (Z.eqb_spec (byte_val c) 34) as [E1|E1].
    { cbn [orb]. rewrite app_assoc_string, E1.
      rewrite (scan_string_short f 34 34) by (unfold short_escape; tauto).
      now rewrite (Hbyte 34 E1). }
    cbn [orb].
    destruct (Z.eqb_spec (byte_val c) 8) as [E2|E2].
    { rewrite app_assoc_string.
      rewrite (scan_string_short f 98 8) by (unfold short_escape; tauto).
      now rewrite (Hbyte 8 E2). }
    destruct (Z.eqb_spec (byte_val c) 12) as [E3|E3].
    { rewrite app_assoc_string.
      rewrite (scan_string_short f 102 12) by (unfold short_escape; tauto).
      now rewrite (Hbyte 12 E3). }
    destruct (Z.eqb_spec (byte_val c) 10) as [E4|E4].
    { rewrite app_assoc_string.
      rewrite (scan_string_short f 110 10) by (unfold short_escape; tauto).
      now rewrite (Hbyte 10 E4). }
    destruct (Z.eqb_spec (byte_val c) 13) as [E5|E5].
    { rewrite app_assoc_string.
      rewrite (scan_string_short f 114 13) by (unfold short_escape; tauto).
      now rewrite (Hbyte 13 E5). }
    destruct (Z.eqb_spec (byte_val c) 9) as [E6|E6].
    { rewrite app_assoc_string.
      rewrite (scan_string_short f 116 9) by (unfold short_escape; tauto).
      now rewrite (Hbyte 9 E6). }
    rewrite shiftr_4, land_15.
    change (backslash ++ "u00" ++ json.hex (byte_val c / 16) ++
            json.hex (byte_val c mod 16))
      with (backslash ++ "u" ++ json.hex 0 ++ json.hex 0 ++
            (json.hex (byte_val c / 16) ++ json.hex (byte_val c mod 16))).
    rewrite !app_assoc_string.
    rewrite scan_string_u; try arith.
    + replace (((0 * 16 + 0) * 16 + byte_val c / 16) * 16 + byte_val c mod 16)
        with (byte_val c) by arith.
      rewrite EncodeRune_1 by lia. cbn [chr String.append].
      now rewrite byte_byte_val.
    + unfold json.IsSurrogate. apply andb_false_iff. left.
      apply Z.leb_gt. arith.
Qed.

Lemma DecodeRune_error_or_wide (c : ascii) (t : string) (r : Z) (n : nat) :
  0x80 <= byte_val c ->
  utf8.DecodeRune (String c t) = (r, n) ->
  (n = 1%nat /\ r = utf8.RuneError) \/ (2 <= n)%nat.
Proof.
  intros Hc. rewrite DecodeRune_decode4. intros Hd.
  apply decode4_inv in Hd; [|apply byte_val_range]. lia.
Qed.

(** What [appendString] writes for one rune from [utf8.RuneSelf] on is
    read back as the encoding of that rune. *)
Lemma scan_string_wide_piece (f : nat) (c : ascii) (t X : string) (r : Z)
    (size : nat) :
  0x80 <= byte_val c ->
  utf8.DecodeRune (String c t) = (r, size) ->
  json.scan_string (S f)
    ((if (r =? utf8.RuneError) && (size =? 1)%nat then backslash ++ "ufffd"
      else if (r =? 0x2028) || (r =? 0x2029) then
        backslash ++ "u202" ++ json.hex (Z.land r 0xF)
      else take size (String c t)) ++ X) =
  match json.scan_string f X with
  | Some (t', s') => Some (utf8.EncodeRune r ++ t', s')
  | None => None
  end.
Proof.
  intros Hc Hd.
  destruct ((r =? utf8.RuneError) && (size =? 1)%nat) eqn:Herr.
  { apply andb_true_iff in Herr as [Hr _]. apply Z.eqb_eq in Hr. subst r.
    change (backslash ++ "ufffd")
      with (backslash ++ "u" ++ json.hex 15 ++ json.hex 15 ++ json.hex 15 ++
            json.hex 13).
    rewrite !app_assoc_string.
    rewrite (scan_string_u f 15 15 15 13) by (try lia; reflexivity).
    reflexivity. }
  destruct (Z.eqb_spec r 0x2028) as [E|E].
  { subst r. cbn [orb].
    change (backslash ++ "u202" ++ json.hex (Z.land 8232 15))
      with (backslash ++ "u" ++ json.hex 2 ++ json.hex 0 ++ json.hex 2 ++
            json.hex 8).
    rewrite !app_assoc_string.
    rewrite (scan_string_u f 2 0 2 8) by (try lia; reflexivity).
    reflexivity. }
  destruct (Z.eqb_spec r 0x2029) as [E'|E'].
  { subst r. cbn [orb].
    change (backslash ++ "u202" ++ json.hex (Z.land 8233 15))
      with (backslash ++ "u" ++ json.hex 2 ++ json.hex 0 ++ json.hex 2 ++
            json.hex 9).
    rewrite !app_assoc_string.
    rewrite (scan_string_u f 2 0 2 9) by (try lia; reflexivity).
    reflexivity. }
  cbn [orb].
  pose proof (DecodeRune_size c t r size Hd) as Hn.
  assert (Hwide : ~ (0x80 <= byte_val c /\ size = 1%nat)).
  { intros [_ ->].
    destruct (DecodeRune_error_or_wide c t r 1 Hc Hd) as [[_ ->]|]; [|lia].
    now rewrite Z.eqb_refl in Herr. }
  pose proof (DecodeRune_prefix c t X r size Hd Hwide) as Hp.
  destruct size as [|size]; [lia|].
  unfold take in *. cbn [substring String.append] in *.
  rewrite scan_string_raw by exact Hc. rewrite Hp.
  cbn [drop]. fold (take size t).
  replace (drop size (take size t ++ X)) with X; [reflexivity|].
  rewrite <- (drop_app_length (take size t) X) at 1.
  rewrite length_take by (simpl in Hn; lia). reflexivity.
Qed.

(** Scanning what [appendString] wrote gives the coerced string. *)
Lemma scan_string_appendString_loop (n : nat) (s rest : string) (f : nat) :
  (String.length s <= n)%nat ->
  (String.length (json.appendString_loop n s) < f)%nat ->
  json.scan_string f (json.appendString_loop n s ++ dquote ++ rest) =
  Some (utf8.ToValid_loop n s, rest).
Proof.
  revert s rest f. induction n as [|n IH]; intros s rest f Hs Hf.
  - destruct f as [|f]; [lia|]. reflexivity.
  - destruct s as [|c t].
    + destruct f as [|f]; [lia|]. reflexivity.
    + cbn [json.appendString_loop utf8.ToValid_loop] in *.
      unfold utf8.RuneSelf in *.
      destruct (Z.ltb_spec (byte_val c) 128) as [Hc|Hc].
      * assert (Hd : utf8.DecodeRune (String c t) = (byte_val c, 1%nat)).
        { rewrite DecodeRune_decode4. apply decode4_ascii.
          pose proof (byte_val_range c). lia. }
        rewrite Hd. cbn [drop].
        pose proof (byte_val_range c) as Hb.
        rewrite EncodeRune_1 by lia. cbn [chr String.append].
        rewrite byte_byte_val.
        assert (Hpiece :
          (if json.htmlSafeSet (byte_val c)
           then String c (json.appendString_loop n t)
           else json.escape_byte (byte_val c) ++ json.appendString_loop n t) =
          (if json.htmlSafeSet (byte_val c) then String c EmptyString
           else json.escape_byte (byte_val c)) ++ json.appendString_loop n t)
          by (destruct (json.htmlSafeSet (byte_val c)); reflexivity).
        rewrite Hpiece in *. rewrite app_assoc_string.
        destruct f as [|f]; [lia|].
        rewrite scan_string_ascii_piece by lia.
        rewrite IH; [reflexivity | simpl in Hs; lia |].
        rewrite length_app in Hf.
        match type of Hf with
        | (String.length ?p + _ < _)%nat =>
          assert (1 <= String.length p)%nat; [|lia]
        end.
        destruct (json.htmlSafeSet (byte_val c)); [simpl; lia|].
        unfold json.escape_byte.
        repeat match goal with
               | |- context [if ?b then _ else _] => destruct b
               end; simpl; lia.
      * destruct (utf8.DecodeRune (String c t)) as [r size] eqn:Hd.
        pose proof (DecodeRune_size c t r size Hd) as Hn.
        assert (Hpiece :
          (if (r =? utf8.RuneError) && (size =? 1)%nat
           then backslash ++ "ufffd" ++
                json.appendString_loop n (drop size (String c t))
           else if (r =? 8232) || (r =? 8233)
             then backslash ++ "u202" ++ json.hex (Z.land r 15) ++
                  json.appendString_loop n (drop size (String c t))
             else take size (String c t) ++
                  json.appendString_loop n (drop size (String c t))) =
          (if (r =? utf8.RuneError) && (size =? 1)%nat then backslash ++ "ufffd"
           else if (r =? 0x2028) || (r =? 0x2029) then
             backslash ++ "u202" ++ json.hex (Z.land r 0xF)
           else take size (String c t)) ++
          json.appendString_loop n (drop size (String c t))).
        { destruct ((r =? utf8.RuneError) && (size =? 1)%nat); [reflexivity|].
          destruct ((r =? 8232) || (r =? 8233)); [|reflexivity].
          now rewrite !app_assoc_string. }
        rewrite Hpiece in *. rewrite app_assoc_string.
        destruct f as [|f]; [lia|].
        rewrite (scan_string_wide_piece f c t _ r size Hc Hd).
        rewrite IH; [reflexivity | rewrite length_drop; simpl in *; lia |].
        rewrite length_app in Hf.
        match type of Hf with
        | (String.length ?p + _ < _)%nat =>
          assert (1 <= String.length p)%nat; [|lia]
        end.
        destruct ((r =? utf8.RuneError) && (size =? 1)%nat); [simpl; lia|].
        destruct ((r =? 8232) || (r =? 8233)); [simpl; lia|].
        rewrite length_take; lia.
Qed.

(** A string literal written by [appendString] is read back, up to the
    coercion to well-formed UTF-8. *)
Lemma scan_string_appendString (s rest : string) (f : nat) :
  (String.length (json.appendString s) <= S f)%nat ->
  exists body,
    json.appendString s ++ rest = dquote ++ body /\
    json.scan_string f body = Some (utf8.ToValid s, rest).
Proof.
  intros Hf. unfold json.appendString in *.
  exists (json.appendString_loop (String.length s) s ++ dquote ++ rest).
  split; [now rewrite !app_assoc_string|].
  apply scan_string_appendString_loop; [lia|].
  cbn [dquote chr String.append String.length] in Hf.
  rewrite length_app in Hf. simpl in Hf. lia.
Qed.


(** ** Numbers *)

Lemma byte_val_digit (d : Z) :
  0 <= d <= 9 -> byte_val (strconv.digit d) = 48 + d.
Proof. intros H. unfold strconv.digit. apply byte_val_byte. lia. Qed.

Lemma is_digit_spec (c : ascii) :
  strconv.is_digit c = true <-> 48 <= byte_val c <= 57.
Proof.
  unfold strconv.is_digit. rewrite andb_true_iff, !Z.leb_le. tauto.
Qed.

Lemma parseDigits_app (D E : string) (a : Z) :
  strconv.parseDigits (D ++ E) a =
  match strconv.parseDigits D a with
  | Some v => strconv.parseDigits E v
  | None => None
  end.
Proof.
  revert a. induction D as [|c D IH]; intros a; [reflexivity|].
  cbn [String.append strconv.parseDigits].
  destruct (strconv.is_digit c); [apply IH | reflexivity].
Qed.

(** The digits written by [formatBits]: they are decimal digits, without a
    leading zero except for zero itself, and they read back as [u]. *)
Lemma formatBits_spec (fuel : nat) (u : Z) (acc : string) :
  (1 <= fuel)%nat ->
  0 <= u < 10 ^ Z.of_nat fuel ->
  exists D,
    strconv.formatBits fuel u acc = D ++ acc /\
    all_digits D = true /\
    (u = 0 -> D = "0") /\
    (0 < u -> leading_nonzero D) /\
    forall a, strconv.parseDigits D a =
              Some (a * 10 ^ Z.of_nat (String.length D) + u).
Proof.
  revert u acc. induction fuel as [|fuel IH]; intros u acc Hfuel Hu.
  - lia.
  - cbn [strconv.formatBits].
    destruct (Z.ltb_spec u 10) as [Hlt|Hge].
    + exists (String (strconv.digit (u mod 10)) EmptyString).
      rewrite Z.mod_small by lia.
      assert (Hd : byte_val (strconv.digit u) = 48 + u)
        by (apply byte_val_digit; lia).
      assert (Hisd : strconv.is_digit (strconv.digit u) = true)
        by (apply is_digit_spec; lia).
      split; [reflexivity|]. split; [simpl; now rewrite Hisd|].
      split; [intros ->; reflexivity|].
      split; [intros Hpos; simpl; lia|].
      intros a. cbn [strconv.parseDigits String.length]. rewrite Hisd, Hd.
      f_equal. change (10 ^ Z.of_nat 1) with 10. lia.
    + assert (Hf : 0 <= u / 10 < 10 ^ Z.of_nat fuel).
      { rewrite Nat2Z.inj_succ, Z.pow_succ_r in Hu by lia. arith. }
      assert (Hfuel' : (1 <= fuel)%nat).
      { destruct fuel; [|lia]. change (10 ^ Z.of_nat 0) with 1 in Hf. arith. }
      destruct (IH (u / 10) (String (strconv.digit (u mod 10)) acc) Hfuel' Hf)
        as (D & HD & Hall & _ & Hlead & Hparse).
      exists (D ++ String (strconv.digit (u mod 10)) EmptyString).
      assert (Hd : byte_val (strconv.digit (u mod 10)) = 48 + u mod 10)
        by (apply byte_val_digit; arith).
      assert (Hisd : strconv.is_digit (strconv.digit (u mod 10)) = true)
        by (apply is_digit_spec; arith).
      split; [rewrite HD, app_assoc_string; reflexivity|].
      split.
      { clear - Hall Hisd. induction D as [|c D IHD]; simpl in *.
        - now rewrite Hisd.
        - apply andb_true_iff in Hall as [-> Hall]. now apply IHD. }
      split; [intros ->; lia|].
      split.
      { intros _. assert (Hq : 0 < u / 10) by arith.
        specialize (Hlead Hq). destruct D; [contradiction | exact Hlead]. }
      intros a. rewrite parseDigits_app, Hparse.
      cbn [strconv.parseDigits]. rewrite Hisd, Hd. f_equal.
      rewrite length_app. cbn [String.length].
      replace (Z.of_nat (String.length D + 1)) with (Z.succ (Z.of_nat (String.length D)))
        by lia.
      rewrite Z.pow_succ_r by lia.
      pose proof (Z.div_mod u 10). nia.
Qed.

Lemma span_digits_app (D rest : string) :
  all_digits D = true -> ends_number rest ->
  json.span_digits (D ++ rest) = (D, rest).
Proof.
  intros Hall Hend. induction D as [|c D IH].
  - destruct rest as [|x rest]; [reflexivity|].
    destruct Hend as (Hx & _). cbn [String.append json.span_digits].
    now rewrite Hx.
  - simpl in Hall. apply andb_true_iff in Hall as [Hc Hall].
    cbn [String.append json.span_digits]. rewrite Hc, (IH Hall). reflexivity.
Qed.

(** The tail of a number literal that has neither a fraction nor an
    exponent. *)
Lemma scan_number_digits (sign : bool) (D rest : string) :
  all_digits D = true ->
  D = "0" \/ leading_nonzero D ->
  ends_number rest ->
  json.scan_number ((if sign then "-" else EmptyString) ++ D ++ rest) =
  Some ((if sign then "-" else EmptyString) ++ D, rest).
Proof.
  intros Hall Hlead Hend.
  assert (Htail : forall ip : string,
    match
      match rest with
      | String c s' =>
        if byte_val c =? 46 then
          match json.span_digits s' with
          | (EmptyString, _) => None
          | (ds, r) => Some (String c ds, r)
          end
        else Some (EmptyString, rest)
      | EmptyString => Some (EmptyString, rest)
      end
    with
    | None => None
    | Some (fp, s3) =>
      match
        match s3 with
        | String c s' =>
          if (byte_val c =? 101) || (byte_val c =? 69) then
            let '(sg, s'') :=
              match s' with
              | String g t =>
                if (byte_val g =? 43) || (byte_val g =? 45)
                then (String g EmptyString, t)
                else (EmptyString, s')
              | EmptyString => (EmptyString, s')
              end in
            match json.span_digits s'' with
            | (EmptyString, _) => None
            | (ds, r) => Some (String c (sg ++ ds), r)
            end
          else Some (EmptyString, s3)
        | EmptyString => Some (EmptyString, s3)
        end
      with
      | None => None
      | Some (ep, s4) =>
        Some ((if sign then "-" else EmptyString) ++ ip ++ fp ++ ep, s4)
      end
    end = Some ((if sign then "-" else EmptyString) ++ ip, rest)).
  { intros ip. destruct rest as [|x rest'].
    - now rewrite !app_empty_r.
    - destruct Hend as (_ & H46 & H101 & H69).
      apply Z.eqb_neq in H46, H101, H69. rewrite H46, H101, H69.
      cbn [orb]. now rewrite !app_empty_r. }
  assert (Hnosign : forall c D', D = String c D' -> (byte_val c =? 45) = false).
  { intros c D' ->. simpl in Hall. apply andb_true_iff in Hall as [Hc _].
    apply is_digit_spec in Hc. apply Z.eqb_neq. lia. }
  unfold json.scan_number.
  destruct Hlead as [-> | Hlead].
  - destruct sign; cbn [String.append]; apply (Htail "0").
  - destruct D as [|c D']; [contradiction|].
    simpl in Hlead, Hall. apply andb_true_iff in Hall as [Hc Hall].
    destruct sign; cbn [String.append].
    + change (byte_val "-" =? 45) with true. cbv iota beta.
      destruct (Z.eqb_spec (byte_val c) 48); [lia|].
      rewrite Hc, (span_digits_app D' rest Hall Hend).
      apply (Htail (String c D')).
    + rewrite (Hnosign c D' eq_refl). cbv iota beta.
      destruct (Z.eqb_spec (byte_val c) 48); [lia|].
      rewrite Hc, (span_digits_app D' rest Hall Hend).
      apply (Htail (String c D')).
Qed.

(** A 64-bit integer written by [FormatInt] is scanned as one number
    literal and parsed back by [ParseInt]. *)
Lemma FormatInt_round_trip (i : Z) (rest : string) :
  - 2 ^ 63 <= i < 2 ^ 63 ->
  ends_number rest ->
  json.scan_number (strconv.FormatInt i ++ rest) = Some (strconv.FormatInt i, rest) /\
  strconv.ParseInt (strconv.FormatInt i) = Some i /\
  exists c D, strconv.FormatInt i = String c D /\
              (byte_val c =? 45) || strconv.is_digit c = true.
Proof.
  intros Hi Hend. unfold strconv.FormatInt.
  change (2 ^ 63) with 9223372036854775808 in Hi.
  destruct (Z.ltb_spec i 0) as [Hneg|Hpos].
  - destruct (formatBits_spec 20 (- i) EmptyString) as (D & HD & Hall & _ & Hlead & Hp).
    { lia. }
    { change (10 ^ Z.of_nat 20) with 100000000000000000000. lia. }
    rewrite HD, app_empty_r. specialize (Hlead ltac:(lia)).
    split; [|split].
    + apply (scan_number_digits true D rest Hall (or_intror Hlead) Hend).
    + unfold strconv.ParseInt. change (byte_val "-" =? 45) with true.
      destruct D as [|c D']; [contradiction|].
      rewrite Hp. replace (0 * 10 ^ Z.of_nat (String.length (String c D')) + - i)
        with (- i) by lia.
      replace (- - i) with i by lia.
      change (2 ^ 63) with 9223372036854775808.
      rewrite (proj2 (Z.leb_le _ i)) by lia.
      rewrite (proj2 (Z.ltb_lt i _)) by lia. reflexivity.
    + exists "-"%char, D. split; reflexivity.
  - destruct (formatBits_spec 20 i EmptyString) as (D & HD & Hall & Hz & Hlead & Hp).
    { lia. }
    { change (10 ^ Z.of_nat 20) with 100000000000000000000. lia. }
    rewrite HD, app_empty_r.
    assert (Hshape : D = "0" \/ leading_nonzero D).
    { destruct (Z.eq_dec i 0) as [E|E]; [left; auto | right; apply Hlead; lia]. }
    assert (Hfirst : exists c D', D = String c D' /\ strconv.is_digit c = true).
    { destruct D as [|c D']; [destruct Hshape; [discriminate | contradiction]|].
      simpl in Hall. apply andb_true_iff in Hall as [Hc _]. eauto. }
    destruct Hfirst as (c & D' & -> & Hc).
    split; [|split].
    + apply (scan_number_digits false (String c D') rest Hall Hshape Hend).
    + unfold strconv.ParseInt.
      pose proof (proj1 (is_digit_spec c) Hc) as Hr.
      destruct (Z.eqb_spec (byte_val c) 45); [lia|].
      destruct (Z.eqb_spec (byte_val c) 43); [lia|].
      rewrite Hp.
      replace (0 * 10 ^ Z.of_nat (String.length (String c D')) + i) with i by lia.
      change (2 ^ 63) with 9223372036854775808.
      rewrite (proj2 (Z.leb_le _ i)) by lia.
      rewrite (proj2 (Z.ltb_lt i _)) by lia. reflexivity.
    + exists c, D'. split; [reflexivity|]. rewrite Hc. apply orb_true_r.
Qed.


(** ** Values and objects *)

Lemma scan_string_body (s rest : string) :
  json.appendString s ++ rest =
    dquote ++ (json.appendString_loop (String.length s) s ++ dquote ++ rest) /\
  json.scan_string
    (String.length (json.appendString_loop (String.length s) s ++ dquote ++ rest))
    (json.appendString_loop (String.length s) s ++ dquote ++ rest)
  = Some (utf8.ToValid s, rest).
Proof.
  split.
  - unfold json.appendString. now rewrite !app_assoc_string.
  - apply scan_string_appendString_loop; [lia|].
    rewrite !length_app. simpl. lia.
Qed.

Lemma scan_value_string (f : nat) (d : Z) (s rest : string) :
  json.scan_value (S f) d (json.appendString s ++ rest) =
  Some (json.Str (utf8.ToValid s), rest).
Proof.
  destruct (scan_string_body s rest) as [-> Hscan].
  set (body := json.appendString_loop (String.length s) s ++ dquote ++ rest) in *.
  clearbody body.
  cbn [dquote chr String.append json.scan_value].
  change (byte_val (byte 34)) with 34. cbn [Z.eqb Pos.eqb].
  now rewrite Hscan.
Qed.

Lemma scan_value_number (f : nat) (d i : Z) (rest : string) :
  int64 i -> ends_number rest ->
  json.scan_value (S f) d (strconv.FormatInt i ++ rest) =
  Some (json.Number (strconv.FormatInt i), rest).
Proof.
  intros Hi Hend.
  destruct (FormatInt_round_trip i rest Hi Hend) as (Hscan & _ & c & D & HF & Hc).
  rewrite HF in *. cbn [String.append json.scan_value] in *.
  assert (Hb : byte_val c = 45 \/ 48 <= byte_val c <= 57).
  { apply orb_true_iff in Hc as [Hc|Hc].
    - left. now apply Z.eqb_eq.
    - right. now apply is_digit_spec. }
  destruct (Z.eqb_spec (byte_val c) 123); [lia|].
  destruct (Z.eqb_spec (byte_val c) 91); [lia|].
  destruct (Z.eqb_spec (byte_val c) 34); [lia|].
  rewrite Hc, Hscan. reflexivity.
Qed.

(** One member of an object, written as [MarshalIndent] writes it. *)
Lemma scan_members_member (f : nat) (d : Z) (name V rest : string)
    (v : json.value) :
  skip_space_id V ->
  json.scan_value f d (V ++ rest) = Some (v, rest) ->
  json.scan_members (S f) d (json.appendString name ++ ": " ++ V ++ rest) =
  match json.skip_space rest with
  | String c3 s4 =>
    if byte_val c3 =? 44 then
      match json.scan_members f d (json.skip_space s4) with
      | Some (ms, s5) => Some ((utf8.ToValid name, v) :: ms, s5)
      | None => None
      end
    else if byte_val c3 =? 125 then Some ([(utf8.ToValid name, v)], s4)
    else None
  | EmptyString => None
  end.
Proof.
  intros HV Hval.
  destruct (scan_string_body name (": " ++ V ++ rest)) as [-> Hscan].
  set (body := json.appendString_loop (String.length name) name ++ dquote ++
               ": " ++ V ++ rest) in *.
  clearbody body.
  cbn [dquote chr String.append json.scan_members].
  change (byte_val (byte 34)) with 34. cbn [Z.eqb Pos.eqb].
  rewrite Hscan. cbn [json.skip_space String.append].
  change (json.is_space (byte_val ":")) with false. cbv iota.
  change (byte_val ":" =? 58) with true. cbv iota.
  cbn [json.skip_space].
  change (json.is_space (byte_val " ")) with true. cbv iota.
  rewrite (HV rest), Hval. reflexivity.
Qed.

Lemma skip_space_id_appendString (s : string) : skip_space_id (json.appendString s).
Proof.
  intros rest. unfold json.appendString. rewrite !app_assoc_string. reflexivity.
Qed.

Lemma skip_space_id_FormatInt (i : Z) : int64 i -> skip_space_id (strconv.FormatInt i).
Proof.
  intros Hi rest.
  destruct (FormatInt_round_trip i EmptyString Hi I) as (_ & _ & c & D & -> & Hc).
  cbn [String.append json.skip_space].
  assert (Hb : byte_val c = 45 \/ 48 <= byte_val c <= 57).
  { apply orb_true_iff in Hc as [Hc|Hc].
    - left. now apply Z.eqb_eq.
    - right. now apply is_digit_spec. }
  unfold json.is_space.
  destruct (Z.eqb_spec (byte_val c) 32); [lia|].
  destruct (Z.eqb_spec (byte_val c) 9); [lia|].
  destruct (Z.eqb_spec (byte_val c) 13); [lia|].
  destruct (Z.eqb_spec (byte_val c) 10); [lia|].
  reflexivity.
Qed.

(** The text written by [MarshalIndent], member by member. *)
Lemma MarshalIndent_members (c : config.Config) :
  config.MarshalIndent c =
  "{" ++ newline ++ "  " ++
  json.appendString "space" ++ ": " ++ json.appendString (config.Space c) ++
  ("," ++ newline ++ "  " ++
   json.appendString "access_token" ++ ": " ++
   json.appendString (config.AccessToken c) ++
   ("," ++ newline ++ "  " ++
    json.appendString "refresh_token" ++ ": " ++
    json.appendString (config.RefreshToken c) ++
    ("," ++ newline ++ "  " ++
     json.appendString "expires_at" ++ ": " ++
     strconv.FormatInt (config.ExpiresAt c) ++ (newline ++ "}")))).
Proof.
  unfold config.MarshalIndent, config.member.
  rewrite !app_assoc_string. reflexivity.
Qed.

(** Scanning the text written by [MarshalIndent]. *)
Lemma scan_value_MarshalIndent (c : config.Config) (f : nat) :
  int64 (config.ExpiresAt c) ->
  json.scan_value (S (S (S (S (S (S f)))))) 0 (config.MarshalIndent c) =
  Some (json.Object
          [("space", json.Str (utf8.ToValid (config.Space c)));
           ("access_token", json.Str (utf8.ToValid (config.AccessToken c)));
           ("refresh_token", json.Str (utf8.ToValid (config.RefreshToken c)));
           ("expires_at", json.Number (strconv.FormatInt (config.ExpiresAt c)))],
        EmptyString).
Proof.
  intros Hi. rewrite MarshalIndent_members.
  set (m4 := json.appendString "expires_at" ++ ": " ++
             strconv.FormatInt (config.ExpiresAt c) ++ (newline ++ "}")).
  set (m3 := json.appendString "refresh_token" ++ ": " ++
             json.appendString (config.RefreshToken c) ++
             ("," ++ newline ++ "  " ++ m4)).
  set (m2 := json.appendString "access_token" ++ ": " ++
             json.appendString (config.AccessToken c) ++
             ("," ++ newline ++ "  " ++ m3)).
  set (m1 := json.appendString "space" ++ ": " ++
             json.appendString (config.Space c) ++
             ("," ++ newline ++ "  " ++ m2)).
  assert (H4 : json.scan_members (S (S f)) 1 m4 =
               Some ([("expires_at",
                       json.Number (strconv.FormatInt (config.ExpiresAt c)))],
                     EmptyString)).
  { unfold m4. rewrite (scan_members_member _ _ _ _ _
      (json.Number (strconv.FormatInt (config.ExpiresAt c)))).
    - reflexivity.
    - now apply skip_space_id_FormatInt.
    - apply scan_value_number; [exact Hi|]. cbn. repeat split; discriminate. }
  assert (Hskip : forall m, skip_space_id m ->
            json.skip_space ("," ++ newline ++ "  " ++ m) =
            String "," (newline ++ "  " ++ m) /\
            json.skip_space (newline ++ "  " ++ m) = m).
  { intros m Hm. split; [reflexivity|].
    cbn [newline chr String.append json.skip_space].
    change (json.is_space (byte_val (byte 10))) with true.
    change (json.is_space (byte_val " ")) with true. cbv iota.
    rewrite <- (app_empty_r m). apply Hm. }
  assert (Hm4 : skip_space_id m4).
  { intros rest. unfold m4. rewrite !app_assoc_string.
    apply skip_space_id_appendString. }
  assert (H3 : json.scan_members (S (S (S f))) 1 m3 =
               Some ([("refresh_token",
                       json.Str (utf8.ToValid (config.RefreshToken c)));
                      ("expires_at",
                       json.Number (strconv.FormatInt (config.ExpiresAt c)))],
                     EmptyString)).
  { unfold m3. rewrite (scan_members_member _ _ _ _ _
      (json.Str (utf8.ToValid (config.RefreshToken c)))).
    - destruct (Hskip m4 Hm4) as [-> ->].
      change (byte_val "," =? 44) with true. cbv iota. rewrite H4. reflexivity.
    - apply skip_space_id_appendString.
    - apply scan_value_string. }
  assert (Hm3 : skip_space_id m3).
  { intros rest. unfold m3. rewrite !app_assoc_string.
    apply skip_space_id_appendString. }
  assert (H2 : json.scan_members (S (S (S (S f)))) 1 m2 =
               Some ([("access_token",
                       json.Str (utf8.ToValid (config.AccessToken c)));
                      ("refresh_token",
                       json.Str (utf8.ToValid (config.RefreshToken c)));
                      ("expires_at",
                       json.Number (strconv.FormatInt (config.ExpiresAt c)))],
                     EmptyString)).
  { unfold m2. rewrite (scan_members_member _ _ _ _ _
      (json.Str (utf8.ToValid (config.AccessToken c)))).
    - destruct (Hskip m3 Hm3) as [-> ->].
      change (byte_val "," =? 44) with true. cbv iota. rewrite H3. reflexivity.
    - apply skip_space_id_appendString.
    - apply scan_value_string. }
  assert (Hm2 : skip_space_id m2).
  { intros rest. unfold m2. rewrite !app_assoc_string.
    apply skip_space_id_appendString. }
  assert (H1 : json.scan_members (S (S (S (S (S f))))) 1 m1 =
               Some ([("space", json.Str (utf8.ToValid (config.Space c)));
                      ("access_token",
                       json.Str (utf8.ToValid (config.AccessToken c)));
                      ("refresh_token",
                       json.Str (utf8.ToValid (config.RefreshToken c)));
                      ("expires_at",
                       json.Number (strconv.FormatInt (config.ExpiresAt c)))],
                     EmptyString)).
  { unfold m1. rewrite (scan_members_member _ _ _ _ _
      (json.Str (utf8.ToValid (config.Space c)))).
    - destruct (Hskip m2 Hm2) as [-> ->].
      change (byte_val "," =? 44) with true. cbv iota. rewrite H2. reflexivity.
    - apply skip_space_id_appendString.
    - apply scan_value_string. }
  assert (Hm1 : skip_space_id m1).
  { intros rest. unfold m1. rewrite !app_assoc_string.
    apply skip_space_id_appendString. }
  clearbody m1. clear m2 m3 m4 H2 H3 H4 Hm2 Hm3 Hm4.
  change ("{" ++ newline ++ "  " ++ m1) with (String "{" (newline ++ "  " ++ m1)).
  cbn [json.scan_value].
  change (byte_val "{" =? 123) with true. cbv iota.
  change (json.maxNestingDepth <? 0 + 1) with false. cbv iota.
  destruct (Hskip m1 Hm1) as [_ ->].
  pose proof (Hm1 EmptyString) as Hfirst. rewrite app_empty_r in Hfirst.
  destruct m1 as [|c' m1']; [discriminate H1|].
  assert (Hc' : (byte_val c' =? 125) = false).
  { cbn [json.scan_members] in H1.
    destruct (Z.eqb_spec (byte_val c') 34) as [E|E]; [|discriminate H1].
    rewrite E. reflexivity. }
  rewrite Hc'. change (0 + 1) with 1. rewrite H1. reflexivity.
Qed.

Lemma MarshalIndent_length (c : config.Config) :
  exists f, String.length (config.MarshalIndent c) = S (S (S (S (S (S f))))).
Proof.
  rewrite MarshalIndent_members. cbn [String.append String.length newline chr].
  eexists. reflexivity.
Qed.

(** [Unmarshal] reads what [MarshalIndent] wrote: the credential with its
    strings coerced to well-formed UTF-8. *)
Lemma Unmarshal_MarshalIndent (c : config.Config) :
  int64 (config.ExpiresAt c) ->
  config.Unmarshal (config.MarshalIndent c) = Ok (coerce c).
Proof.
  intros Hi. unfold config.Unmarshal, json.Unmarshal, json.scan_document.
  destruct (MarshalIndent_length c) as [f ->].
  assert (Hid : json.skip_space (config.MarshalIndent c) = config.MarshalIndent c)
    by (rewrite MarshalIndent_members; reflexivity).
  rewrite Hid, (scan_value_MarshalIndent c f Hi).
  cbn [json.skip_space json.decode_struct json.decode_members].
  change (json.find_field config.json_names "space") with (Some 0%nat).
  change (json.find_field config.json_names "access_token") with (Some 1%nat).
  change (json.find_field config.json_names "refresh_token") with (Some 2%nat).
  change (json.find_field config.json_names "expires_at") with (Some 3%nat).
  cbn [config.json_set json.as_string json.as_int config.Space
       config.AccessToken config.RefreshToken config.ExpiresAt config.zero].
  destruct (FormatInt_round_trip (config.ExpiresAt c) EmptyString Hi I)
    as (_ & -> & _).
  reflexivity.
Qed.


(** ** Well-formed strings *)

Lemma substring_0_0 (s : string) : substring 0 0 s = EmptyString.
Proof. destruct s; reflexivity. Qed.

Lemma chr_byte_val (c : ascii) : chr (byte_val c) = String c EmptyString.
Proof. unfold chr. now rewrite byte_byte_val. Qed.

Lemma byte_at_0_inv (t : string) :
  0 <= byte_at t 0 -> exists c t', t = String c t' /\ byte_at t 0 = byte_val c.
Proof.
  destruct t as [|c t']; cbn; [lia|]. intros _. eauto.
Qed.

(** A rune that is not an encoding error is encoded as the bytes it was
    decoded from. *)
Lemma EncodeRune_DecodeRune (c : ascii) (t : string) (r : Z) (n : nat) :
  utf8.DecodeRune (String c t) = (r, n) ->
  ~ (0x80 <= byte_val c /\ n = 1%nat) ->
  utf8.EncodeRune r = take n (String c t).
Proof.
  rewrite DecodeRune_decode4. intros Hd Hv.
  pose proof (byte_val_range c) as Hc.
  apply decode4_inv in Hd; [|exact Hc].
  pose proof (second_bounds_range (byte_val c)) as Hsb.
  unfold take.
  destruct Hd as [(-> & Hd) | [(-> & Hb0 & Hb1 & ->) |
                 [(-> & Hb0 & Hb1 & Hb2 & ->) |
                  (-> & Hb0 & Hb1 & Hb2 & Hb3 & ->)]]].
  - destruct Hd as [[Hlt ->] | [Hge _]]; [|exfalso; apply Hv; lia].
    rewrite EncodeRune_1 by lia. cbn [substring].
    now rewrite substring_0_0, chr_byte_val.
  - destruct (byte_at_0_inv t ltac:(lia)) as (c1 & t1 & -> & _).
    repeat (rewrite byte_at_S in * || rewrite byte_at_0 in * ).
    pose proof (byte_val_range c1).
    rewrite EncodeRune_2 by lia.
    replace (192 + ((byte_val c - 192) * 64 + (byte_val c1 - 128)) / 64)
      with (byte_val c) by arith.
    replace (128 + ((byte_val c - 192) * 64 + (byte_val c1 - 128)) mod 64)
      with (byte_val c1) by arith.
    cbn [substring]. now rewrite substring_0_0, !chr_byte_val.
  - destruct (byte_at_0_inv t ltac:(lia)) as (c1 & t1 & -> & _).
    repeat (rewrite byte_at_S in * || rewrite byte_at_0 in * ).
    destruct (byte_at_0_inv t1 ltac:(lia)) as (c2 & t2 & -> & _).
    repeat (rewrite byte_at_S in * || rewrite byte_at_0 in * ).
    pose proof (byte_val_range c1). pose proof (byte_val_range c2).
    assert (Hr : 0x7FF < (byte_val c - 224) * 4096 + (byte_val c1 - 128) * 64 +
                         (byte_val c2 - 128) <= 0xFFFF /\
                 ~ (55296 <= (byte_val c - 224) * 4096 + (byte_val c1 - 128) * 64 +
                             (byte_val c2 - 128) <= 57343)).
    { unfold second_lo, second_hi in *.
      destruct (Z.eqb_spec (byte_val c) 224);
        destruct (Z.eqb_spec (byte_val c) 240);
        destruct (Z.eqb_spec (byte_val c) 237);
        destruct (Z.eqb_spec (byte_val c) 244); lia. }
    rewrite EncodeRune_3 by (unfold utf8.surrogateMin, utf8.surrogateMax; tauto).
    replace (224 + ((byte_val c - 224) * 4096 + (byte_val c1 - 128) * 64 +
                    (byte_val c2 - 128)) / 4096)
      with (byte_val c) by arith.
    replace (128 + (((byte_val c - 224) * 4096 + (byte_val c1 - 128) * 64 +
                     (byte_val c2 - 128)) / 64) mod 64)
      with (byte_val c1) by arith.
    replace (128 + ((byte_val c - 224) * 4096 + (byte_val c1 - 128) * 64 +
                    (byte_val c2 - 128)) mod 64)
      with (byte_val c2) by arith.
    cbn [substring]. now rewrite substring_0_0, !chr_byte_val.
  - destruct (byte_at_0_inv t ltac:(lia)) as (c1 & t1 & -> & _).
    repeat (rewrite byte_at_S in * || rewrite byte_at_0 in * ).
    destruct (byte_at_0_inv t1 ltac:(lia)) as (c2 & t2 & -> & _).
    repeat (rewrite byte_at_S in * || rewrite byte_at_0 in * ).
    destruct (byte_at_0_inv t2 ltac:(lia)) as (c3 & t3 & -> & _).
    repeat (rewrite byte_at_S in * || rewrite byte_at_0 in * ).
    pose proof (byte_val_range c1). pose proof (byte_val_range c2).
    pose proof (byte_val_range c3).
    assert (Hr : 0xFFFF < (byte_val c - 240) * 262144 + (byte_val c1 - 128) * 4096 +
                          (byte_val c2 - 128) * 64 + (byte_val c3 - 128)
                 <= utf8.MaxRune).
    { unfold second_lo, second_hi, utf8.MaxRune in *.
      destruct (Z.eqb_spec (byte_val c) 224);
        destruct (Z.eqb_spec (byte_val c) 240);
        destruct (Z.eqb_spec (byte_val c) 237);
        destruct (Z.eqb_spec (byte_val c) 244); lia. }
    rewrite EncodeRune_4 by exact Hr.
    replace (240 + ((byte_val c - 240) * 262144 + (byte_val c1 - 128) * 4096 +
                    (byte_val c2 - 128) * 64 + (byte_val c3 - 128)) / 262144)
      with (byte_val c) by arith.
    replace (128 + (((byte_val c - 240) * 262144 + (byte_val c1 - 128) * 4096 +
                     (byte_val c2 - 128) * 64 + (byte_val c3 - 128)) / 4096) mod 64)
      with (byte_val c1) by arith.
    replace (128 + (((byte_val c - 240) * 262144 + (byte_val c1 - 128) * 4096 +
                     (byte_val c2 - 128) * 64 + (byte_val c3 - 128)) / 64) mod 64)
      with (byte_val c2) by arith.
    replace (128 + ((byte_val c - 240) * 262144 + (byte_val c1 - 128) * 4096 +
                    (byte_val c2 - 128) * 64 + (byte_val c3 - 128)) mod 64)
      with (byte_val c3) by arith.
    cbn [substring]. now rewrite substring_0_0, !chr_byte_val.
Qed.

(** A string that [utf8.ValidString] accepts is left as it is by the
    coercion. *)
Lemma ValidString_loop_well_formed (f : nat) (s : string) :
  (String.length s <= f)%nat ->
  utf8.ValidString_loop f s = true -> well_formed s.
Proof.
  unfold well_formed. revert s. induction f as [|f IH]; intros s Hlen Hv.
  - destruct s; [reflexivity | simpl in Hlen; lia].
  - destruct s as [|c t]; [reflexivity|].
    cbn [utf8.ValidString_loop] in Hv.
    destruct (utf8.DecodeRune (String c t)) as [r n] eqn:Hd.
    destruct ((r =? utf8.RuneError) && (n =? 1)%nat) eqn:Herr; [discriminate|].
    pose proof (DecodeRune_size c t r n Hd) as Hn.
    rewrite (ToValid_cons c t r n Hd).
    rewrite IH; [| rewrite length_drop; simpl in *; lia | exact Hv].
    rewrite (EncodeRune_DecodeRune c t r n Hd); [apply take_drop|].
    intros [Hc ->].
    destruct (DecodeRune_error_or_wide c t r 1 Hc Hd) as [[_ ->]|]; [|lia].
    now rewrite Z.eqb_refl in Herr.
Qed.

Lemma ValidString_well_formed (s : string) :
  utf8.ValidString s = true -> well_formed s.
Proof. apply ValidString_loop_well_formed. lia. Qed.


(** ** Saving and loading *)

(** After a successful [Save], [Load] returns the credential as
    [encoding/json] wrote it. *)
Lemma Load_Save (E : Env) (c : config.Config) (st st' : State) :
  int64 (config.ExpiresAt c) ->
  config.Save E c st = (None, st') ->
  (forall configPath, config.GetConfigPath E = Ok configPath ->
                      configPath ∉ deny_read E) ->
  config.Load E st' = Ok (coerce c).
Proof.
  intros Hi Hsave Hread.
  destruct (Save_ok E c st st' Hsave) as (path & Hpath & Hfiles & _).
  unfold config.Load, os.ReadFile. rewrite Hpath.
  destruct (decide (path ∈ deny_read E)) as [Hin|_];
    [exfalso; exact (Hread path Hpath Hin)|].
  rewrite Hfiles, lookup_insert_eq.
  now rewrite Unmarshal_MarshalIndent.
Qed.

Lemma coerce_valid (c : config.Config) :
  well_formed (config.Space c) -> well_formed (config.AccessToken c) ->
  well_formed (config.RefreshToken c) -> coerce c = c.
Proof.
  unfold coerce, well_formed. intros -> -> ->. destruct c; reflexivity.
Qed.

(** C8. For every valid credential, a successful [Save] followed by [Load]
    returns the same credential, all four fields. *)
Theorem Load_Save_round_trip (E : Env) (c : config.Config) (st st' : State) :
  valid_credential c ->
  config.Save E c st = (None, st') ->
  (forall configPath, config.GetConfigPath E = Ok configPath ->
                      configPath ∉ deny_read E) ->
  config.Load E st' = Ok c.
Proof.
  intros (Hs & Ha & Hr & Hi) Hsave Hread.
  rewrite (Load_Save E c st st' Hi Hsave Hread).
  f_equal. apply coerce_valid; now apply ValidString_well_formed.
Qed.

Lemma Load_Save_round_trip_witness :
  config.Load (env_with always_expired (granting 3600))
    (snd (config.Save (env_with always_expired (granting 3600))
            (credential "access-1" "refresh-1" 1700003600000) empty_state))
  = Ok (credential "access-1" "refresh-1" 1700003600000).
Proof.
  apply (Load_Save_round_trip (env_with always_expired (granting 3600))
           (credential "access-1" "refresh-1" 1700003600000) empty_state).
  - repeat split; try reflexivity; unfold int64; simpl; lia.
  - reflexivity.
  - intros p _. vm_compute. set_solver.
Defined.

(** Without validity the strings come back coerced: a space that is the
    single byte [0xFF] is loaded as the replacement character. *)
Lemma Load_Save_invalid_space :
  config.Load (env_with always_expired (granting 3600))
    (snd (config.Save (env_with always_expired (granting 3600))
            {| config.Space := chr 0xFF; config.AccessToken := "a";
               config.RefreshToken := "r"; config.ExpiresAt := 0 |}
            empty_state))
  = Ok {| config.Space := chr 0xEF ++ chr 0xBF ++ chr 0xBD;
          config.AccessToken := "a"; config.RefreshToken := "r";
          config.ExpiresAt := 0 |}.
Proof. vm_compute. reflexivity. Qed.


(** ** What [Load] returns *)

Lemma unhex_range (b : Z) : -1 <= json.unhex b <= 15.
Proof.
  unfold json.unhex.
  destruct (Z.leb_spec 48 b); destruct (Z.leb_spec b 57); cbn [andb]; try lia;
    destruct (Z.leb_spec 97 b); destruct (Z.leb_spec b 102); cbn [andb]; try lia;
    destruct (Z.leb_spec 65 b); destruct (Z.leb_spec b 70); cbn [andb]; lia.
Qed.

Lemma getu4_range (s : string) : -1 <= json.getu4 s < 65536.
Proof.
  unfold json.getu4.
  destruct s as [|c0 [|c1 [|h0 [|h1 [|h2 [|h3 s]]]]]]; try lia.
  destruct (negb ((byte_val c0 =? 92) && (byte_val c1 =? 117))); [lia|].
  pose proof (unhex_range (byte_val h0)). pose proof (unhex_range (byte_val h1)).
  pose proof (unhex_range (byte_val h2)). pose proof (unhex_range (byte_val h3)).
  destruct (Z.ltb_spec (json.unhex (byte_val h0)) 0); cbn [orb]; [lia|].
  destruct (Z.ltb_spec (json.unhex (byte_val h1)) 0); cbn [orb]; [lia|].
  destruct (Z.ltb_spec (json.unhex (byte_val h2)) 0); cbn [orb]; [lia|].
  destruct (Z.ltb_spec (json.unhex (byte_val h3)) 0); cbn [orb]; lia.
Qed.

Lemma utf16_DecodeRune_range (r1 r2 : Z) :
  0 <= json.utf16_DecodeRune r1 r2 < 2 ^ 32.
Proof.
  unfold json.utf16_DecodeRune. change (2 ^ 32) with 4294967296.
  destruct (Z.leb_spec 55296 r1); destruct (Z.ltb_spec r1 56320);
    destruct (Z.leb_spec 56320 r2); destruct (Z.ltb_spec r2 57344);
    cbn [andb]; unfold utf8.RuneError; try lia.
  rewrite shiftl_10, lor_add_10; arith.
Qed.

Ltac scan_step H :=
  match type of H with
  | match json.scan_string ?f ?X with _ => _ end = Some _ =>
    let Hs := fresh "Hs" in
    destruct (json.scan_string f X) as [[? ?]|] eqn:Hs;
    [|discriminate H]; injection H as <- <-
  end.

(** Every string literal is scanned to a well-formed string. *)
Lemma scan_string_well_formed (f : nat) (s t rest : string) :
  json.scan_string f s = Some (t, rest) -> well_formed t.
Proof.
  revert s t rest. induction f as [|f IH]; intros s t rest H; [discriminate H|].
  destruct s as [|c s']; [discriminate H|].
  cbn [json.scan_string] in H.
  destruct (byte_val c =? 34); [inversion H; apply well_formed_empty|].
  destruct (byte_val c =? 92).
  { destruct s' as [|e s'']; [discriminate H|].
    pose proof (byte_val_range e) as He.
    destruct ((byte_val e =? 34) || (byte_val e =? 92) || (byte_val e =? 47)) eqn:Hk.
    { scan_step H. apply well_formed_ascii; [|eauto].
      repeat (apply orb_true_iff in Hk as [Hk|Hk]); apply Z.eqb_eq in Hk; lia. }
    destruct (byte_val e =? 98);
      [scan_step H; apply well_formed_ascii; [lia | eauto]|].
    destruct (byte_val e =? 102);
      [scan_step H; apply well_formed_ascii; [lia | eauto]|].
    destruct (byte_val e =? 110);
      [scan_step H; apply well_formed_ascii; [lia | eauto]|].
    destruct (byte_val e =? 114);
      [scan_step H; apply well_formed_ascii; [lia | eauto]|].
    destruct (byte_val e =? 116);
      [scan_step H; apply well_formed_ascii; [lia | eauto]|].
    destruct (byte_val e =? 117); [|discriminate H].
    pose proof (getu4_range (String c (String e s''))) as Hu.
    remember (json.getu4 (String c (String e s''))) as rr eqn:Hrr. clear Hrr.
    destruct (Z.ltb_spec rr 0); [discriminate H|].
    destruct (json.IsSurrogate rr).
    - match type of H with
      | context [negb ?b] => destruct b
      end; cbn [negb] in H; scan_step H.
      + apply (well_formed_rune utf8.RuneError); [|eauto].
        unfold utf8.RuneError. change (2 ^ 32) with 4294967296. lia.
      + apply well_formed_rune; [|eauto]. apply utf16_DecodeRune_range.
    - scan_step H. apply well_formed_rune; [|eauto].
      change (2 ^ 32) with 4294967296. lia. }
  destruct (byte_val c <? 32); [discriminate H|].
  destruct (Z.ltb_spec (byte_val c) utf8.RuneSelf) as [Hc|Hc].
  - scan_step H. unfold well_formed.
    rewrite ToValid_ascii by exact Hc. f_equal. eapply IH; eauto.
  - destruct (utf8.DecodeRune (String c s')) as [rr size] eqn:Hd.
    scan_step H. apply well_formed_rune; [|eauto].
    exact (DecodeRune_range c s' rr size Hd).
Qed.

Lemma scan_value_good (f : nat) (d : Z) (s rest : string) (v : json.value) :
  json.scan_value f d s = Some (v, rest) -> good_value v.
Proof.
  destruct f as [|f]; [discriminate|]. destruct s as [|c s']; [discriminate|].
  cbn [json.scan_value]. intros H.
  repeat match type of H with
  | (if ?b then _ else _) = Some _ => destruct b
  | match ?x with _ => _ end = Some _ =>
    let E := fresh "E" in destruct x eqn:E
  | (let '(_, _) := ?x in _) = Some _ =>
    let E := fresh "E" in destruct x eqn:E
  end; try discriminate H; inversion H; subst; cbn; auto.
  eapply scan_string_well_formed; eauto.
Qed.

Lemma scan_members_good (f : nat) (d : Z) (s rest : string)
    (ms : list (string * json.value)) :
  json.scan_members f d s = Some (ms, rest) ->
  Forall (fun kv => good_value (snd kv)) ms.
Proof.
  revert s rest ms. induction f as [|f IH]; intros s rest ms H; [discriminate H|].
  cbn [json.scan_members] in H.
  destruct s as [|c s']; [discriminate H|].
  destruct (byte_val c =? 34); [|discriminate H].
  destruct (json.scan_string (String.length s') s') as [[key s1]|]; [|discriminate H].
  destruct (json.skip_space s1) as [|c1 s2]; [discriminate H|].
  destruct (byte_val c1 =? 58); [|discriminate H].
  destruct (json.scan_value f d (json.skip_space s2)) as [[v s3]|] eqn:Hv;
    [|discriminate H].
  apply scan_value_good in Hv.
  destruct (json.skip_space s3) as [|c3 s4]; [discriminate H|].
  destruct (byte_val c3 =? 44).
  - destruct (json.scan_members f d (json.skip_space s4)) as [[ms' s5]|] eqn:Hm;
      [|discriminate H].
    inversion H; subst. constructor; [exact Hv | eapply IH; eauto].
  - destruct (byte_val c3 =? 125); [|discriminate H].
    inversion H; subst. constructor; [exact Hv | constructor].
Qed.

Lemma ParseInt_int64 (s : string) (v : Z) : strconv.ParseInt s = Some v -> int64 v.
Proof.
  unfold strconv.ParseInt, int64.
  match goal with
  | |- (let '(_, _) := ?x in _) = _ -> _ => destruct x as [neg ds]
  end.
  destruct ds as [|c ds]; [discriminate|].
  destruct (strconv.parseDigits (String c ds) 0) as [u|]; [|discriminate].
  match goal with
  | |- (if ?b then _ else _) = _ -> _ => destruct b eqn:E
  end; [|discriminate].
  intros H. injection H as <-.
  apply andb_true_iff in E as [E1 E2].
  apply Z.leb_le in E1. apply Z.ltb_lt in E2. lia.
Qed.

Lemma json_set_stable (i : nat) (v : json.value) (c c' : config.Config) :
  good_value v -> stable c -> config.json_set i v c = Some c' -> stable c'.
Proof.
  intros Hv (Hs & Ha & Hr & Hi) H. unfold config.json_set in H.
  unfold stable.
  destruct i as [|[|[|[|i]]]].
  - destruct v; cbn in *; try discriminate H; injection H as <-; cbn;
      repeat split; auto; unfold int64 in *; lia.
  - destruct v; cbn in *; try discriminate H; injection H as <-; cbn;
      repeat split; auto; unfold int64 in *; lia.
  - destruct v; cbn in *; try discriminate H; injection H as <-; cbn;
      repeat split; auto; unfold int64 in *; lia.
  - destruct v; cbn [json.as_int] in H; try discriminate H.
    + injection H as <-. cbn. repeat split; auto; unfold int64 in *; lia.
    + destruct (strconv.ParseInt literal) as [n|] eqn:Hp; [|discriminate H].
      injection H as <-. cbn. split; [|split; [|split]]; auto.
      eapply ParseInt_int64; eauto.
  - injection H as <-. repeat split; auto; unfold int64 in *; lia.
Qed.

Lemma decode_members_stable (ms : list (string * json.value))
    (c c' : config.Config) (e : option error) :
  Forall (fun kv => good_value (snd kv)) ms -> stable c ->
  json.decode_members config.json_names config.json_set ms c = (c', e) ->
  stable c'.
Proof.
  intros Hms. revert c c' e. induction Hms as [|[key v] ms Hv Hms IH];
    intros c c' e Hc H; cbn [json.decode_members] in H.
  - inversion H; subst. exact Hc.
  - destruct (json.find_field config.json_names key) as [i|]; [|eauto].
    destruct (config.json_set i v c) as [c1|] eqn:Hset.
    + eapply IH; [|exact H]. eapply json_set_stable; eauto.
    + destruct (json.decode_members config.json_names config.json_set ms c)
        as [c2 e2] eqn:Hd.
      inversion H; subst. eapply IH; eauto.
Qed.

Lemma stable_zero : stable config.zero.
Proof.
  repeat split; try reflexivity; unfold int64; cbn; lia.
Qed.

Lemma Unmarshal_stable (data : string) (c : config.Config) :
  config.Unmarshal data = Ok c -> stable c.
Proof.
  unfold config.Unmarshal, json.Unmarshal, json.scan_document.
  destruct (json.scan_value _ _ _) as [[v rest]|] eqn:Hv; [|discriminate].
  destruct (json.skip_space rest); [|discriminate].
  unfold json.decode_struct. destruct v; try discriminate.
  - intros H. inversion H. apply stable_zero.
  - destruct (json.decode_members _ _ members config.zero) as [c' [e|]] eqn:Hd;
      [discriminate|].
    intros H. inversion H; subst.
    eapply decode_members_stable; [|apply stable_zero|exact Hd].
    destruct (String.length data) as [|f]; [discriminate Hv|].
    destruct (json.skip_space data) as [|ch s']; [discriminate Hv|].
    cbn [json.scan_value] in Hv.
    repeat match type of Hv with
    | (if ?b then _ else _) = Some _ => destruct b
    | match ?x with _ => _ end = Some _ =>
      let E := fresh "E" in destruct x eqn:E
    | (let '(_, _) := ?x in _) = Some _ =>
      let E := fresh "E" in destruct x eqn:E
    end; try discriminate Hv; inversion Hv; subst; try constructor.
    eapply scan_members_good; eauto.
Qed.

(** A loaded credential is stable, and the config file can be read. *)
Lemma Load_stable (E : Env) (st : State) (c : config.Config) :
  config.Load E st = Ok c ->
  stable c /\
  forall configPath, config.GetConfigPath E = Ok configPath ->
                     configPath ∉ deny_read E.
Proof.
  unfold config.Load, os.ReadFile. intros H.
  destruct (config.GetConfigPath E) as [path|e]; [|discriminate H].
  destruct (decide (path ∈ deny_read E)) as [Hin|Hnin]; [discriminate H|].
  split; [|intros p Hp; inversion Hp; subst; exact Hnin].
  destruct (files st !! path) as [data|].
  - destruct (config.Unmarshal data) as [c'|e] eqn:Hu; [|discriminate H].
    inversion H; subst. eapply Unmarshal_stable; eauto.
  - cbn in H. inversion H. apply stable_zero.
Qed.


(** ** Logout *)

(** C10. For a stored credential: when both tokens are already empty,
    [Logout] returns the not-logged-in error and leaves the state as it is,
    so nothing is written; otherwise either the save fails, with the state
    unchanged unless the failure is that of the write itself, or [Logout]
    succeeds after one write and the stored credential has both tokens
    empty and the space and the expiry it had before. *)
Theorem Logout_clears_tokens (E : Env) (st : State) (c : config.Config) :
  config.Load E st = Ok c ->
  (config.AccessToken c = EmptyString /\ config.RefreshToken c = EmptyString ->
   auth.Logout E st = (Some (Errorf "not logged in" []), st)) /\
  (~ (config.AccessToken c = EmptyString /\ config.RefreshToken c = EmptyString) ->
   (exists e st1,
      auth.Logout E st =
        (Some (Errorf "failed to save config: %w" [ArgErr e]), st1) /\
      ((forall name no, e <> PathError "write" name no) -> st1 = st)) \/
   (fst (auth.Logout E st) = None /\
    config_writes (snd (auth.Logout E st)) = S (config_writes st) /\
    config.Load E (snd (auth.Logout E st)) =
    Ok {| config.Space := config.Space c;
          config.AccessToken := EmptyString;
          config.RefreshToken := EmptyString;
          config.ExpiresAt := config.ExpiresAt c |})).
Proof.
  intros HL. unfold auth.Logout. rewrite HL.
  destruct (Load_stable E st c HL) as ((Hs & _ & _ & Hi) & Hread).
  split.
  - intros [-> ->]. reflexivity.
  - intros Hne.
    assert (Hb : String.eqb (config.AccessToken c) EmptyString &&
                 String.eqb (config.RefreshToken c) EmptyString = false).
    { apply andb_false_iff.
      destruct (String.eqb_spec (config.AccessToken c) EmptyString) as [Ea|Ea];
        [|now left].
      destruct (String.eqb_spec (config.RefreshToken c) EmptyString) as [Er|Er];
        [|now right].
      exfalso. apply Hne. split; assumption. }
    rewrite Hb.
    match goal with |- context [config.Save E ?c' st] =>
      destruct (config.Save E c' st) as [r st1] eqn:Hsave end.
    destruct r as [e|].
    + left. exists e, st1. split; [reflexivity|].
      apply Save_frame in Hsave as (_ & _ & _ & _ & _ & _ & Hsame).
      exact (Hsame e eq_refl).
    + right. cbn [fst snd].
      destruct (Save_ok E _ st st1 Hsave) as (path & _ & _ & Hw).
      split; [reflexivity|]. split; [exact Hw|].
      pose proof (fun H => Load_Save E _ st st1 H Hsave Hread) as HLS.
      cbn in HLS. rewrite (HLS Hi).
      f_equal. apply coerce_valid; cbn; auto; apply well_formed_empty.
Qed.

Lemma Logout_clears_tokens_witness :
  fst (auth.Logout (env_with always_expired (granting 3600))
         (stored (credential "access-1" "refresh-1" 1700003600000))) = None /\
  config.Load (env_with always_expired (granting 3600))
    (snd (auth.Logout (env_with always_expired (granting 3600))
            (stored (credential "access-1" "refresh-1" 1700003600000))))
  = Ok {| config.Space := "demo.backlog.com";
          config.AccessToken := EmptyString;
          config.RefreshToken := EmptyString;
          config.ExpiresAt := 1700003600000 |}.
Proof.
  destruct (Logout_clears_tokens
              (env_with always_expired (granting 3600))
              (stored (credential "access-1" "refresh-1" 1700003600000))
              (credential "access-1" "refresh-1" 1700003600000))
    as [_ H].
  - vm_compute. reflexivity.
  - destruct H as [(e & st1 & He & _) | (H1 & _ & H3)].
    + intros [Ha _]. discriminate Ha.
    + vm_compute in He. discriminate He.
    + split; [exact H1 | exact H3].
Defined.

(** ** The expiry of the stored credential *)

Lemma wait_files (state : string) (events : list auth.wait_event)
    (m : auth.spinnerModel) (st : State) :
  files (snd (auth.wait state events m st)) = files st.
Proof.
  revert m. induction events as [|ev events IH]; intros m; [reflexivity|].
  destruct ev; cbn [auth.wait]; try reflexivity.
  - destruct (auth.spinnerModel_Update (auth.KeyMsg key) m) as [m' quit].
    destruct quit; [reflexivity | apply IH].
  - destruct (auth.spinnerModel_Update auth.TickMsg m) as [m' quit].
    destruct quit; [reflexivity | apply IH].
  - destruct (auth.callback_handler state query). reflexivity.
Qed.

Lemma exchangeCode_files (E : Env) (baseURL code redirectURI : string)
    (st : State) :
  files (snd (auth.exchangeCode E baseURL code redirectURI st)) = files st.
Proof.
  unfold auth.exchangeCode, http.PostForm.
  destruct (token_server E _ _ _) as [resp|e]; [|reflexivity].
  destruct (negb (StatusCode resp =? http.StatusOK)); [reflexivity|].
  destruct (TokenResponse.Decode (Body resp)); reflexivity.
Qed.

(** C2, as the code has it.  Neither [Login] nor [RefreshToken] computes
    an expiry: after a successful [Login] and after a successful
    [RefreshToken], the stored credential has the expiry that the
    credential stored before had (zero when there was no file), whatever
    the token response said in [expires_in]; both paths treat it the same
    way. *)
Theorem expiry_carried_over (E : Env) :
  (forall sc st,
     fst (auth.Login E sc st) = None ->
     exists old new,
       config.Load E st = Ok old /\
       config.Load E (snd (auth.Login E sc st)) = Ok new /\
       config.ExpiresAt new = config.ExpiresAt old) /\
  (forall st,
     fst (auth.RefreshToken E st) = None ->
     exists old new,
       config.Load E st = Ok old /\
       config.Load E (snd (auth.RefreshToken E st)) = Ok new /\
       config.ExpiresAt new = config.ExpiresAt old).
Proof.
  split.
  - intros sc st. unfold auth.Login.
    destruct (auth.Run _ _ _) as [m|e]; [|discriminate].
    destruct (auth.cancelled m); [discriminate|].
    destruct (_ || _); [discriminate|].
    destruct (auth.generateState (auth.random sc)) as [state|e]; [|discriminate].
    destruct (port_bound st); [discriminate|].
    unfold auth.Login_wait_and_store.
    pose proof (wait_files state (auth.wait_events sc) auth.newSpinnerModel
                  (set_port_bound true st)) as Hw.
    destruct (auth.wait state (auth.wait_events sc) auth.newSpinnerModel
                (set_port_bound true st)) as [[sm|e] st1]; [|discriminate].
    destruct (auth.sp_err sm); [discriminate|].
    match goal with |- context [auth.exchangeCode E ?b ?c ?r st1] =>
      pose proof (exchangeCode_files E b c r st1) as Hx;
      destruct (auth.exchangeCode E b c r st1) as [[token|e] st2]
    end; [|discriminate].
    destruct (config.Load E st2) as [old|e] eqn:HL; [|discriminate].
    match goal with |- context [config.Save E ?c' st2] =>
      destruct (config.Save E c' st2) as [[e|] st3] eqn:Hsave
    end; [discriminate|].
    intros _. cbn [fst snd] in *.
    destruct (Load_stable E st2 old HL) as ((_ & _ & _ & Hi) & Hread).
    exists old. eexists. split; [|split].
    + rewrite <- HL. symmetry. apply Load_files. simpl in Hw. congruence.
    + pose proof (fun H => Load_Save E _ st2 st3 H Hsave Hread) as HLS.
      cbn in HLS. rewrite (Load_files E st3); [exact (HLS Hi)|].
      unfold auth.deferred_shutdownCancel, auth.shutdown_goroutine.
      destruct (auth.shutdown_before_return sc); reflexivity.
    + reflexivity.
  - intros st. unfold auth.RefreshToken, http.PostForm.
    destruct (config.Load E (count_refresh_call st)) as [old|e] eqn:HL;
      [|discriminate].
    destruct (String.eqb (config.RefreshToken old) EmptyString); [discriminate|].
    destruct (token_server E _ _ _) as [resp|e]; [|discriminate].
    destruct (negb (StatusCode resp =? http.StatusOK)); [discriminate|].
    destruct (TokenResponse.Decode (Body resp)) as [token|e]; [|discriminate].
    match goal with |- context [config.Save E ?c' ?s] =>
      destruct (config.Save E c' s) as [[e|] st3] eqn:Hsave
    end; [discriminate|].
    intros _. cbn [fst snd].
    destruct (Load_stable E _ old HL) as ((_ & _ & _ & Hi) & Hread).
    exists old. eexists. split; [|split].
    + rewrite <- HL. symmetry. now apply Load_files.
    + pose proof (fun H => Load_Save E _ _ st3 H Hsave Hread) as HLS.
      cbn in HLS. exact (HLS Hi).
    + reflexivity.
Qed.

(** C2, as stated, fails.  At the time 1700000000000, with no credential
    stored before, a login whose token response says [expires_in = 3600]
    and one whose response says [expires_in = 7200] both store the expiry
    zero; so does a refresh, with either response. *)
Lemma expiry_not_computed :
  config.Load (env_with always_expired (granting 3600))
    (snd (auth.Login (env_with always_expired (granting 3600))
            (scenario [auth.WCallback [("state", demo_nonce); ("code", "abc")]]
                      true)
            empty_state))
  = Ok (credential "access-2" "refresh-2" 0) /\
  config.Load (env_with always_expired (granting 7200))
    (snd (auth.Login (env_with always_expired (granting 7200))
            (scenario [auth.WCallback [("state", demo_nonce); ("code", "abc")]]
                      true)
            empty_state))
  = Ok (credential "access-2" "refresh-2" 0) /\
  config.Load (env_with always_expired (granting 3600))
    (snd (auth.RefreshToken (env_with always_expired (granting 3600))
            (stored (credential "access-1" "refresh-1" 0))))
  = Ok (credential "access-2" "refresh-2" 0) /\
  config.Load (env_with always_expired (granting 7200))
    (snd (auth.RefreshToken (env_with always_expired (granting 7200))
            (stored (credential "access-1" "refresh-1" 0))))
  = Ok (credential "access-2" "refresh-2" 0).
Proof. vm_compute. repeat split. Qed.

(** * Further properties *)

(** ** The input of the space *)

(** While the input program is running its model is not done. *)
Lemma running_after_inputModel (update : string -> auth.Msg -> string)
    (typed : list auth.Msg) (m0 m1 : auth.inputModel) :
  running_after (auth.inputModel_Update update) typed m0 = Some m1 ->
  auth.done m0 = false -> auth.done m1 = false.
Proof.
  revert m0. induction typed as [|msg typed IH]; intros m0 H Hd.
  - injection H as <-. exact Hd.
  - destruct msg as [key| |r|]; cbn [running_after] in H; try discriminate H;
      unfold auth.inputModel_Update in H; try (apply (IH _ H); exact Hd).
    destruct (String.eqb key "enter").
    + destruct (auth.ValidateSpace (auth.value m0)); [|discriminate H].
      apply (IH _ H). exact Hd.
    + destruct (String.eqb key "ctrl+c" || String.eqb key "esc");
        [discriminate H|]. apply (IH _ H). exact Hd.
Qed.

(** No message takes back a cancellation or a confirmation. *)
Lemma inputModel_Update_keeps (update : string -> auth.Msg -> string)
    (msg : auth.Msg) (m : auth.inputModel) :
  (auth.cancelled m = true ->
   auth.cancelled (fst (auth.inputModel_Update update msg m)) = true) /\
  (auth.done m = true ->
   auth.done (fst (auth.inputModel_Update update msg m)) = true).
Proof.
  unfold auth.inputModel_Update.
  destruct msg as [key| |r|]; try (split; intros H; exact H).
  destruct (String.eqb key "enter").
  - destruct (auth.ValidateSpace (auth.value m)); split; intros H;
      cbn; auto.
  - destruct (String.eqb key "ctrl+c" || String.eqb key "esc"); split;
      intros H; cbn; auto.
Qed.

Lemma eventLoop_keeps (update : string -> auth.Msg -> string)
    (msgs : list auth.Msg) (quitting : bool) (m0 m : auth.inputModel) :
  auth.eventLoop (auth.inputModel_Update update) msgs quitting m0 = Ok m ->
  (auth.cancelled m0 = true -> auth.cancelled m = true) /\
  (auth.done m0 = true -> auth.done m = true).
Proof.
  revert quitting m0. induction msgs as [|msg msgs IH]; intros quitting m0 H.
  - cbn in H. destruct quitting; [|discriminate H].
    injection H as <-. auto.
  - pose proof (inputModel_Update_keeps update msg m0) as [Hc Hd].
    destruct msg; cbn [auth.eventLoop] in H;
      try (destruct (auth.inputModel_Update update _ m0) as [m' quit];
           cbn [fst] in Hc, Hd; destruct (IH _ _ H) as [Hc' Hd']; split; auto).
    injection H as <-. auto.
Qed.

(** The [Update] that returns [tea.Quit] without a cancellation is the one
    that validated the value. *)
Lemma inputModel_Update_quit (update : string -> auth.Msg -> string)
    (msg : auth.Msg) (m1 m : auth.inputModel) :
  auth.inputModel_Update update msg m1 = (m, true) ->
  auth.cancelled m = false ->
  msg = auth.KeyMsg "enter" /\ auth.done m = true /\
  auth.value m = auth.value m1 /\ auth.ValidateSpace (auth.value m1) = None.
Proof.
  unfold auth.inputModel_Update. intros H Hc.
  destruct msg as [key| |r|]; try discriminate H.
  destruct (String.eqb_spec key "enter") as [->|_].
  - destruct (auth.ValidateSpace (auth.value m1)) eqn:Hv; [discriminate H|].
    injection H as <-. cbn. auto.
  - destruct (String.eqb key "ctrl+c" || String.eqb key "esc");
      [|discriminate H].
    injection H as <-. cbn in Hc. discriminate Hc.
Qed.

(** How a run of the input program ends without a cancellation. *)
Lemma eventLoop_inputModel (update : string -> auth.Msg -> string)
    (msgs : list auth.Msg) (m0 m : auth.inputModel) :
  auth.eventLoop (auth.inputModel_Update update) msgs false m0 = Ok m ->
  auth.cancelled m = false ->
  exists typed m1 rest,
    running_after (auth.inputModel_Update update) typed m0 = Some m1 /\
    ((msgs = (typed ++ auth.QuitMsg :: rest)%list /\ m = m1) \/
     (msgs = (typed ++ auth.KeyMsg "enter" :: rest)%list /\
      auth.ValidateSpace (auth.value m1) = None /\
      auth.done m = true /\
      ((rest = [] \/ exists rest', rest = auth.QuitMsg :: rest') ->
       auth.value m = auth.value m1))).
Proof.
  revert m0. induction msgs as [|msg msgs IH]; intros m0 H Hc;
    [discriminate H|].
  destruct (match msg with auth.QuitMsg => true | _ => false end) eqn:Hq.
  { destruct msg; try discriminate Hq. injection H as <-.
    exists [], m0, msgs. split; [reflexivity|]. left. auto. }
  assert (Hstep : exists m' quit,
            auth.inputModel_Update update msg m0 = (m', quit) /\
            auth.eventLoop (auth.inputModel_Update update) msgs quit m' = Ok m).
  { destruct msg; try discriminate Hq; cbn [auth.eventLoop] in H;
      destruct (auth.inputModel_Update update _ m0) as [m' quit];
      exists m', quit; auto. }
  destruct Hstep as (m' & [|] & Hu & Hloop).
  - destruct (auth.cancelled m') eqn:Hc'.
    { destruct (eventLoop_keeps update msgs true m' m Hloop) as [Hk _].
      rewrite (Hk Hc') in Hc. discriminate Hc. }
    destruct (inputModel_Update_quit update msg m0 m' Hu Hc')
      as (-> & Hd & Hval & Hv).
    exists [], m0, msgs. split; [reflexivity|]. right.
    split; [reflexivity|]. split; [exact Hv|]. split.
    + destruct (eventLoop_keeps update msgs true m' m Hloop) as [_ Hk]. auto.
    + intros [->|[rest' ->]]; cbn in Hloop; injection Hloop as <-; exact Hval.
  - destruct (IH m' Hloop Hc) as (typed & m1 & rest & Hrun & Hend).
    exists (msg :: typed), m1, rest. split.
    + destruct msg; try discriminate Hq; cbn [running_after];
        rewrite Hu; exact Hrun.
    + destruct Hend as [[-> ->]|(-> & Hrest)]; [left | right]; auto.
Qed.

(** X1.  The input program validates the space when the user confirms it,
    and [Login] takes the value that the program ends with.  Whatever
    reaches the program and however the text field handles it, when the
    program ends without an error and without a cancellation, it ended in
    one of two ways.  Either the user pressed Enter on a value that
    [ValidateSpace] accepted, which ends in [.backlog.com] or in
    [.backlog.jp]: the model is done, and its value is this one when the
    [QuitMsg] was the next message the program received.  Or a [QuitMsg]
    reached the program from outside while it was running: the model is
    not done and its value is whatever was typed. *)
Theorem input_space_validated (update : string -> auth.Msg -> string)
    (msgs : list auth.Msg) (m : auth.inputModel) :
  auth.Run (auth.inputModel_Update update) msgs auth.newInputModel = Ok m ->
  auth.cancelled m = false ->
  exists typed m1 rest,
    running_after (auth.inputModel_Update update) typed auth.newInputModel
      = Some m1 /\
    ((msgs = (typed ++ auth.KeyMsg "enter" :: rest)%list /\
      auth.ValidateSpace (auth.value m1) = None /\
      (ends_in (auth.value m1) ".backlog.com" \/
       ends_in (auth.value m1) ".backlog.jp") /\
      auth.done m = true /\
      ((rest = [] \/ exists rest', rest = auth.QuitMsg :: rest') ->
       auth.value m = auth.value m1)) \/
     (msgs = (typed ++ auth.QuitMsg :: rest)%list /\ m = m1 /\
      auth.done m = false)).
Proof.
  intros H Hc.
  destruct (eventLoop_inputModel update msgs auth.newInputModel m H Hc)
    as (typed & m1 & rest & Hrun & Hend).
  exists typed, m1, rest. split; [exact Hrun|].
  destruct Hend as [[Hm ->]|(Hm & Hv & Hd & Hval)].
  - right. split; [exact Hm|]. split; [reflexivity|].
    exact (running_after_inputModel update typed _ _ Hrun eq_refl).
  - left. split; [exact Hm|]. split; [exact Hv|]. split; [|split; assumption].
    unfold auth.ValidateSpace in Hv.
    destruct (strings.HasSuffix (auth.value m1) ".backlog.com") eqn:Hcom.
    + left. now apply HasSuffix_ends_in.
    + destruct (strings.HasSuffix (auth.value m1) ".backlog.jp") eqn:Hjp.
      * right. now apply HasSuffix_ends_in.
      * discriminate Hv.
Qed.

Lemma input_space_validated_witness :
  exists typed m1 rest,
    running_after
      (auth.inputModel_Update (auth.textinput_Update (scenario [] true)))
      typed auth.newInputModel = Some m1 /\
    ((demo_keys = (typed ++ auth.KeyMsg "enter" :: rest)%list /\
      auth.ValidateSpace (auth.value m1) = None /\
      (ends_in (auth.value m1) ".backlog.com" \/
       ends_in (auth.value m1) ".backlog.jp") /\
      auth.done demo_model = true /\
      ((rest = [] \/ exists rest', rest = auth.QuitMsg :: rest') ->
       auth.value demo_model = auth.value m1)) \/
     (demo_keys = (typed ++ auth.QuitMsg :: rest)%list /\ demo_model = m1 /\
      auth.done demo_model = false)).
Proof.
  apply (input_space_validated
           (auth.textinput_Update (scenario [] true)) demo_keys demo_model).
  - reflexivity.
  - reflexivity.
Defined.

(** Both exceptions are real: a key handled after the accepted Enter
    changes the value, and a [QuitMsg] from outside ends the program with
    whatever was typed; neither model is cancelled, so [Login] goes on
    with the value. *)
Lemma Run_value_not_validated :
  auth.Run (auth.inputModel_Update (auth.textinput_Update (scenario [] true)))
    [auth.KeyMsg "demo.backlog.com"; auth.KeyMsg "enter"; auth.KeyMsg "x"]
    auth.newInputModel
  = Ok {| auth.value := "demo.backlog.comx"; auth.input_err := None;
          auth.done := true; auth.cancelled := false |} /\
  auth.Run (auth.inputModel_Update (auth.textinput_Update (scenario [] true)))
    [auth.KeyMsg "demo"; auth.QuitMsg]
    auth.newInputModel
  = Ok {| auth.value := "demo"; auth.input_err := None;
          auth.done := false; auth.cancelled := false |}.
Proof. split; reflexivity. Qed.

(** ** What the token endpoint grants *)

Lemma Save_writable (E : Env) (c : config.Config) (st : State) :
  writable E -> exists st', config.Save E c st = (None, st').
Proof.
  intros (dir & path & Hdir & Hd & Hpath & Hp & Hfull).
  unfold config.Save, os.MkdirAll, os.WriteFile. rewrite Hdir, Hpath, Hfull.
  destruct (decide (dir ∈ deny_write E)); [contradiction|].
  destruct (decide (path ∈ deny_write E)); [contradiction|].
  eexists. reflexivity.
Qed.

Lemma decode_members_invariant {T : Type} (P : T -> Prop) (names : list string)
    (set : nat -> json.value -> T -> option T) :
  (forall i v t t', good_value v -> P t -> set i v t = Some t' -> P t') ->
  forall ms t t' e,
    Forall (fun kv => good_value (snd kv)) ms -> P t ->
    json.decode_members names set ms t = (t', e) -> P t'.
Proof.
  intros Hset ms. induction ms as [|[key v] ms IH]; intros t t' e Hms Ht H;
    cbn [json.decode_members] in H.
  - inversion H; subst. exact Ht.
  - inversion Hms as [|? ? Hv Hms']; subst. cbn in Hv.
    destruct (json.find_field names key) as [i|]; [|eauto].
    destruct (set i v t) as [t1|] eqn:Hs.
    + eapply IH; [exact Hms'| |exact H]. eapply Hset; eauto.
    + destruct (json.decode_members names set ms t) as [t2 e2] eqn:Hd.
      inversion H; subst. eapply IH; eauto.
Qed.

Lemma scan_value_Object_good (f : nat) (d : Z) (s rest : string)
    (ms : list (string * json.value)) :
  json.scan_value f d s = Some (json.Object ms, rest) ->
  Forall (fun kv => good_value (snd kv)) ms.
Proof.
  destruct f as [|f]; [discriminate|]. destruct s as [|c s']; [discriminate|].
  cbn [json.scan_value]. intros H.
  repeat match type of H with
  | (if ?b then _ else _) = Some _ => destruct b
  | match ?x with _ => _ end = Some _ =>
    let E := fresh "E" in destruct x eqn:E
  | (let '(_, _) := ?x in _) = Some _ =>
    let E := fresh "E" in destruct x eqn:E
  end; try discriminate H; inversion H; subst; try constructor.
  eapply scan_members_good; eauto.
Qed.

(** The tokens of a decoded token response are well-formed UTF-8. *)
Lemma Decode_well_formed (body : result string) (token : TokenResponse.t) :
  TokenResponse.Decode body = Ok token ->
  well_formed (TokenResponse.AccessToken token) /\
  well_formed (TokenResponse.RefreshToken token).
Proof.
  unfold TokenResponse.Decode, json.Decode. destruct body as [data|e]; [|discriminate].
  destruct (json.skip_space data) as [|c s]; [discriminate|].
  destruct (json.scan_value _ 0 _) as [[v rest]|] eqn:Hv; [|discriminate].
  unfold json.decode_struct. destruct v; try discriminate.
  - intros H. inversion H. split; apply well_formed_empty.
  - destruct (json.decode_members _ _ members TokenResponse.zero)
      as [t' [e|]] eqn:Hd; [discriminate|].
    intros H. inversion H; subst.
    apply (decode_members_invariant
             (fun t => well_formed (TokenResponse.AccessToken t) /\
                       well_formed (TokenResponse.RefreshToken t))
             _ _) with (4 := Hd).
    + intros i v t t1 Hg [Ha Hr] Hs. unfold TokenResponse.json_set in Hs.
      destruct i as [|[|[|[|i]]]].
      * destruct v; cbn in *; try discriminate Hs; injection Hs as <-; cbn; auto.
      * destruct v; cbn in *; try discriminate Hs; injection Hs as <-; cbn; auto.
      * destruct (json.as_int v (TokenResponse.ExpiresIn t));
          [|discriminate Hs]. injection Hs as <-; cbn; auto.
      * destruct v; cbn in *; try discriminate Hs; injection Hs as <-; cbn; auto.
      * injection Hs as <-. auto.
    + eapply scan_value_Object_good; eauto.
    + split; apply well_formed_empty.
Qed.

(** After the credential [granted space token old] was saved, [Load]
    returns it, with the space as [encoding/json] wrote it. *)
Lemma Load_granted (E : Env) (st st' : State) (space : string)
    (body : result string) (token : TokenResponse.t) (old : config.Config)
    (st0 : State) :
  TokenResponse.Decode body = Ok token ->
  config.Load E st0 = Ok old ->
  config.Save E (granted space token old) st = (None, st') ->
  config.Load E st' = Ok (granted (utf8.ToValid space) token old).
Proof.
  intros Hdec Hold Hsave.
  destruct (Decode_well_formed body token Hdec) as [Ha Hr].
  destruct (Load_stable E st0 old Hold) as ((_ & _ & _ & Hi) & Hread).
  rewrite (Load_Save E (granted space token old) st st' Hi Hsave Hread).
  unfold coerce, granted.
  cbn [config.Space config.AccessToken config.RefreshToken config.ExpiresAt].
  unfold well_formed in Ha, Hr. now rewrite Ha, Hr.
Qed.

(** ** Login *)












(** The second way is real: when the spinner program is told to quit
    before any callback, [Login] sends the empty code to the token
    endpoint, and stores what an endpoint that accepts it answers. *)
Lemma Login_quit_from_outside :
  fst (auth.Login
         (env_with always_expired
            (fun _ _ data =>
               if String.eqb (http.Get data "code") EmptyString
               then Ok (response 200 EmptyString
                          (token_body "access-2" "refresh-2" 3600))
               else Ok (response 400 EmptyString EmptyString)))
         (scenario [auth.WTick; auth.WQuit] true) empty_state) = None /\
  token_posts
    (snd (auth.Login
            (env_with always_expired
               (fun _ _ data =>
                  if String.eqb (http.Get data "code") EmptyString
                  then Ok (response 200 EmptyString
                             (token_body "access-2" "refresh-2" 3600))
                  else Ok (response 400 EmptyString EmptyString)))
            (scenario [auth.WTick; auth.WQuit] true) empty_state)) = 1%nat.
Proof. vm_compute. split; reflexivity. Qed.

(** ** Failures leave the credential file alone *)







(** A write cut short does harm it: with room for ten bytes only, a
    [Logout] fails and leaves the first ten bytes of the new encoding in
    the place of the credential. *)
Lemma Logout_write_cut_short :
  auth.Logout
    {| XDG_CONFIG_HOME := EmptyString; HOME := "/home/user";
       ClientID := "client"; ClientSecret := "secret";
       deny_read := ∅; deny_write := ∅;
       write_limit := {[ demo_path := 10%nat ]}; now := 0;
       api_server := always_expired; token_server := granting 3600;
       new_request_error := fun _ _ => None |}
    (stored (credential "access-1" "refresh-1" 0))
  = (Some (Errorf "failed to save config: %w"
             [ArgErr (PathError "write" demo_path ENOSPC)]),
     set_files
       {[ demo_path :=
            take 10
              (config.MarshalIndent
                 {| config.Space := "demo.backlog.com";
                    config.AccessToken := EmptyString;
                    config.RefreshToken := EmptyString;
                    config.ExpiresAt := 0 |}) ]}
       (stored (credential "access-1" "refresh-1" 0))).
Proof. vm_compute. reflexivity. Qed.

(** ** A successful refresh *)

(** X6.  For a stored credential with a refresh token, when the token endpoint
    answers the refresh with status 200 and a token response that decodes,
    and the config can be written, [RefreshToken] returns no error after
    one request and one write, and the stored credential has the two
    tokens of the response, with the space and the expiry it had before. *)
Theorem RefreshToken_stores_tokens (E : Env) (st : State) (c : config.Config)
    (resp : Response) (token : TokenResponse.t) :
  config.Load E st = Ok c ->
  config.RefreshToken c <> EmptyString ->
  token_server E (token_posts st)
    ("https://" ++ config.Space c ++ "/api/v2/oauth2/token")
    [("grant_type", "refresh_token"); ("client_id", ClientID E);
     ("client_secret", ClientSecret E);
     ("refresh_token", config.RefreshToken c)] = Ok resp ->
  StatusCode resp = 200 ->
  TokenResponse.Decode (Body resp) = Ok token ->
  writable E ->
  fst (auth.RefreshToken E st) = None /\
  config.Load E (snd (auth.RefreshToken E st)) =
    Ok (granted (config.Space c) token c) /\
  token_posts (snd (auth.RefreshToken E st)) = S (token_posts st) /\
  config_writes (snd (auth.RefreshToken E st)) = S (config_writes st).
Proof.
  intros HL Hne Hserver Hstatus Hdec Hw.
  rewrite (RefreshToken_unfold E st c HL Hne).
  unfold auth.getBacklogBaseURL.
  change (("https://" ++ config.Space c) ++ "/api/v2/oauth2/token")
    with ("https://" ++ config.Space c ++ "/api/v2/oauth2/token").
  rewrite Hserver, Hstatus. cbn [negb Z.eqb http.StatusOK Pos.eqb].
  rewrite Hdec.
  match goal with |- context [config.Save E ?c' ?s] =>
    destruct (Save_writable E c' s Hw) as [st3 Hsave]; rewrite Hsave;
    pose proof (Load_granted E s st3 (config.Space c) (Body resp) token c st
                  Hdec HL Hsave) as HL3;
    destruct (Save_ok E c' s st3 Hsave) as (path & _ & _ & Hwr);
    apply Save_frame in Hsave as (_ & _ & _ & _ & Htp & _)
  end.
  cbn [fst snd].
  destruct (Load_stable E st c HL) as ((Hs & _) & _).
  unfold well_formed in Hs. rewrite Hs in HL3.
  split; [reflexivity|]. split; [exact HL3|].
  rewrite Htp, Hwr. cbn. auto.
Qed.

Lemma RefreshToken_stores_tokens_witness :
  fst (auth.RefreshToken (env_with always_expired (granting 3600))
         (stored (credential "access-1" "refresh-1" 0))) = None /\
  config.Load (env_with always_expired (granting 3600))
    (snd (auth.RefreshToken (env_with always_expired (granting 3600))
            (stored (credential "access-1" "refresh-1" 0))))
  = Ok (credential "access-2" "refresh-2" 0).
Proof.
  destruct (RefreshToken_stores_tokens
              (env_with always_expired (granting 3600))
              (stored (credential "access-1" "refresh-1" 0))
              (credential "access-1" "refresh-1" 0)
              (response 200 EmptyString (token_body "access-2" "refresh-2" 3600))
              {| TokenResponse.AccessToken := "access-2";
                 TokenResponse.TokenType := "Bearer";
                 TokenResponse.ExpiresIn := 3600;
                 TokenResponse.RefreshToken := "refresh-2" |})
    as (H1 & H2 & _).
  - vm_compute. reflexivity.
  - discriminate.
  - reflexivity.
  - reflexivity.
  - vm_compute. reflexivity.
  - exists "/home/user/.config/bgl", demo_path.
    repeat split; vm_compute; set_solver.
  - split; [exact H1 | exact H2].
Defined.

(** X7.  [RefreshToken] stores the refresh token of the response as it is.
    When the response, although accepted, carries no refresh token, the
    stored refresh token becomes empty: the next [RefreshToken] fails with
    the no-refresh-token error before it makes any request. *)
Theorem RefreshToken_without_new_refresh_token (E : Env) (st : State)
    (c : config.Config) (resp : Response) (token : TokenResponse.t) :
  config.Load E st = Ok c ->
  config.RefreshToken c <> EmptyString ->
  token_server E (token_posts st)
    ("https://" ++ config.Space c ++ "/api/v2/oauth2/token")
    [("grant_type", "refresh_token"); ("client_id", ClientID E);
     ("client_secret", ClientSecret E);
     ("refresh_token", config.RefreshToken c)] = Ok resp ->
  StatusCode resp = 200 ->
  TokenResponse.Decode (Body resp) = Ok token ->
  TokenResponse.RefreshToken token = EmptyString ->
  writable E ->
  fst (auth.RefreshToken E st) = None /\
  auth.RefreshToken E (snd (auth.RefreshToken E st)) =
    (Some (Errorf "no refresh token found. Please run 'bgl auth login' first" []),
     count_refresh_call (snd (auth.RefreshToken E st))).
Proof.
  intros HL Hne Hserver Hstatus Hdec Hempty Hw.
  rewrite (RefreshToken_unfold E st c HL Hne).
  unfold auth.getBacklogBaseURL.
  change (("https://" ++ config.Space c) ++ "/api/v2/oauth2/token")
    with ("https://" ++ config.Space c ++ "/api/v2/oauth2/token").
  rewrite Hserver, Hstatus. cbn [negb Z.eqb http.StatusOK Pos.eqb].
  rewrite Hdec.
  match goal with |- context [config.Save E ?c' ?s] =>
    destruct (Save_writable E c' s Hw) as [st3 Hsave]; rewrite Hsave;
    pose proof (Load_granted E s st3 (config.Space c) (Body resp) token c st
                  Hdec HL Hsave) as HL3
  end.
  cbn [fst snd]. split; [reflexivity|].
  unfold auth.RefreshToken.
  rewrite (Load_files E st3 (count_refresh_call st3)) by reflexivity.
  rewrite HL3. unfold granted. cbn [config.RefreshToken].
  rewrite Hempty. reflexivity.
Qed.

Lemma RefreshToken_without_new_refresh_token_witness :
  auth.RefreshToken
    (env_with always_expired
       (fun _ _ _ => Ok (response 200 EmptyString
                           ("{" ++ quoted "access_token" ++ ":" ++
                            quoted "access-2" ++ "}"))))
    (snd (auth.RefreshToken
            (env_with always_expired
               (fun _ _ _ => Ok (response 200 EmptyString
                                   ("{" ++ quoted "access_token" ++ ":" ++
                                    quoted "access-2" ++ "}"))))
            (stored (credential "access-1" "refresh-1" 0)))) =
  (Some (Errorf "no refresh token found. Please run 'bgl auth login' first" []),
   count_refresh_call
     (snd (auth.RefreshToken
             (env_with always_expired
                (fun _ _ _ => Ok (response 200 EmptyString
                                    ("{" ++ quoted "access_token" ++ ":" ++
                                     quoted "access-2" ++ "}"))))
             (stored (credential "access-1" "refresh-1" 0))))).
Proof.
  destruct (RefreshToken_without_new_refresh_token
              (env_with always_expired
                 (fun _ _ _ => Ok (response 200 EmptyString
                                     ("{" ++ quoted "access_token" ++ ":" ++
                                      quoted "access-2" ++ "}"))))
              (stored (credential "access-1" "refresh-1" 0))
              (credential "access-1" "refresh-1" 0)
              (response 200 EmptyString
                 ("{" ++ quoted "access_token" ++ ":" ++ quoted "access-2" ++ "}"))
              {| TokenResponse.AccessToken := "access-2";
                 TokenResponse.TokenType := EmptyString;
                 TokenResponse.ExpiresIn := 0;
                 TokenResponse.RefreshToken := EmptyString |})
    as (_ & H).
  - vm_compute. reflexivity.
  - discriminate.
  - reflexivity.
  - reflexivity.
  - vm_compute. reflexivity.
  - reflexivity.
  - exists "/home/user/.config/bgl", demo_path.
    repeat split; vm_compute; set_solver.
  - exact H.
Defined.

(** ** After a logout *)

(** X8.  Once [Logout] has succeeded, the client cannot be constructed and a
    second [Logout] has nothing to remove: [NewClient] fails with the
    not-logged-in error, [Logout] fails with its own, and [RefreshToken]
    fails for want of a refresh token; none of them makes a request or
    writes the config. *)
Theorem Logout_then_not_logged_in (E : Env) (st : State) :
  fst (auth.Logout E st) = None ->
  backlog.NewClient E (snd (auth.Logout E st)) =
    (Err (Errorf "not logged in. Please run 'bgl auth login' first" []),
     snd (auth.Logout E st)) /\
  auth.Logout E (snd (auth.Logout E st)) =
    (Some (Errorf "not logged in" []), snd (auth.Logout E st)) /\
  auth.RefreshToken E (snd (auth.Logout E st)) =
    (Some (Errorf "no refresh token found. Please run 'bgl auth login' first" []),
     count_refresh_call (snd (auth.Logout E st))).
Proof.
  destruct (auth.Logout E st) as [r st1] eqn:HLo. cbn [fst snd]. intros ->.
  unfold auth.Logout in HLo.
  destruct (config.Load E st) as [c|e] eqn:HL; [|discriminate HLo].
  destruct (_ && _); [discriminate HLo|].
  match type of HLo with context [config.Save E ?c' st] =>
    destruct (config.Save E c' st) as [[e|] st2] eqn:Hsave
  end; [discriminate HLo|]. injection HLo as ->.
  destruct (Load_stable E st c HL) as ((Hs & _ & _ & Hi) & Hread).
  pose proof (fun H => Load_Save E _ st st1 H Hsave Hread) as HLS.
  cbn in HLS. specialize (HLS Hi).
  rewrite coerce_valid in HLS by (cbn; auto; apply well_formed_empty).
  split; [|split].
  - unfold backlog.NewClient. rewrite HLS. reflexivity.
  - unfold auth.Logout. rewrite HLS. reflexivity.
  - unfold auth.RefreshToken.
    rewrite (Load_files E st1 (count_refresh_call st1)) by reflexivity.
    rewrite HLS. reflexivity.
Qed.

Lemma Logout_then_not_logged_in_witness :
  fst (backlog.NewClient (env_with always_expired (granting 3600))
         (snd (auth.Logout (env_with always_expired (granting 3600))
                 (stored (credential "access-1" "refresh-1" 0))))) =
  Err (Errorf "not logged in. Please run 'bgl auth login' first" []).
Proof.
  destruct (Logout_then_not_logged_in
              (env_with always_expired (granting 3600))
              (stored (credential "access-1" "refresh-1" 0))) as (H & _).
  - reflexivity.
  - rewrite H. reflexivity.
Defined.

(** ** One request *)

(** X9.  Unless the server answers with status 401 and the expired challenge,
    [doRequest] makes exactly one HTTP call and returns, whatever the depth
    allowed: it calls no refresh, leaves the client as it is, and returns
    the body exactly when the status is 200. *)
Theorem doRequest_single_call (E : Env) (c : backlog.Client)
    (method path : string) (st : State) (fuel : nat) (resp : Response)
    (body : string) :
  new_request_error E method
    ("https://" ++ config.Space (backlog.cfg c) ++ path) = None ->
  api_server E (api_calls st)
    {| Method := method;
       URL := "https://" ++ config.Space (backlog.cfg c) ++ path;
       Authorization := "Bearer " ++ config.AccessToken (backlog.cfg c) |}
  = Ok resp ->
  Body resp = Ok body ->
  StatusCode resp <> 401 \/
  strings.Contains (WWW_Authenticate resp) "The access token expired" = false ->
  exists r,
    backlog.doRequest (S fuel) E c method path st =
      (backlog.Returned r, c, count_api_call st) /\
    (r = Ok body <-> StatusCode resp = 200).
Proof.
  intros Hnew Hresp Hbody Hcase.
  cbn [backlog.doRequest]. rewrite Hnew. unfold http.Do. rewrite Hresp, Hbody.
  unfold http.StatusUnauthorized, http.StatusOK.
  destruct (Z.eqb_spec (StatusCode resp) 401) as [H401|H401].
  - destruct Hcase as [Hcase|Hcase]; [contradiction|]. rewrite Hcase.
    destruct (strings.Contains _ "The access token is invalid");
      eexists; (split; [reflexivity|]); split; intros H; try discriminate H; lia.
  - destruct (Z.eqb_spec (StatusCode resp) 200) as [H200|H200]; cbn [negb];
      eexists; (split; [reflexivity|]); split; intros H;
      try discriminate H; try reflexivity; try assumption; contradiction.
Qed.

Lemma doRequest_single_call_witness :
  exists r,
    backlog.doRequest 1
      (env_with (fun _ _ => Ok (response 404 EmptyString "not found"))
                (granting 3600))
      {| backlog.cfg := credential "access-1" "refresh-1" 0 |}
      "GET" "/api/v2/issues/DEMO-1"
      (stored (credential "access-1" "refresh-1" 0)) =
    (backlog.Returned r, {| backlog.cfg := credential "access-1" "refresh-1" 0 |},
     count_api_call (stored (credential "access-1" "refresh-1" 0))) /\
    (r = Ok "not found" <-> 404 = 200).
Proof.
  apply (doRequest_single_call
           (env_with (fun _ _ => Ok (response 404 EmptyString "not found"))
                     (granting 3600))
           {| backlog.cfg := credential "access-1" "refresh-1" 0 |}
           "GET" "/api/v2/issues/DEMO-1"
           (stored (credential "access-1" "refresh-1" 0)) 0
           (response 404 EmptyString "not found") "not found").
  - reflexivity.
  - reflexivity.
  - reflexivity.
  - left. simpl. lia.
Defined.

(** X10.  The retry after a refresh.  When the first answer is 401 with the
    expired challenge, the refresh succeeds and the credential is loaded
    again, the second request goes to the space of the reloaded credential
    and carries its access token; when it is answered with status 200,
    [doRequest] returns that body after two HTTP calls and one refresh, and
    the client holds the reloaded credential. *)
Theorem doRequest_retry_uses_new_token (E : Env) (c : backlog.Client)
    (method path : string) (st st2 : State) (fuel : nat)
    (resp1 resp2 : Response) (body1 body2 : string) (c2 : config.Config) :
  (forall u, new_request_error E method u = None) ->
  api_server E (api_calls st)
    {| Method := method;
       URL := "https://" ++ config.Space (backlog.cfg c) ++ path;
       Authorization := "Bearer " ++ config.AccessToken (backlog.cfg c) |}
  = Ok resp1 ->
  StatusCode resp1 = 401 ->
  strings.Contains (WWW_Authenticate resp1) "The access token expired" = true ->
  Body resp1 = Ok body1 ->
  auth.RefreshToken E (count_api_call st) = (None, st2) ->
  config.Load E st2 = Ok c2 ->
  api_server E (S (api_calls st))
    {| Method := method;
       URL := "https://" ++ config.Space c2 ++ path;
       Authorization := "Bearer " ++ config.AccessToken c2 |}
  = Ok resp2 ->
  StatusCode resp2 = 200 ->
  Body resp2 = Ok body2 ->
  backlog.doRequest (S (S fuel)) E c method path st =
    (backlog.Returned (Ok body2), {| backlog.cfg := c2 |}, count_api_call st2) /\
  api_calls (count_api_call st2) = S (S (api_calls st)) /\
  refresh_calls (count_api_call st2) = S (refresh_calls st).
Proof.
  intros Hnew H1 Hs1 Hc1 Hb1 Href HL H2 Hs2 Hb2.
  pose proof (RefreshToken_api_calls E (count_api_call st)) as Hac.
  pose proof (RefreshToken_counted E (count_api_call st)) as Hrc.
  rewrite Href in Hac, Hrc. cbn [snd count_api_call api_calls refresh_calls] in Hac, Hrc.
  split; [|split; cbn; congruence].
  cbn [backlog.doRequest]. rewrite !Hnew. unfold http.Do. rewrite H1, Hb1, Hs1.
  cbn [Z.eqb http.StatusUnauthorized Pos.eqb]. rewrite Hc1, Href, HL.
  cbn [backlog.cfg]. rewrite ?Hnew, Hac, H2, Hb2, Hs2. rewrite ?Hnew. reflexivity.
Qed.

Lemma doRequest_retry_uses_new_token_witness :
  fst (fst (backlog.doRequest 2
              (env_with
                 (fun _ req =>
                    if String.eqb (Authorization req) "Bearer access-2"
                    then Ok (response 200 EmptyString "issue")
                    else Ok expired_response)
                 (granting 3600))
              {| backlog.cfg := credential "access-1" "refresh-1" 0 |}
              "GET" "/api/v2/issues/DEMO-1"
              (stored (credential "access-1" "refresh-1" 0))))
  = backlog.Returned (Ok "issue").
Proof.
  destruct (doRequest_retry_uses_new_token
              (env_with
                 (fun _ req =>
                    if String.eqb (Authorization req) "Bearer access-2"
                    then Ok (response 200 EmptyString "issue")
                    else Ok expired_response)
                 (granting 3600))
              {| backlog.cfg := credential "access-1" "refresh-1" 0 |}
              "GET" "/api/v2/issues/DEMO-1"
              (stored (credential "access-1" "refresh-1" 0))
              (snd (auth.RefreshToken
                      (env_with
                         (fun _ req =>
                            if String.eqb (Authorization req) "Bearer access-2"
                            then Ok (response 200 EmptyString "issue")
                            else Ok expired_response)
                         (granting 3600))
                      (count_api_call
                         (stored (credential "access-1" "refresh-1" 0)))))
              0 expired_response (response 200 EmptyString "issue")
              EmptyString "issue" (credential "access-2" "refresh-2" 0))
    as [H _].
  - reflexivity.
  - reflexivity.
  - reflexivity.
  - reflexivity.
  - reflexivity.
  - vm_compute. reflexivity.
  - vm_compute. reflexivity.
  - reflexivity.
  - reflexivity.
  - reflexivity.
  - rewrite H. reflexivity.
Defined.

(** ** Requests with a form *)

Lemma Encode_content (content : string) :
  url.Encode (url.Set_ ∅ "content" content) =
  "content=" ++ url.QueryEscape content.
Proof.
  unfold url.Encode, url.sorted_keys, url.Set_, url.Values.
  rewrite insert_empty, map_to_list_singleton.
  cbn [map fst fold_right url.insert_sorted url.Encode_keys].
  unfold url.Values. rewrite lookup_singleton_eq. reflexivity.
Qed.

Lemma all_bytes_app (p : ascii -> bool) (a b : string) :
  all_bytes p (a ++ b) = all_bytes p a && all_bytes p b.
Proof.
  induction a as [|c a IH]; cbn; [reflexivity|]. rewrite IH. apply andb_assoc.
Qed.

Lemma upperhex_query_byte (i : Z) :
  0 <= i < 16 -> all_bytes query_byte (url.upperhex i) = true.
Proof.
  intros Hi.
  assert (H : i = 0 \/ i = 1 \/ i = 2 \/ i = 3 \/ i = 4 \/ i = 5 \/ i = 6 \/
              i = 7 \/ i = 8 \/ i = 9 \/ i = 10 \/ i = 11 \/ i = 12 \/
              i = 13 \/ i = 14 \/ i = 15) by lia.
  repeat (destruct H as [->|H]; [reflexivity|]). subst. reflexivity.
Qed.

Lemma QueryEscape_query_bytes (s : string) :
  all_bytes query_byte (url.QueryEscape s) = true.
Proof.
  induction s as [|c s IH]; [reflexivity|].
  cbn [url.QueryEscape]. rewrite all_bytes_app, IH, andb_true_r.
  pose proof (byte_val_range c) as Hc.
  destruct (byte_val c =? 32); [reflexivity|].
  destruct (url.shouldEscape (byte_val c)) eqn:Hesc.
  - change ("%" ++ url.upperhex (Z.shiftr (byte_val c) 4) ++
            url.upperhex (Z.land (byte_val c) 15))
      with (String "%" (url.upperhex (Z.shiftr (byte_val c) 4) ++
                        url.upperhex (Z.land (byte_val c) 15))).
    cbn [all_bytes]. rewrite all_bytes_app.
    rewrite !upperhex_query_byte; [reflexivity| |].
    + rewrite land_15. arith.
    + rewrite shiftr_4. arith.
  - cbn [all_bytes]. unfold query_byte. rewrite Hesc. reflexivity.
Qed.

(** X11.  The form of [AddComment].  The comment is sent as a POST to the
    comments of the issue, with the access token of the client, and its
    body is the single field [content], whose value is escaped: whatever
    the comment, what follows [content=] holds no [&] and no [=], only
    letters, digits, [-], [_], [.], [~], [+] and [%].  When the server
    answers this request with status 201 or 200, [AddComment] returns the
    body of the answer after this one call. *)
Theorem AddComment_form (form_server : nat -> FormRequest -> result Response)
    (E : Env) (c : backlog.Client) (issueKeyOrID content : string)
    (st : State) (fuel : nat) (resp : Response) (body : string) :
  new_request_error E "POST"
    ("https://" ++ config.Space (backlog.cfg c) ++
     "/api/v2/issues/" ++ issueKeyOrID ++ "/comments") = None ->
  form_server (api_calls st)
    {| request :=
         {| Method := "POST";
            URL := "https://" ++ config.Space (backlog.cfg c) ++
                   "/api/v2/issues/" ++ issueKeyOrID ++ "/comments";
            Authorization :=
              "Bearer " ++ config.AccessToken (backlog.cfg c) |};
       ContentType := "application/x-www-form-urlencoded";
       FormBody := "content=" ++ url.QueryEscape content |} = Ok resp ->
  Body resp = Ok body ->
  StatusCode resp = 201 \/ StatusCode resp = 200 ->
  api.AddComment form_server (S fuel) E c issueKeyOrID content st =
    (backlog.Returned (Ok body), c, count_api_call st) /\
  all_bytes query_byte (url.QueryEscape content) = true.
Proof.
  intros Hnew Hresp Hbody Hstatus.
  split; [|apply QueryEscape_query_bytes].
  unfold api.AddComment. cbn [api.doPostRequest].
  rewrite Encode_content.
  change (("/api/v2/issues/" ++ issueKeyOrID) ++ "/comments")
    with ("/api/v2/issues/" ++ issueKeyOrID ++ "/comments").
  rewrite Hnew. unfold api.Do. rewrite Hresp, Hbody.
  unfold http.StatusUnauthorized, http.StatusCreated, http.StatusOK.
  destruct Hstatus as [-> | ->]; reflexivity.
Qed.

Lemma AddComment_form_witness :
  api.AddComment
    (fun _ req =>
       if String.eqb (FormBody req) "content=a+%26+b%3Dc"
       then Ok (response 201 EmptyString "created")
       else Ok (response 400 EmptyString "bad request"))
    1 (env_with always_expired (granting 3600))
    {| backlog.cfg := credential "access-1" "refresh-1" 0 |}
    "DEMO-1" "a & b=c" empty_state =
  (backlog.Returned (Ok "created"),
   {| backlog.cfg := credential "access-1" "refresh-1" 0 |},
   count_api_call empty_state).
Proof.
  apply (AddComment_form
           (fun _ req =>
              if String.eqb (FormBody req) "content=a+%26+b%3Dc"
              then Ok (response 201 EmptyString "created")
              else Ok (response 400 EmptyString "bad request"))
           (env_with always_expired (granting 3600))
           {| backlog.cfg := credential "access-1" "refresh-1" 0 |}
           "DEMO-1" "a & b=c" empty_state 0
           (response 201 EmptyString "created") "created").
  - reflexivity.
  - reflexivity.
  - reflexivity.
  - left. reflexivity.
Defined.

(** X12.  [doPostRequest] takes the status 201 for a success, [doPatchRequest]
    does not.  For the same answer with status 201, [doPostRequest] returns
    the body and [doPatchRequest], hence [UpdateIssue], returns the
    request failed error that carries the status and the body; each makes
    one call and no refresh. *)
Theorem created_is_success_for_post_only
    (form_server : nat -> FormRequest -> result Response)
    (E : Env) (c : backlog.Client) (path : string) (data : url.Values)
    (st : State) (fuel : nat) (resp : Response) (body : string) :
  (forall m u, new_request_error E m u = None) ->
  (forall req, form_server (api_calls st) req = Ok resp) ->
  Body resp = Ok body ->
  StatusCode resp = 201 ->
  api.doPostRequest form_server (S fuel) E c path data st =
    (backlog.Returned (Ok body), c, count_api_call st) /\
  api.doPatchRequest form_server (S fuel) E c path data st =
    (backlog.Returned
       (Err (Errorf "API request failed with status %d: %s"
               [ArgInt 201; ArgStr body])), c, count_api_call st) /\
  api.UpdateIssue form_server (S fuel) E c path data st =
    (backlog.Returned
       (Err (Errorf "API request failed with status %d: %s"
               [ArgInt 201; ArgStr body])), c, count_api_call st).
Proof.
  intros Hnew Hresp Hbody Hstatus.
  unfold api.UpdateIssue. cbn [api.doPostRequest api.doPatchRequest].
  rewrite !Hnew. unfold api.Do. rewrite !Hresp, Hbody, Hstatus.
  repeat split.
Qed.

Lemma created_is_success_for_post_only_witness :
  api.doPatchRequest (fun _ _ => Ok (response 201 EmptyString "created")) 1
    (env_with always_expired (granting 3600))
    {| backlog.cfg := credential "access-1" "refresh-1" 0 |}
    "/api/v2/issues/DEMO-1" (url.Set_ ∅ "statusId" "2") empty_state =
  (backlog.Returned
     (Err (Errorf "API request failed with status %d: %s"
             [ArgInt 201; ArgStr "created"])),
   {| backlog.cfg := credential "access-1" "refresh-1" 0 |},
   count_api_call empty_state).
Proof.
  destruct (created_is_success_for_post_only
              (fun _ _ => Ok (response 201 EmptyString "created"))
              (env_with always_expired (granting 3600))
              {| backlog.cfg := credential "access-1" "refresh-1" 0 |}
              "/api/v2/issues/DEMO-1" (url.Set_ ∅ "statusId" "2") empty_state 0
              (response 201 EmptyString "created") "created")
    as (_ & H & _).
  - reflexivity.
  - reflexivity.
  - reflexivity.
  - reflexivity.
  - exact H.
Defined.

(** ** Comments as Markdown *)

Lemma FormatCommentsMarkdown_loop_concat (comments : list Comment.t) (n i : Z) :
  n = i + Z.of_nat (List.length comments) ->
  format.FormatCommentsMarkdown_loop n i comments =
  String.concat (newline ++ "---" ++ newline ++ newline)
    (map format.FormatCommentMarkdown comments).
Proof.
  revert i. induction comments as [|c [|c' rest] IH]; intros i Hn.
  - reflexivity.
  - cbn [format.FormatCommentsMarkdown_loop map String.concat].
    cbn [List.length] in Hn.
    replace (i <? n - 1) with false by (symmetry; apply Z.ltb_ge; lia).
    now rewrite !app_empty_r.
  - cbn [map String.concat].
    change (format.FormatCommentsMarkdown_loop n i (c :: c' :: rest)) with
      (format.FormatCommentMarkdown c ++
       (if i <? n - 1 then newline ++ "---" ++ newline ++ newline
        else EmptyString) ++
       format.FormatCommentsMarkdown_loop n (i + 1) (c' :: rest)).
    cbn [List.length] in Hn.
    replace (i <? n - 1) with true by (symmetry; apply Z.ltb_lt; lia).
    rewrite (IH (i + 1)) by (cbn [List.length]; lia).
    cbn [map]. now rewrite !app_assoc_string.
Qed.

(** X13.  [FormatCommentsMarkdown] writes the comments in their order, each as
    [FormatCommentMarkdown] writes it, with the separator line [---]
    between two comments and nothing after the last one: the loop with its
    test on the index gives the concatenation with separators.  For no
    comment the result is empty. *)
Theorem FormatCommentsMarkdown_separators (comments : list Comment.t) :
  format.FormatCommentsMarkdown comments =
  String.concat (newline ++ "---" ++ newline ++ newline)
    (map format.FormatCommentMarkdown comments).
Proof.
  unfold format.FormatCommentsMarkdown.
  apply FormatCommentsMarkdown_loop_concat. lia.
Qed.

(** ** The login before the terminal programs *)

(** X14.  The earlier [Login] shuts the callback server down itself before it
    goes on or returns: on every path, whatever the space, the events of
    the wait and the answers of the token endpoint, the callback port is
    at the return as it was at the call, so a port that was free is free
    again; and an invalid space is refused before anything else is done. *)
Theorem legacy_Login_releases_port (E : Env) (space : string)
    (random : result string) (events : list legacy.event) (st : State) :
  port_bound (snd (legacy.Login E space random events st)) = port_bound st /\
  forall e, auth.ValidateSpace space = Some e ->
            legacy.Login E space random events st = (Some e, st).
Proof.
  split; [|intros e He; unfold legacy.Login; now rewrite He].
  unfold legacy.Login.
  destruct (auth.ValidateSpace space); [reflexivity|].
  destruct (_ || _); [reflexivity|].
  destruct (auth.generateState random) as [state|e]; [|reflexivity].
  destruct (port_bound st) eqn:Hp; [exact Hp|].
  destruct (legacy.wait state events (set_port_bound true st)) as [r st2].
  destruct (auth.err r); [reflexivity|].
  match goal with |- context [auth.exchangeCode E ?b ?c ?u ?s] =>
    pose proof (exchangeCode_frame E b c u s) as [Hx _];
    destruct (auth.exchangeCode E b c u s) as [[token|e] st4]
  end; cbn [fst snd port_bound set_port_bound] in Hx; [|exact Hx].
  destruct (config.Load E st4) as [cfg|e]; [|exact Hx].
  match goal with |- context [config.Save E ?c' st4] =>
    destruct (config.Save E c' st4) as [r' st5] eqn:Hsave
  end.
  apply Save_frame in Hsave as (Hp5 & _).
  destruct r'; cbn [fst snd]; congruence.
Qed.

(** ** The config path and the config file *)

(** X15.  With neither [XDG_CONFIG_HOME] nor [HOME] set there is no config
    path: [Load] and [Save] return the error of [os.UserHomeDir], [Save]
    writes nothing, and [NewClient], [Logout] and [RefreshToken] fail with
    this error wrapped, before any request. *)
Theorem config_without_home (E : Env) (st : State) (c : config.Config) :
  XDG_CONFIG_HOME E = EmptyString ->
  HOME E = EmptyString ->
  config.Load E st = Err HomeNotDefined /\
  config.Save E c st = (Some HomeNotDefined, st) /\
  backlog.NewClient E st =
    (Err (Errorf "failed to load config: %w" [ArgErr HomeNotDefined]), st) /\
  auth.Logout E st =
    (Some (Errorf "failed to load config: %w" [ArgErr HomeNotDefined]), st) /\
  auth.RefreshToken E st =
    (Some (Errorf "failed to load config: %w" [ArgErr HomeNotDefined]),
     count_refresh_call st).
Proof.
  intros Hx Hh.
  assert (HL : forall s, config.Load E s = Err HomeNotDefined).
  { intros s. unfold config.Load, config.GetConfigPath, config.GetConfigDir,
      os.UserHomeDir. now rewrite Hx, Hh. }
  split; [apply HL|]. split.
  - unfold config.Save, config.GetConfigDir, os.UserHomeDir. now rewrite Hx, Hh.
  - unfold backlog.NewClient, auth.Logout, auth.RefreshToken.
    rewrite !HL. repeat split.
Qed.

Lemma config_without_home_witness :
  config.Load
    {| XDG_CONFIG_HOME := EmptyString; HOME := EmptyString;
       ClientID := "client"; ClientSecret := "secret";
       deny_read := ∅; deny_write := ∅; write_limit := ∅; now := 0;
       api_server := always_expired; token_server := granting 3600;
       new_request_error := fun _ _ => None |}
    (stored (credential "access-1" "refresh-1" 0)) = Err HomeNotDefined.
Proof.
  destruct (config_without_home
              {| XDG_CONFIG_HOME := EmptyString; HOME := EmptyString;
                 ClientID := "client"; ClientSecret := "secret";
                 deny_read := ∅; deny_write := ∅; write_limit := ∅; now := 0;
                 api_server := always_expired; token_server := granting 3600;
                 new_request_error := fun _ _ => None |}
              (stored (credential "access-1" "refresh-1" 0)) config.zero)
    as (H & _).
  - reflexivity.
  - reflexivity.
  - exact H.
Defined.

(** X16.  What [Load] returns is a fixed point of saving and loading: when a
    credential that was loaded is saved again, the next [Load] returns
    this same credential, whatever bytes the file held before. *)
Theorem Load_Save_Load (E : Env) (st st' : State) (c : config.Config) :
  config.Load E st = Ok c ->
  config.Save E c st = (None, st') ->
  config.Load E st' = Ok c.
Proof.
  intros HL Hsave.
  destruct (Load_stable E st c HL) as ((Hs & Ha & Hr & Hi) & Hread).
  rewrite (Load_Save E c st st' Hi Hsave Hread).
  f_equal. now apply coerce_valid.
Qed.

Lemma Load_Save_Load_witness :
  config.Load (env_with always_expired (granting 3600))
    (snd (config.Save (env_with always_expired (granting 3600))
            {| config.Space := "demo.backlog.com"; config.AccessToken := "a";
               config.RefreshToken := EmptyString; config.ExpiresAt := 7 |}
            (state_with
               {[ demo_path :=
                    "{" ++ quoted "Space" ++ ":" ++ quoted "demo.backlog.com" ++
                    "," ++ quoted "access_token" ++ ": " ++ quoted "a" ++
                    "," ++ quoted "unknown" ++ ":[1,2]," ++
                    quoted "expires_at" ++ ":7}" ]})))
  = Ok {| config.Space := "demo.backlog.com"; config.AccessToken := "a";
          config.RefreshToken := EmptyString; config.ExpiresAt := 7 |}.
Proof.
  apply (Load_Save_Load (env_with always_expired (granting 3600))
           (state_with
              {[ demo_path :=
                   "{" ++ quoted "Space" ++ ":" ++ quoted "demo.backlog.com" ++
                   "," ++ quoted "access_token" ++ ": " ++ quoted "a" ++
                   "," ++ quoted "unknown" ++ ":[1,2]," ++
                   quoted "expires_at" ++ ":7}" ]})).
  - vm_compute. reflexivity.
  - reflexivity.
Defined.

Lemma scan_value_empty (f : nat) (d : Z) :
  json.scan_value f d EmptyString = None.
Proof. destruct f; reflexivity. Qed.

(** X17.  Only a missing file is taken for an empty config.  When the config
    file exists but cannot be read, [Load] returns the error of the read;
    when it holds nothing but white space, as a file of length zero does,
    [Load] returns a syntax error.  In both cases [NewClient] fails with
    the error wrapped and makes no request. *)
Theorem Load_unreadable_or_blank (E : Env) (st : State) (configPath : string) :
  config.GetConfigPath E = Ok configPath ->
  (configPath ∈ deny_read E ->
   config.Load E st = Err (PathError "open" configPath EACCES) /\
   backlog.NewClient E st =
     (Err (Errorf "failed to load config: %w"
             [ArgErr (PathError "open" configPath EACCES)]), st)) /\
  (forall data,
     configPath ∉ deny_read E ->
     files st !! configPath = Some data ->
     json.skip_space data = EmptyString ->
     config.Load E st = Err SyntaxError /\
     backlog.NewClient E st =
       (Err (Errorf "failed to load config: %w" [ArgErr SyntaxError]), st)).
Proof.
  intros Hpath. split.
  - intros Hin.
    assert (HL : config.Load E st = Err (PathError "open" configPath EACCES)).
    { unfold config.Load, os.ReadFile. rewrite Hpath.
      destruct (decide (configPath ∈ deny_read E)); [reflexivity|contradiction]. }
    split; [exact HL|]. unfold backlog.NewClient. now rewrite HL.
  - intros data Hnin Hfile Hblank.
    assert (HL : config.Load E st = Err SyntaxError).
    { unfold config.Load, os.ReadFile. rewrite Hpath.
      destruct (decide (configPath ∈ deny_read E)); [contradiction|].
      rewrite Hfile. unfold config.Unmarshal, json.Unmarshal, json.scan_document.
      now rewrite Hblank, scan_value_empty. }
    split; [exact HL|]. unfold backlog.NewClient. now rewrite HL.
Qed.

Lemma Load_unreadable_or_blank_witness :
  config.Load (env_with always_expired (granting 3600))
    (state_with {[ demo_path := newline ]}) = Err SyntaxError.
Proof.
  destruct (Load_unreadable_or_blank
              (env_with always_expired (granting 3600))
              (state_with {[ demo_path := newline ]}) demo_path) as (_ & H).
  - reflexivity.
  - destruct (H newline) as [HL _].
    + vm_compute. set_solver.
    + reflexivity.
    + reflexivity.
    + exact HL.
Defined.

(** ** The nonce *)

Lemma hex_lower (i : Z) :
  0 <= i < 16 ->
  all_bytes lower_hex (json.hex i) = true /\
  url.QueryEscape (json.hex i) = json.hex i /\
  String.length (json.hex i) = 1%nat.
Proof.
  intros Hi.
  assert (H : i = 0 \/ i = 1 \/ i = 2 \/ i = 3 \/ i = 4 \/ i = 5 \/ i = 6 \/
              i = 7 \/ i = 8 \/ i = 9 \/ i = 10 \/ i = 11 \/ i = 12 \/
              i = 13 \/ i = 14 \/ i = 15) by lia.
  repeat (destruct H as [->|H]; [repeat split|]). subst. repeat split.
Qed.

Lemma QueryEscape_app (a b : string) :
  url.QueryEscape (a ++ b) = url.QueryEscape a ++ url.QueryEscape b.
Proof.
  induction a as [|c a IH]; [reflexivity|].
  cbn [url.QueryEscape String.append]. rewrite IH.
  change (String c a ++ b) with (String c (a ++ b)).
  cbn [url.QueryEscape]. now rewrite app_assoc_string.
Qed.

Lemma hex_inj (i j : Z) :
  0 <= i < 16 -> 0 <= j < 16 -> json.hex i = json.hex j -> i = j.
Proof.
  intros Hi Hj. unfold json.hex, chr.
  destruct (Z.ltb_spec i 10); destruct (Z.ltb_spec j 10); intros Heq;
    injection Heq as Heq'; apply (f_equal byte_val) in Heq';
    rewrite !byte_val_byte in Heq' by lia; lia.
Qed.

Lemma EncodeToString_inj (b1 b2 : string) :
  auth.EncodeToString b1 = auth.EncodeToString b2 -> b1 = b2.
Proof.
  revert b2. induction b1 as [|c1 b1 IH]; intros [|c2 b2] H.
  - reflexivity.
  - cbn [auth.EncodeToString] in H. unfold json.hex at 1, chr in H.
    destruct (_ <? 10); discriminate H.
  - cbn [auth.EncodeToString] in H. unfold json.hex at 1, chr in H.
    destruct (_ <? 10); discriminate H.
  - cbn [auth.EncodeToString] in H.
    pose proof (byte_val_range c1) as H1. pose proof (byte_val_range c2) as H2.
    assert (Hh1 : 0 <= Z.shiftr (byte_val c1) 4 < 16) by (rewrite shiftr_4; arith).
    assert (Hh2 : 0 <= Z.shiftr (byte_val c2) 4 < 16) by (rewrite shiftr_4; arith).
    assert (Hl1 : 0 <= Z.land (byte_val c1) 15 < 16) by (rewrite land_15; arith).
    assert (Hl2 : 0 <= Z.land (byte_val c2) 15 < 16) by (rewrite land_15; arith).
    destruct (json.hex (Z.shiftr (byte_val c1) 4)) as [|x1 [|? ?]] eqn:E1;
      try (apply (f_equal String.length) in E1;
           rewrite (proj2 (proj2 (hex_lower _ Hh1))) in E1; discriminate E1).
    destruct (json.hex (Z.shiftr (byte_val c2) 4)) as [|x2 [|? ?]] eqn:E2;
      try (apply (f_equal String.length) in E2;
           rewrite (proj2 (proj2 (hex_lower _ Hh2))) in E2; discriminate E2).
    destruct (json.hex (Z.land (byte_val c1) 15)) as [|y1 [|? ?]] eqn:F1;
      try (apply (f_equal String.length) in F1;
           rewrite (proj2 (proj2 (hex_lower _ Hl1))) in F1; discriminate F1).
    destruct (json.hex (Z.land (byte_val c2) 15)) as [|y2 [|? ?]] eqn:F2;
      try (apply (f_equal String.length) in F2;
           rewrite (proj2 (proj2 (hex_lower _ Hl2))) in F2; discriminate F2).
    cbn in H. injection H as Hx Hy Hrest.
    subst x2 y2. rewrite <- E2 in E1. rewrite <- F2 in F1.
    apply hex_inj in E1; [|assumption|assumption].
    apply hex_inj in F1; [|assumption|assumption].
    f_equal; [|now apply IH].
    apply byte_val_inj. rewrite !shiftr_4 in E1. rewrite !land_15 in F1.
    arith.
Qed.

(** X18.  [generateState] writes every random byte as two hexadecimal digits in
    lower case, so different random bytes give different nonces, the
    nonce of 16 bytes has 32 characters, and [url.QueryEscape] leaves it as
    it is in the authorization URL.  An error of the random source is
    returned as it is. *)
Theorem generateState_hex (b : string) :
  (exists state,
     auth.generateState (Ok b) = Ok state /\
     String.length state = (2 * String.length b)%nat /\
     all_bytes lower_hex state = true /\
     url.QueryEscape state = state) /\
  (forall b', auth.generateState (Ok b) = auth.generateState (Ok b') -> b = b') /\
  (forall e, auth.generateState (Err e) = Err e).
Proof.
  split; [|split].
  - exists (auth.EncodeToString b). split; [reflexivity|].
    induction b as [|c b (IHl & IHa & IHq)]; [repeat split|].
    pose proof (byte_val_range c) as Hc.
    assert (Hh : 0 <= Z.shiftr (byte_val c) 4 < 16) by (rewrite shiftr_4; arith).
    assert (Hl : 0 <= Z.land (byte_val c) 15 < 16) by (rewrite land_15; arith).
    destruct (hex_lower _ Hh) as (Ha1 & Hq1 & Hn1).
    destruct (hex_lower _ Hl) as (Ha2 & Hq2 & Hn2).
    cbn [auth.EncodeToString]. split; [|split].
    + rewrite !length_app, Hn1, Hn2, IHl. cbn [String.length]. lia.
    + now rewrite !all_bytes_app, Ha1, Ha2, IHa.
    + now rewrite !QueryEscape_app, Hq1, Hq2, IHq.
  - intros b' H. cbn in H. injection H as H'. now apply EncodeToString_inj.
  - reflexivity.
Qed.

(** ** The arguments of the commands *)

Lemma no_help_cons (arg : string) (args : list string) :
  no_help (arg :: args) <->
  arg <> "-h" /\ arg <> "--help" /\ no_help args.
Proof.
  unfold no_help. cbn [In]. intuition congruence.
Qed.

Lemma positional_cons (arg : string) (args : list string) :
  positional (arg :: args) =
  if String.eqb arg "--raw" then positional args else arg :: positional args.
Proof.
  unfold positional. cbn [List.filter]. destruct (String.eqb arg "--raw"); reflexivity.
Qed.

Lemma repeat_empty_cons (n : nat) (key arg : string) (l : list string) :
  arg :: l = (repeat EmptyString n ++ [key])%list ->
  key <> EmptyString ->
  (arg = EmptyString /\ exists n', l = (repeat EmptyString n' ++ [key])%list) \/
  (arg = key /\ l = []).
Proof.
  destruct n as [|n]; cbn; intros H Hk; injection H as -> ->.
  - right. auto.
  - left. split; [reflexivity|]. now exists n.
Qed.

(** The loop once the issue key is known. *)
Lemma handleIssueView_loop_key (args : list string) (opts : issue.ViewOptions.t)
    (issueKey key : string) (raw : bool) :
  issueKey <> EmptyString ->
  main.handleIssueView_loop args opts issueKey =
    main.Invoke (key, {| issue.ViewOptions.Raw := raw |}) <->
  no_help args /\ key = issueKey /\ positional args = [] /\
  raw = issue.ViewOptions.Raw opts || existsb (String.eqb "--raw") args.
Proof.
  intros Hk. revert opts. induction args as [|arg args IH]; intros opts.
  - cbn [main.handleIssueView_loop existsb]. rewrite orb_false_r.
    apply String.eqb_neq in Hk. rewrite Hk. destruct opts as [r]. cbn.
    unfold no_help. cbn [In]. split.
    + intros H. injection H as -> ->. tauto.
    + intros (_ & -> & _ & ->). reflexivity.
  - cbn [main.handleIssueView_loop existsb].
    rewrite no_help_cons, positional_cons.
    destruct (String.eqb_spec arg "--raw") as [->|Hraw].
    + rewrite IH. cbn [issue.ViewOptions.Raw orb String.eqb Ascii.eqb Bool.eqb andb].
      rewrite orb_true_r. split.
      * intros ([H0 H1] & H2 & H3 & H4). repeat split; auto; discriminate.
      * intros ((_ & _ & H1) & H2 & H3 & H4). auto.
    + destruct (String.eqb_spec arg "-h") as [->|Hh];
        [cbn [orb]; split; [discriminate | intros ((H & _) & _); now elim H]|].
      destruct (String.eqb_spec arg "--help") as [->|Hhelp];
        [cbn [orb]; split; [discriminate | intros ((_ & H & _) & _); now elim H]|].
      cbn [orb]. apply String.eqb_neq in Hk. rewrite Hk.
      split; [discriminate | intros (_ & _ & H & _); discriminate H].
Qed.

(** The loop before the issue key is known. *)
Lemma handleIssueView_loop_start (args : list string)
    (opts : issue.ViewOptions.t) (key : string) (raw : bool) :
  main.handleIssueView_loop args opts EmptyString =
    main.Invoke (key, {| issue.ViewOptions.Raw := raw |}) <->
  no_help args /\ key <> EmptyString /\
  (exists n, positional args = (repeat EmptyString n ++ [key])%list) /\
  raw = issue.ViewOptions.Raw opts || existsb (String.eqb "--raw") args.
Proof.
  revert opts. induction args as [|arg args IH]; intros opts.
  - cbn. split; [discriminate|].
    intros (_ & _ & [n Hn] & _). destruct n; discriminate Hn.
  - cbn [main.handleIssueView_loop existsb].
    rewrite no_help_cons, positional_cons.
    destruct (String.eqb_spec arg "--raw") as [->|Hraw].
    + rewrite IH. cbn [issue.ViewOptions.Raw orb String.eqb Ascii.eqb Bool.eqb andb].
      rewrite orb_true_r. split.
      * intros ([H0 H1] & H2 & H3 & H4). repeat split; auto; discriminate.
      * intros ((_ & _ & H1) & H2 & H3 & H4). auto.
    + destruct (String.eqb_spec arg "-h") as [->|Hh];
        [cbn [orb]; split; [discriminate | intros ((H & _) & _); now elim H]|].
      destruct (String.eqb_spec arg "--help") as [->|Hhelp];
        [cbn [orb]; split; [discriminate | intros ((_ & H & _) & _); now elim H]|].
      cbn [orb]. rewrite String.eqb_refl.
      replace (String.eqb "--raw" arg) with false
        by (symmetry; apply String.eqb_neq; congruence).
      cbn [orb].
      destruct (String.eqb_spec arg EmptyString) as [->|Harg].
      * rewrite IH. split.
        -- intros (H1 & H2 & [n Hn] & H4).
           split; [tauto|]. split; [exact H2|]. split; [|exact H4].
           exists (S n). cbn. now rewrite Hn.
        -- intros ((_ & _ & H1) & H2 & [n Hn] & H4).
           split; [exact H1|]. split; [exact H2|]. split; [|exact H4].
           destruct (repeat_empty_cons n key EmptyString _ Hn H2)
             as [(_ & n' & Hn') | (Hk & _)]; [now exists n' | congruence].
      * rewrite (handleIssueView_loop_key args opts arg key raw Harg). split.
        -- intros (H1 & -> & H3 & H4).
           split; [tauto|]. split; [exact Harg|]. split; [|exact H4].
           exists O. cbn. now rewrite H3.
        -- intros ((_ & _ & H1) & H2 & [n Hn] & H4).
           destruct (repeat_empty_cons n key arg _ Hn H2)
             as [(Hk & _) | (-> & Hnil)]; [contradiction|]. auto.
Qed.

(** X19.  [handleIssueView] calls [issue.View] exactly when no argument asks for
    the help and, [--raw] apart, the arguments are one issue key that is
    not empty, with nothing after it and only empty arguments before it;
    the command gets this key, and the raw option exactly when [--raw] is
    among the arguments, wherever it stands. *)
Theorem handleIssueView_invokes (args : list string) (key : string) (raw : bool) :
  main.handleIssueView args =
    main.Invoke (key, {| issue.ViewOptions.Raw := raw |}) <->
  no_help args /\ key <> EmptyString /\
  (exists n, positional args = (repeat EmptyString n ++ [key])%list) /\
  raw = existsb (String.eqb "--raw") args.
Proof.
  unfold main.handleIssueView. destruct args as [|arg args].
  - split; [discriminate|].
    intros (_ & _ & [n Hn] & _). destruct n; discriminate Hn.
  - apply handleIssueView_loop_start.
Qed.

Lemma no_help_raw (args : list string) :
  no_help ("--raw" :: args) <-> no_help args.
Proof.
  rewrite no_help_cons. split; [tauto|].
  intros H. repeat split; try discriminate. apply H. apply H.
Qed.

Lemma no_help_h (args : list string) : ~ no_help ("-h" :: args).
Proof. rewrite no_help_cons. tauto. Qed.

Lemma no_help_help (args : list string) : ~ no_help ("--help" :: args).
Proof. rewrite no_help_cons. tauto. Qed.

Lemma no_help_other (arg : string) (args : list string) :
  arg <> "-h" -> arg <> "--help" -> (no_help (arg :: args) <-> no_help args).
Proof. rewrite no_help_cons. tauto. Qed.

Lemma positional_raw (args : list string) :
  positional ("--raw" :: args) = positional args.
Proof. reflexivity. Qed.

Lemma positional_other (arg : string) (args : list string) :
  arg <> "--raw" -> positional (arg :: args) = arg :: positional args.
Proof.
  intros H. rewrite positional_cons. apply String.eqb_neq in H. now rewrite H.
Qed.

Lemma existsb_raw_other (arg : string) (args : list string) :
  arg <> "--raw" ->
  existsb (String.eqb "--raw") (arg :: args) = existsb (String.eqb "--raw") args.
Proof.
  intros H. cbn [existsb].
  replace (String.eqb "--raw" arg) with false
    by (symmetry; apply String.eqb_neq; congruence).
  reflexivity.
Qed.

Lemma cons_repeat_empty (arg : string) (l : list string) (m : nat) :
  arg :: l = repeat EmptyString m ->
  arg = EmptyString /\ exists m', l = repeat EmptyString m'.
Proof.
  destruct m as [|m]; cbn; intros H; [discriminate H|].
  injection H as -> ->. split; [reflexivity | now exists m].
Qed.

Lemma cons_repeat_empty_key (arg key : string) (l tail : list string) (n : nat) :
  arg :: l = (repeat EmptyString n ++ key :: tail)%list ->
  key <> EmptyString ->
  (arg = EmptyString /\
   exists n', l = (repeat EmptyString n' ++ key :: tail)%list) \/
  (arg = key /\ l = tail).
Proof.
  destruct n as [|n]; cbn; intros H Hk; injection H as -> ->.
  - right. auto.
  - left. split; [reflexivity | now exists n].
Qed.

(** The loop of [handleCommentView] once both the issue key and the
    comment are known. *)
Lemma handleCommentView_loop_both (args : list string)
    (opts : comment.ViewOptions.t) (issueKey commentID : string)
    (call : main.comment_view) :
  issueKey <> EmptyString -> commentID <> EmptyString ->
  main.handleCommentView_loop args opts issueKey commentID = main.Invoke call <->
  no_help args /\ positional args = [] /\
  call = main.View issueKey commentID
           {| comment.ViewOptions.Raw :=
                comment.ViewOptions.Raw opts ||
                existsb (String.eqb "--raw") args |}.
Proof.
  intros Hk Hc. revert opts. induction args as [|arg args IH]; intros opts.
  - cbn [main.handleCommentView_loop existsb]. rewrite orb_false_r.
    apply String.eqb_neq in Hk, Hc. rewrite Hk, Hc. cbn [negb].
    destruct opts as [r]. cbn [comment.ViewOptions.Raw].
    unfold no_help. cbn [In]. split.
    + intros H. injection H as <-. tauto.
    + intros (_ & _ & ->). reflexivity.
  - cbn [main.handleCommentView_loop].
    destruct (String.eqb_spec arg "--raw") as [->|Hraw].
    + rewrite IH, no_help_raw, positional_raw.
      cbn [comment.ViewOptions.Raw existsb]. rewrite String.eqb_refl.
      cbn [orb]. rewrite orb_true_r. reflexivity.
    + destruct (String.eqb_spec arg "-h") as [->|Hh];
        [cbn [orb]; split; [discriminate | intros [H _]; elim (no_help_h _ H)]|].
      destruct (String.eqb_spec arg "--help") as [->|Hhelp];
        [cbn [orb]; split; [discriminate | intros [H _]; elim (no_help_help _ H)]|].
      cbn [orb]. apply String.eqb_neq in Hk, Hc. rewrite Hk, Hc.
      rewrite positional_other by exact Hraw.
      split; [discriminate | intros (_ & H & _); discriminate H].
Qed.

(** The loop once the issue key is known. *)
Lemma handleCommentView_loop_key (args : list string)
    (opts : comment.ViewOptions.t) (issueKey : string)
    (call : main.comment_view) :
  issueKey <> EmptyString ->
  main.handleCommentView_loop args opts issueKey EmptyString = main.Invoke call <->
  no_help args /\
  ((exists m,
      positional args = repeat EmptyString m /\
      call = main.ViewList issueKey
               {| comment.ViewOptions.Raw :=
                    comment.ViewOptions.Raw opts ||
                    existsb (String.eqb "--raw") args |}) \/
   (exists m commentID,
      commentID <> EmptyString /\
      positional args = (repeat EmptyString m ++ [commentID])%list /\
      call = main.View issueKey commentID
               {| comment.ViewOptions.Raw :=
                    comment.ViewOptions.Raw opts ||
                    existsb (String.eqb "--raw") args |})).
Proof.
  intros Hk. revert opts. induction args as [|arg args IH]; intros opts.
  - cbn [main.handleCommentView_loop existsb]. rewrite orb_false_r.
    pose proof Hk as Hk'. apply String.eqb_neq in Hk'. rewrite Hk'.
    cbn [String.eqb negb]. destruct opts as [r]. cbn [comment.ViewOptions.Raw].
    unfold no_help. cbn [In]. split.
    + intros H. injection H as <-. split; [tauto|]. left. now exists O.
    + intros (_ & [(m & _ & ->) | (m & cid & _ & H & _)]); [reflexivity|].
      destruct m; discriminate H.
  - cbn [main.handleCommentView_loop].
    destruct (String.eqb_spec arg "--raw") as [->|Hraw].
    + rewrite IH, no_help_raw, positional_raw.
      cbn [comment.ViewOptions.Raw existsb]. rewrite String.eqb_refl.
      cbn [orb]. rewrite orb_true_r. reflexivity.
    + destruct (String.eqb_spec arg "-h") as [->|Hh];
        [cbn [orb]; split; [discriminate | intros [H _]; elim (no_help_h _ H)]|].
      destruct (String.eqb_spec arg "--help") as [->|Hhelp];
        [cbn [orb]; split; [discriminate | intros [H _]; elim (no_help_help _ H)]|].
      cbn [orb]. pose proof Hk as Hk'. apply String.eqb_neq in Hk'. rewrite Hk'.
      rewrite String.eqb_refl.
      rewrite (no_help_other arg args Hh Hhelp), positional_other by exact Hraw.
      rewrite existsb_raw_other by exact Hraw.
      destruct (String.eqb_spec arg EmptyString) as [->|Harg].
      * rewrite IH. split.
        -- intros (H1 & [(m & Hm & Hx) | (m & cid & Hc & Hm & Hx)]);
             (split; [exact H1|]).
           ++ left. exists (S m). cbn. now rewrite Hm.
           ++ right. exists (S m), cid. cbn. now rewrite Hm.
        -- intros (H1 & [(m & Hm & Hx) | (m & cid & Hc & Hm & Hx)]);
             (split; [exact H1|]).
           ++ left. apply cons_repeat_empty in Hm as (_ & m' & Hm').
              now exists m'.
           ++ right.
              destruct (repeat_empty_cons m cid EmptyString _ Hm Hc)
                as [(_ & m' & Hm') | (Hcid & _)]; [|congruence].
              now exists m', cid.
      * rewrite (handleCommentView_loop_both args opts issueKey arg call Hk Harg).
        split.
        -- intros (H1 & Hm & Hx). split; [exact H1|]. right.
           exists O, arg. cbn. now rewrite Hm.
        -- intros (H1 & [(m & Hm & Hx) | (m & cid & Hc & Hm & Hx)]).
           ++ apply cons_repeat_empty in Hm as (Hm & _). contradiction.
           ++ destruct (repeat_empty_cons m cid arg _ Hm Hc)
                as [(Ha & _) | (-> & Hnil)]; [contradiction|]. auto.
Qed.

(** The loop from its start. *)
Lemma handleCommentView_loop_start (args : list string)
    (opts : comment.ViewOptions.t) (call : main.comment_view) :
  main.handleCommentView_loop args opts EmptyString EmptyString
    = main.Invoke call <->
  no_help args /\
  exists n issueKey,
    issueKey <> EmptyString /\
    ((exists m,
        positional args =
          (repeat EmptyString n ++ issueKey :: repeat EmptyString m)%list /\
        call = main.ViewList issueKey
                 {| comment.ViewOptions.Raw :=
                      comment.ViewOptions.Raw opts ||
                      existsb (String.eqb "--raw") args |}) \/
     (exists m commentID,
        commentID <> EmptyString /\
        positional args =
          (repeat EmptyString n ++ issueKey :: repeat EmptyString m ++
           [commentID])%list /\
        call = main.View issueKey commentID
                 {| comment.ViewOptions.Raw :=
                      comment.ViewOptions.Raw opts ||
                      existsb (String.eqb "--raw") args |})).
Proof.
  revert opts. induction args as [|arg args IH]; intros opts.
  - cbn. split; [discriminate|].
    intros (_ & n & k & _ & [(m & H & _) | (m & cid & _ & H & _)]);
      destruct n; discriminate H.
  - cbn [main.handleCommentView_loop].
    destruct (String.eqb_spec arg "--raw") as [->|Hraw].
    + rewrite IH, no_help_raw, positional_raw.
      cbn [comment.ViewOptions.Raw existsb]. rewrite String.eqb_refl.
      cbn [orb]. rewrite orb_true_r. reflexivity.
    + destruct (String.eqb_spec arg "-h") as [->|Hh];
        [cbn [orb]; split; [discriminate | intros [H _]; elim (no_help_h _ H)]|].
      destruct (String.eqb_spec arg "--help") as [->|Hhelp];
        [cbn [orb]; split; [discriminate | intros [H _]; elim (no_help_help _ H)]|].
      cbn [orb]. rewrite String.eqb_refl.
      rewrite (no_help_other arg args Hh Hhelp), positional_other by exact Hraw.
      rewrite existsb_raw_other by exact Hraw.
      destruct (String.eqb_spec arg EmptyString) as [->|Harg].
      * rewrite IH. split.
        -- intros (H1 & n & k & Hk & [(m & Hm & Hx) | (m & cid & Hc & Hm & Hx)]);
             (split; [exact H1|]); exists (S n), k; (split; [exact Hk|]).
           ++ left. exists m. cbn. now rewrite Hm.
           ++ right. exists m, cid. cbn. now rewrite Hm.
        -- intros (H1 & n & k & Hk & [(m & Hm & Hx) | (m & cid & Hc & Hm & Hx)]);
             (split; [exact H1|]).
           ++ destruct (cons_repeat_empty_key _ _ _ _ n Hm Hk)
                as [(_ & n' & Hn') | (Ha & _)]; [|congruence].
              exists n', k. split; [exact Hk|]. left. now exists m.
           ++ destruct (cons_repeat_empty_key _ _ _ _ n Hm Hk)
                as [(_ & n' & Hn') | (Ha & _)]; [|congruence].
              exists n', k. split; [exact Hk|]. right. now exists m, cid.
      * rewrite (handleCommentView_loop_key args opts arg call Harg). split.
        -- intros (H1 & [(m & Hm & Hx) | (m & cid & Hc & Hm & Hx)]);
             (split; [exact H1|]); exists O, arg; (split; [exact Harg|]).
           ++ left. exists m. cbn. now rewrite Hm.
           ++ right. exists m, cid. cbn. now rewrite Hm.
        -- intros (H1 & n & k & Hk & [(m & Hm & Hx) | (m & cid & Hc & Hm & Hx)]);
             (split; [exact H1|]).
           ++ destruct (cons_repeat_empty_key _ _ _ _ n Hm Hk)
                as [(Ha & _) | (-> & Htail)]; [contradiction|].
              left. now exists m.
           ++ destruct (cons_repeat_empty_key _ _ _ _ n Hm Hk)
                as [(Ha & _) | (-> & Htail)]; [contradiction|].
              right. now exists m, cid.
Qed.

(** X20.  [handleCommentView] chooses between the list and the single comment
    by the arguments that are left once [--raw] is taken out, empty
    arguments being skipped.  It calls [comment.ViewList] exactly when no
    argument asks for the help and these arguments hold one issue key that
    is not empty and nothing else that is not empty; it calls
    [comment.View] exactly when, after the issue key, they hold one
    comment that is not empty, as the last of them.  In both cases the raw
    option is set exactly when [--raw] is among the arguments. *)
Theorem handleCommentView_invokes (args : list string)
    (issueKey commentID : string) (raw : bool) :
  (main.handleCommentView args =
     main.Invoke (main.ViewList issueKey {| comment.ViewOptions.Raw := raw |}) <->
   no_help args /\ issueKey <> EmptyString /\
   (exists n m,
      positional args =
        (repeat EmptyString n ++ issueKey :: repeat EmptyString m)%list) /\
   raw = existsb (String.eqb "--raw") args) /\
  (main.handleCommentView args =
     main.Invoke (main.View issueKey commentID
                    {| comment.ViewOptions.Raw := raw |}) <->
   no_help args /\ issueKey <> EmptyString /\ commentID <> EmptyString /\
   (exists n m,
      positional args =
        (repeat EmptyString n ++ issueKey :: repeat EmptyString m ++
         [commentID])%list) /\
   raw = existsb (String.eqb "--raw") args).
Proof.
  unfold main.handleCommentView. destruct args as [|arg args].
  - split; (split; [discriminate|]).
    + intros (_ & _ & (n & m & H) & _). destruct n; discriminate H.
    + intros (_ & _ & _ & (n & m & H) & _). destruct n; discriminate H.
  - split; rewrite handleCommentView_loop_start;
      cbn [comment.ViewOptions.Raw orb]; split.
    + intros (H1 & n & k & Hk & [(m & Hm & Hx) | (m & cid & Hc & Hm & Hx)]);
        [|discriminate Hx].
      injection Hx as -> ->. split; [exact H1|]. split; [exact Hk|].
      split; [now exists n, m | reflexivity].
    + intros (H1 & Hk & (n & m & Hm) & ->). split; [exact H1|].
      exists n, issueKey. split; [exact Hk|]. left. now exists m.
    + intros (H1 & n & k & Hk & [(m & Hm & Hx) | (m & cid & Hc & Hm & Hx)]);
        [discriminate Hx|].
      injection Hx as -> -> ->. split; [exact H1|]. split; [exact Hk|].
      split; [exact Hc|]. split; [now exists n, m | reflexivity].
    + intros (H1 & Hk & Hc & (n & m & Hm) & ->). split; [exact H1|].
      exists n, issueKey. split; [exact Hk|]. right. now exists m, commentID.
Qed.

Lemma operands_other (arg : string) (args : list string) :
  arg <> "--raw" -> arg <> "--yes" -> arg <> "-y" ->
  operands (arg :: args) = arg :: operands args /\
  existsb (String.eqb "--raw") (arg :: args) =
    existsb (String.eqb "--raw") args /\
  existsb is_yes (arg :: args) = existsb is_yes args.
Proof.
  intros H1 H2 H3. unfold operands, is_yes. cbn [List.filter existsb].
  replace (String.eqb "--raw" arg) with false
    by (symmetry; apply String.eqb_neq; congruence).
  apply String.eqb_neq in H1, H2, H3. rewrite H1, H2, H3. auto.
Qed.

Lemma cons_repeat_optional (arg message : string) (l : list string) (m : nat) :
  arg :: l = (repeat EmptyString m ++ optional message)%list ->
  (arg = EmptyString /\
   exists m', l = (repeat EmptyString m' ++ optional message)%list) \/
  (arg <> EmptyString /\ arg = message /\ l = []).
Proof.
  destruct m as [|m]; cbn.
  - unfold optional. destruct (String.eqb_spec message EmptyString) as [->|Hm];
      intros H; [discriminate H|]. injection H as -> ->. right. auto.
  - intros H. injection H as -> ->. left. split; [reflexivity | now exists m].
Qed.

(** The loop of [handleCommentAdd] once both the issue key and the
    message are known. *)
Lemma handleCommentAdd_loop_both (args : list string)
    (opts : comment.AddOptions.t) (issueKey message : string)
    (call : string * string * comment.AddOptions.t) :
  issueKey <> EmptyString -> message <> EmptyString ->
  main.handleCommentAdd_loop args opts issueKey message = main.Invoke call <->
  no_help args /\ operands args = [] /\
  call = (issueKey, message,
          {| comment.AddOptions.Raw :=
               comment.AddOptions.Raw opts ||
               existsb (String.eqb "--raw") args;
             comment.AddOptions.Yes :=
               comment.AddOptions.Yes opts || existsb is_yes args |}).
Proof.
  intros Hk Hc. revert opts. induction args as [|arg args IH]; intros opts.
  - cbn [main.handleCommentAdd_loop existsb]. rewrite !orb_false_r.
    apply String.eqb_neq in Hk. rewrite Hk.
    destruct opts as [r y]. cbn [comment.AddOptions.Raw comment.AddOptions.Yes].
    unfold no_help. cbn [In]. split.
    + intros H. injection H as <-. tauto.
    + intros (_ & _ & ->). reflexivity.
  - cbn [main.handleCommentAdd_loop].
    destruct (String.eqb_spec arg "--raw") as [->|Hraw].
    { rewrite IH, no_help_raw.
      cbn [comment.AddOptions.Raw comment.AddOptions.Yes].
      change (operands ("--raw" :: args)) with (operands args).
      change (existsb is_yes ("--raw" :: args)) with (existsb is_yes args).
      change (existsb (String.eqb "--raw") ("--raw" :: args)) with true.
      cbn [orb]. rewrite orb_true_r. reflexivity. }
    destruct (String.eqb_spec arg "--yes") as [->|Hyes].
    { cbn [orb]. rewrite IH, (no_help_other "--yes" args) by discriminate.
      cbn [comment.AddOptions.Raw comment.AddOptions.Yes].
      change (operands ("--yes" :: args)) with (operands args).
      change (existsb is_yes ("--yes" :: args)) with true.
      change (existsb (String.eqb "--raw") ("--yes" :: args))
        with (existsb (String.eqb "--raw") args).
      cbn [orb]. rewrite orb_true_r. reflexivity. }
    destruct (String.eqb_spec arg "-y") as [->|Hy].
    { cbn [orb]. rewrite IH, (no_help_other "-y" args) by discriminate.
      cbn [comment.AddOptions.Raw comment.AddOptions.Yes].
      change (operands ("-y" :: args)) with (operands args).
      change (existsb is_yes ("-y" :: args)) with true.
      change (existsb (String.eqb "--raw") ("-y" :: args))
        with (existsb (String.eqb "--raw") args).
      cbn [orb]. rewrite orb_true_r. reflexivity. }
    destruct (String.eqb_spec arg "-h") as [->|Hh];
      [cbn [orb]; split; [discriminate | intros [H _]; elim (no_help_h _ H)]|].
    destruct (String.eqb_spec arg "--help") as [->|Hhelp];
      [cbn [orb]; split; [discriminate | intros [H _]; elim (no_help_help _ H)]|].
    cbn [orb]. apply String.eqb_neq in Hk, Hc. rewrite Hk, Hc.
    destruct (operands_other arg args Hraw Hyes Hy) as (-> & _ & _).
    split; [discriminate | intros (_ & H & _); discriminate H].
Qed.

(** The loop once the issue key is known. *)
Lemma handleCommentAdd_loop_key (args : list string)
    (opts : comment.AddOptions.t) (issueKey : string)
    (call : string * string * comment.AddOptions.t) :
  issueKey <> EmptyString ->
  main.handleCommentAdd_loop args opts issueKey EmptyString = main.Invoke call <->
  no_help args /\
  exists m message,
    operands args = (repeat EmptyString m ++ optional message)%list /\
    call = (issueKey, message,
            {| comment.AddOptions.Raw :=
                 comment.AddOptions.Raw opts ||
                 existsb (String.eqb "--raw") args;
               comment.AddOptions.Yes :=
                 comment.AddOptions.Yes opts || existsb is_yes args |}).
Proof.
  intros Hk. revert opts. induction args as [|arg args IH]; intros opts.
  - cbn [main.handleCommentAdd_loop existsb]. rewrite !orb_false_r.
    pose proof Hk as Hk'. apply String.eqb_neq in Hk'. rewrite Hk'.
    destruct opts as [r y]. cbn [comment.AddOptions.Raw comment.AddOptions.Yes].
    unfold no_help. cbn [In]. split.
    + intros H. injection H as <-. split; [tauto|]. now exists O, EmptyString.
    + intros (_ & m & msg & H & ->). f_equal. f_equal. f_equal.
      destruct m; [|discriminate H]. unfold optional in H. cbn in H.
      destruct (String.eqb_spec msg EmptyString); [congruence | discriminate H].
  - cbn [main.handleCommentAdd_loop].
    destruct (String.eqb_spec arg "--raw") as [->|Hraw].
    { rewrite IH, no_help_raw.
      cbn [comment.AddOptions.Raw comment.AddOptions.Yes].
      change (operands ("--raw" :: args)) with (operands args).
      change (existsb is_yes ("--raw" :: args)) with (existsb is_yes args).
      change (existsb (String.eqb "--raw") ("--raw" :: args)) with true.
      cbn [orb]. rewrite orb_true_r. reflexivity. }
    destruct (String.eqb_spec arg "--yes") as [->|Hyes].
    { cbn [orb]. rewrite IH, (no_help_other "--yes" args) by discriminate.
      cbn [comment.AddOptions.Raw comment.AddOptions.Yes].
      change (operands ("--yes" :: args)) with (operands args).
      change (existsb is_yes ("--yes" :: args)) with true.
      change (existsb (String.eqb "--raw") ("--yes" :: args))
        with (existsb (String.eqb "--raw") args).
      cbn [orb]. rewrite orb_true_r. reflexivity. }
    destruct (String.eqb_spec arg "-y") as [->|Hy].
    { cbn [orb]. rewrite IH, (no_help_other "-y" args) by discriminate.
      cbn [comment.AddOptions.Raw comment.AddOptions.Yes].
      change (operands ("-y" :: args)) with (operands args).
      change (existsb is_yes ("-y" :: args)) with true.
      change (existsb (String.eqb "--raw") ("-y" :: args))
        with (existsb (String.eqb "--raw") args).
      cbn [orb]. rewrite orb_true_r. reflexivity. }
    destruct (String.eqb_spec arg "-h") as [->|Hh];
      [cbn [orb]; split; [discriminate | intros [H _]; elim (no_help_h _ H)]|].
    destruct (String.eqb_spec arg "--help") as [->|Hhelp];
      [cbn [orb]; split; [discriminate | intros [H _]; elim (no_help_help _ H)]|].
    cbn [orb]. pose proof Hk as Hk'. apply String.eqb_neq in Hk'. rewrite Hk'.
    rewrite String.eqb_refl.
    destruct (operands_other arg args Hraw Hyes Hy) as (-> & -> & ->).
    rewrite (no_help_other arg args Hh Hhelp).
    destruct (String.eqb_spec arg EmptyString) as [->|Harg].
    + rewrite IH. split.
      * intros (H1 & m & msg & Hm & Hx). split; [exact H1|].
        exists (S m), msg. cbn. now rewrite Hm.
      * intros (H1 & m & msg & Hm & Hx). split; [exact H1|].
        destruct (cons_repeat_optional _ _ _ _ Hm)
          as [(_ & m' & Hm') | (Ha & _)]; [|congruence].
        now exists m', msg.
    + rewrite (handleCommentAdd_loop_both args opts issueKey arg call Hk Harg).
      split.
      * intros (H1 & Hm & Hx). split; [exact H1|].
        exists O, arg. cbn. rewrite Hm. unfold optional.
        apply String.eqb_neq in Harg. rewrite Harg. auto.
      * intros (H1 & m & msg & Hm & Hx).
        destruct (cons_repeat_optional _ _ _ _ Hm)
          as [(Ha & _) | (_ & -> & Hnil)]; [contradiction|]. auto.
Qed.

(** The loop from its start. *)
Lemma handleCommentAdd_loop_start (args : list string)
    (opts : comment.AddOptions.t)
    (call : string * string * comment.AddOptions.t) :
  main.handleCommentAdd_loop args opts EmptyString EmptyString
    = main.Invoke call <->
  no_help args /\
  exists n m issueKey message,
    issueKey <> EmptyString /\
    operands args =
      (repeat EmptyString n ++ issueKey :: repeat EmptyString m ++
       optional message)%list /\
    call = (issueKey, message,
            {| comment.AddOptions.Raw :=
                 comment.AddOptions.Raw opts ||
                 existsb (String.eqb "--raw") args;
               comment.AddOptions.Yes :=
                 comment.AddOptions.Yes opts || existsb is_yes args |}).
Proof.
  revert opts. induction args as [|arg args IH]; intros opts.
  - cbn. split; [discriminate|].
    intros (_ & n & m & k & msg & _ & H & _). destruct n; discriminate H.
  - cbn [main.handleCommentAdd_loop].
    destruct (String.eqb_spec arg "--raw") as [->|Hraw].
    { rewrite IH, no_help_raw.
      cbn [comment.AddOptions.Raw comment.AddOptions.Yes].
      change (operands ("--raw" :: args)) with (operands args).
      change (existsb is_yes ("--raw" :: args)) with (existsb is_yes args).
      change (existsb (String.eqb "--raw") ("--raw" :: args)) with true.
      cbn [orb]. rewrite orb_true_r. reflexivity. }
    destruct (String.eqb_spec arg "--yes") as [->|Hyes].
    { cbn [orb]. rewrite IH, (no_help_other "--yes" args) by discriminate.
      cbn [comment.AddOptions.Raw comment.AddOptions.Yes].
      change (operands ("--yes" :: args)) with (operands args).
      change (existsb is_yes ("--yes" :: args)) with true.
      change (existsb (String.eqb "--raw") ("--yes" :: args))
        with (existsb (String.eqb "--raw") args).
      cbn [orb]. rewrite orb_true_r. reflexivity. }
    destruct (String.eqb_spec arg "-y") as [->|Hy].
    { cbn [orb]. rewrite IH, (no_help_other "-y" args) by discriminate.
      cbn [comment.AddOptions.Raw comment.AddOptions.Yes].
      change (operands ("-y" :: args)) with (operands args).
      change (existsb is_yes ("-y" :: args)) with true.
      change (existsb (String.eqb "--raw") ("-y" :: args))
        with (existsb (String.eqb "--raw") args).
      cbn [orb]. rewrite orb_true_r. reflexivity. }
    destruct (String.eqb_spec arg "-h") as [->|Hh];
      [cbn [orb]; split; [discriminate | intros [H _]; elim (no_help_h _ H)]|].
    destruct (String.eqb_spec arg "--help") as [->|Hhelp];
      [cbn [orb]; split; [discriminate | intros [H _]; elim (no_help_help _ H)]|].
    cbn [orb]. rewrite String.eqb_refl.
    destruct (operands_other arg args Hraw Hyes Hy) as (-> & -> & ->).
    rewrite (no_help_other arg args Hh Hhelp).
    destruct (String.eqb_spec arg EmptyString) as [->|Harg].
    + rewrite IH. split.
      * intros (H1 & n & m & k & msg & Hk & Hm & Hx). split; [exact H1|].
        exists (S n), m, k, msg. cbn. now rewrite Hm.
      * intros (H1 & n & m & k & msg & Hk & Hm & Hx). split; [exact H1|].
        destruct (cons_repeat_empty_key _ _ _ _ n Hm Hk)
          as [(_ & n' & Hn') | (Ha & _)]; [|congruence].
        now exists n', m, k, msg.
    + rewrite (handleCommentAdd_loop_key args opts arg call Harg). split.
      * intros (H1 & m & msg & Hm & Hx). split; [exact H1|].
        exists O, m, arg, msg. cbn. now rewrite Hm.
      * intros (H1 & n & m & k & msg & Hk & Hm & Hx). split; [exact H1|].
        destruct (cons_repeat_empty_key _ _ _ _ n Hm Hk)
          as [(Ha & _) | (-> & Htail)]; [contradiction|].
        now exists m, msg.
Qed.

(** X21.  [handleCommentAdd] calls [comment.Add] exactly when no argument asks
    for the help and the arguments that are left once [--raw], [--yes] and
    [-y] are taken out, empty arguments being skipped, are one issue key
    and then at most one message, as the last of them.  The command gets
    this key and this message (the empty message when there is none, so
    that it prompts for one), the raw option exactly when [--raw] is among
    the arguments, and the yes option exactly when [--yes] or [-y] is. *)
Theorem handleCommentAdd_invokes (args : list string)
    (issueKey message : string) (raw yes : bool) :
  main.handleCommentAdd args =
    main.Invoke (issueKey, message,
                 {| comment.AddOptions.Raw := raw;
                    comment.AddOptions.Yes := yes |}) <->
  no_help args /\ issueKey <> EmptyString /\
  (exists n m,
     operands args =
       (repeat EmptyString n ++ issueKey :: repeat EmptyString m ++
        optional message)%list) /\
  raw = existsb (String.eqb "--raw") args /\
  yes = existsb is_yes args.
Proof.
  unfold main.handleCommentAdd. destruct args as [|arg args].
  - split; [discriminate|].
    intros (_ & _ & (n & m & H) & _). destruct n; discriminate H.
  - rewrite handleCommentAdd_loop_start.
    cbn [comment.AddOptions.Raw comment.AddOptions.Yes orb]. split.
    + intros (H1 & n & m & k & msg & Hk & Hm & Hx).
      injection Hx as -> -> -> ->. split; [exact H1|]. split; [exact Hk|].
      split; [now exists n, m | split; reflexivity].
    + intros (H1 & Hk & (n & m & Hm) & -> & ->). split; [exact H1|].
      now exists n, m, issueKey, message.
Qed.

(** ** The escaping of a form value *)

Lemma upperhex_char (i : Z) :
  exists x, url.upperhex i = String x EmptyString.
Proof. unfold url.upperhex, chr. destruct (i <? 10); eexists; reflexivity. Qed.

Lemma upperhex_inj (i j : Z) :
  0 <= i < 16 -> 0 <= j < 16 -> url.upperhex i = url.upperhex j -> i = j.
Proof.
  intros Hi Hj. unfold url.upperhex, chr.
  destruct (Z.ltb_spec i 10); destruct (Z.ltb_spec j 10); intros Heq;
    injection Heq as Heq'; apply (f_equal byte_val) in Heq';
    rewrite !byte_val_byte in Heq' by lia; lia.
Qed.

(** What [QueryEscape] writes for one byte. *)
Lemma QueryEscape_cons (c : ascii) (s : string) :
  (byte_val c = 32 /\ url.QueryEscape (String c s) = String "+" (url.QueryEscape s)) \/
  (byte_val c <> 32 /\ url.shouldEscape (byte_val c) = true /\
   exists x y,
     url.upperhex (Z.shiftr (byte_val c) 4) = String x EmptyString /\
     url.upperhex (Z.land (byte_val c) 15) = String y EmptyString /\
     url.QueryEscape (String c s) =
       String "%" (String x (String y (url.QueryEscape s)))) \/
  (byte_val c <> 32 /\ url.shouldEscape (byte_val c) = false /\
   url.QueryEscape (String c s) = String c (url.QueryEscape s)).
Proof.
  cbn [url.QueryEscape].
  destruct (Z.eqb_spec (byte_val c) 32) as [H32|H32]; [left; auto|].
  destruct (url.shouldEscape (byte_val c)) eqn:Hesc.
  - right. left. split; [exact H32|]. split; [reflexivity|].
    destruct (upperhex_char (Z.shiftr (byte_val c) 4)) as [x Hx].
    destruct (upperhex_char (Z.land (byte_val c) 15)) as [y Hy].
    exists x, y. rewrite Hx, Hy. auto.
  - right. right. auto.
Qed.

Lemma QueryEscape_inj (s1 s2 : string) :
  url.QueryEscape s1 = url.QueryEscape s2 -> s1 = s2.
Proof.
  revert s2. induction s1 as [|c1 s1 IH]; intros [|c2 s2] H.
  - reflexivity.
  - destruct (QueryEscape_cons c2 s2)
      as [(_ & E) | [(_ & _ & x & y & _ & _ & E) | (_ & _ & E)]];
      rewrite E in H; discriminate H.
  - destruct (QueryEscape_cons c1 s1)
      as [(_ & E) | [(_ & _ & x & y & _ & _ & E) | (_ & _ & E)]];
      rewrite E in H; discriminate H.
  - pose proof (byte_val_range c1) as R1. pose proof (byte_val_range c2) as R2.
    destruct (QueryEscape_cons c1 s1)
      as [(A1 & E1) | [(A1 & B1 & x1 & y1 & Hx1 & Hy1 & E1) | (A1 & B1 & E1)]];
    destruct (QueryEscape_cons c2 s2)
      as [(A2 & E2) | [(A2 & B2 & x2 & y2 & Hx2 & Hy2 & E2) | (A2 & B2 & E2)]];
      rewrite E1, E2 in H.
    + injection H as H. f_equal; [|now apply IH].
      apply byte_val_inj. congruence.
    + discriminate H.
    + injection H as Hc H. subst c2. discriminate B2.
    + discriminate H.
    + injection H as Hx Hy H. subst x2 y2.
      rewrite <- Hx2 in Hx1. rewrite <- Hy2 in Hy1.
      apply upperhex_inj in Hx1; [|rewrite shiftr_4; arith|rewrite shiftr_4; arith].
      apply upperhex_inj in Hy1; [|rewrite land_15; arith|rewrite land_15; arith].
      f_equal; [|now apply IH].
      apply byte_val_inj. rewrite !shiftr_4 in Hx1. rewrite !land_15 in Hy1.
      arith.
    + injection H as Hc H. subst c2. discriminate B2.
    + injection H as Hc H. subst c1. discriminate B1.
    + injection H as Hc H. subst c1. discriminate B1.
    + injection H as Hc H. subst c2. f_equal. now apply IH.
Qed.

(** X22.  The form body of [AddComment] determines the comment: two comments
    that are sent as the same body are the same comment, byte for byte, so
    no two different comments are confused by the escaping. *)
Theorem AddComment_body_determines_comment (content1 content2 : string) :
  url.Encode (url.Set_ ∅ "content" content1) =
  url.Encode (url.Set_ ∅ "content" content2) ->
  content1 = content2.
Proof.
  rewrite !Encode_content. intros H.
  apply QueryEscape_inj.
  change ("content=" ++ url.QueryEscape content1)
    with (String "c" (String "o" (String "n" (String "t" (String "e"
           (String "n" (String "t" (String "=" (url.QueryEscape content1)))))))))
    in H.
  change ("content=" ++ url.QueryEscape content2)
    with (String "c" (String "o" (String "n" (String "t" (String "e"
           (String "n" (String "t" (String "=" (url.QueryEscape content2)))))))))
    in H.
  now injection H.
Qed.

Lemma AddComment_body_determines_comment_witness :
  "a b" = "a" ++ " " ++ "b".
Proof.
  apply (AddComment_body_determines_comment "a b" ("a" ++ " " ++ "b")).
  reflexivity.
Defined.

(** ** The client after a refresh *)

(** X23.  When the stored access token is set and its expiry has passed,
    [NewClient] refreshes before it returns: for a token endpoint that
    answers the refresh with status 200 and a token response that decodes,
    and a config that can be written, the client holds the two tokens of
    the response, and these are what is stored.  The refresh leaves the
    expiry that has passed in the stored credential, so the next
    [NewClient] calls [RefreshToken] again when the new access token is not
    empty; when it is empty, the next [NewClient] fails with the
    not-logged-in error and makes no refresh. *)
Theorem NewClient_refreshes_expired (E : Env) (st : State) (c : config.Config)
    (resp : Response) (token : TokenResponse.t) :
  config.Load E st = Ok c ->
  config.AccessToken c <> EmptyString ->
  0 < config.ExpiresAt c <= now E ->
  config.RefreshToken c <> EmptyString ->
  token_server E (token_posts st)
    ("https://" ++ config.Space c ++ "/api/v2/oauth2/token")
    [("grant_type", "refresh_token"); ("client_id", ClientID E);
     ("client_secret", ClientSecret E);
     ("refresh_token", config.RefreshToken c)] = Ok resp ->
  StatusCode resp = 200 ->
  TokenResponse.Decode (Body resp) = Ok token ->
  writable E ->
  fst (backlog.NewClient E st) =
    Ok {| backlog.cfg := granted (config.Space c) token c |} /\
  config.Load E (snd (backlog.NewClient E st)) =
    Ok (granted (config.Space c) token c) /\
  refresh_calls (snd (backlog.NewClient E st)) = S (refresh_calls st) /\
  (TokenResponse.AccessToken token <> EmptyString ->
   refresh_calls (snd (backlog.NewClient E (snd (backlog.NewClient E st))))
   = S (S (refresh_calls st))) /\
  (TokenResponse.AccessToken token = EmptyString ->
   backlog.NewClient E (snd (backlog.NewClient E st)) =
   (Err (Errorf "not logged in. Please run 'bgl auth login' first" []),
    snd (backlog.NewClient E st))).
Proof.
  intros HL Ha Hexp Hne Hserver Hstatus Hdec Hw.
  assert (Hnc : exists st3,
            backlog.NewClient E st =
              (Ok {| backlog.cfg := granted (config.Space c) token c |}, st3) /\
            config.Load E st3 = Ok (granted (config.Space c) token c) /\
            refresh_calls st3 = S (refresh_calls st)).
  { unfold backlog.NewClient. rewrite HL.
    apply String.eqb_neq in Ha. rewrite Ha.
    replace (config.ExpiresAt c >? 0) with true
      by (symmetry; apply Z.gtb_lt; lia).
    replace (now E >=? config.ExpiresAt c) with true
      by (symmetry; apply Z.geb_le; lia).
    cbn [andb].
    rewrite (RefreshToken_unfold E st c HL Hne).
    unfold auth.getBacklogBaseURL.
    change (("https://" ++ config.Space c) ++ "/api/v2/oauth2/token")
      with ("https://" ++ config.Space c ++ "/api/v2/oauth2/token").
    rewrite Hserver, Hstatus. cbn [negb Z.eqb http.StatusOK Pos.eqb].
    rewrite Hdec.
    match goal with |- context [config.Save E ?c' ?s] =>
      destruct (Save_writable E c' s Hw) as [st3 Hsave]; rewrite Hsave;
      pose proof (Load_granted E s st3 (config.Space c) (Body resp) token c st
                    Hdec HL Hsave) as HL3;
      apply Save_frame in Hsave as (_ & _ & _ & _ & _ & Hrc & _)
    end.
    destruct (Load_stable E st c HL) as ((Hs & _) & _).
    unfold well_formed in Hs. rewrite Hs in HL3. rewrite HL3.
    exists st3. split; [reflexivity|]. split; [exact HL3|].
    rewrite Hrc. reflexivity. }
  destruct Hnc as (st3 & -> & HL3 & Hrc). cbn [fst snd].
  split; [reflexivity|]. split; [exact HL3|]. split; [exact Hrc|].
  unfold backlog.NewClient. rewrite HL3.
  cbn [granted config.AccessToken config.ExpiresAt].
  split.
  - intros Hnew. apply String.eqb_neq in Hnew. rewrite Hnew.
    replace (config.ExpiresAt c >? 0) with true
      by (symmetry; apply Z.gtb_lt; lia).
    replace (now E >=? config.ExpiresAt c) with true
      by (symmetry; apply Z.geb_le; lia).
    cbn [andb].
    pose proof (RefreshToken_counted E st3) as Hc.
    destruct (auth.RefreshToken E st3) as [[e|] st4]; cbn [fst snd] in *.
    + rewrite Hc, Hrc. reflexivity.
    + destruct (config.Load E st4); cbn [snd]; rewrite Hc, Hrc; reflexivity.
  - intros ->. reflexivity.
Qed.

Lemma NewClient_refreshes_expired_witness :
  fst (backlog.NewClient (env_with always_expired (granting 3600))
         (stored (credential "access-1" "refresh-1" 1))) =
  Ok {| backlog.cfg := credential "access-2" "refresh-2" 1 |} /\
  refresh_calls
    (snd (backlog.NewClient (env_with always_expired (granting 3600))
            (snd (backlog.NewClient (env_with always_expired (granting 3600))
                    (stored (credential "access-1" "refresh-1" 1))))))
  = 2%nat.
Proof.
  destruct (NewClient_refreshes_expired
              (env_with always_expired (granting 3600))
              (stored (credential "access-1" "refresh-1" 1))
              (credential "access-1" "refresh-1" 1)
              (response 200 EmptyString (token_body "access-2" "refresh-2" 3600))
              {| TokenResponse.AccessToken := "access-2";
                 TokenResponse.TokenType := "Bearer";
                 TokenResponse.ExpiresIn := 3600;
                 TokenResponse.RefreshToken := "refresh-2" |})
    as (H & _ & _ & H4 & _).
  - vm_compute. reflexivity.
  - discriminate.
  - simpl. lia.
  - discriminate.
  - reflexivity.
  - reflexivity.
  - vm_compute. reflexivity.
  - exists "/home/user/.config/bgl", demo_path.
    repeat split; vm_compute; set_solver.
  - split; [exact H | apply H4; discriminate].
Defined.
